(** * The create-app deployment action, embedded and checked against its specification

    The repository carries three generations of one GitHub action that
    deploys a multi-container application to Magic Containers:

    - [Older]      : src/unnamed/part_000 (one API call per container and
                     one for the endpoint),
    - [Action]     : src/.github/actions/create-app/src/action.ts (the current
                     action: container templates inline with the app),
    - [Descriptor] : the TypeScript source that follows the Dockerfile text in
                     src/Dockerfile (adds the bunny.toml descriptor); only
                     its two parsers are embedded.

    The action is TypeScript whose inputs (YAML, TOML, JSON answers of the
    platform) are untyped at run time, so the embedding works on JavaScript
    values: truthiness, [||], [?.], [===], property reads that throw on null
    and undefined, method calls that throw on values without the method.
    Effects (logging, subprocesses, HTTP calls, the clock, sleeping) are
    threaded through a trace of events; what the outside world answers is
    read from a [World] of oracles that may depend on everything done so
    far.  The polling loop takes fuel; that enough fuel always exists is
    proved for clocks that advance. *)

From Stdlib Require Import String Ascii List ZArith Bool Lia Arith DecimalString.
Import ListNotations.
Local Set Warnings "-register-all".
Local Open Scope string_scope.
Local Open Scope Z_scope.

(* ===================================================================== *)
(** ** JavaScript strings *)
(* ===================================================================== *)

(** Strings are sequences of 8-bit characters.  The method [toLowerCase],
    whose effect depends on the alphabet, belongs to the world and is defined
    with it, below. *)

Definition is_upper (c : ascii) : bool :=
  let n := nat_of_ascii c in (65 <=? n)%nat && (n <=? 90)%nat.

Definition lower_char (c : ascii) : ascii :=
  if is_upper c then ascii_of_nat (nat_of_ascii c + 32) else c.

(** The letters A-Z of a string replaced by a-z, every other character left
    alone: the case folding of a regular expression with the flag [i] on
    ASCII patterns, and what [toLowerCase] does to ASCII text. *)
Fixpoint lower_ascii (s : string) : string :=
  match s with
  | EmptyString => EmptyString
  | String c r => String (lower_char c) (lower_ascii r)
  end.

(** [s.startsWith(p)] *)
Definition startsWith (s p : string) : bool := String.prefix p s.

(** [s.includes(p)] *)
Fixpoint includes (s p : string) : bool :=
  if String.prefix p s then true
  else match s with
       | EmptyString => false
       | String _ r => includes r p
       end.

(** [s.split(sep)] for a one-character separator: the pieces between the
    separators, empty pieces included; never the empty list. *)
Fixpoint split_go (sep : ascii) (s : string) (cur : string) : list string :=
  match s with
  | EmptyString => [cur]
  | String c r =>
      if Ascii.eqb c sep then cur :: split_go sep r EmptyString
      else split_go sep r (cur ++ String c EmptyString)
  end.

Definition split (sep : ascii) (s : string) : list string :=
  split_go sep s EmptyString.

(** [parts.join(sep)] *)
Fixpoint join (sep : string) (parts : list string) : string :=
  match parts with
  | [] => EmptyString
  | [p] => p
  | p :: rest => p ++ sep ++ join sep rest
  end.

(** Decimal rendering of an integer, as [String(n)] gives it. *)
Definition string_of_Z (z : Z) : string :=
  NilZero.string_of_int (Z.to_int z).

Definition string_of_nat (n : nat) : string := string_of_Z (Z.of_nat n).

(* ===================================================================== *)
(** ** JavaScript values *)
(* ===================================================================== *)

(** Numbers: the integral values and NaN.  Ports, identifiers, counts,
    timeouts and clock readings of this program are integral; fractions,
    infinities and the rounding of doubles beyond 2^53 are not represented. *)
Inductive JsNum : Type :=
| NaN
| Num (z : Z).

Inductive JsValue : Type :=
| JUndefined
| JNull
| JBool (b : bool)
| JNumber (n : JsNum)
| JString (s : string)
| JArray (items : list JsValue)
| JObject (fields : list (string * JsValue)).

(** Values that count as true in a condition. *)
Definition truthy (v : JsValue) : bool :=
  match v with
  | JUndefined | JNull => false
  | JBool b => b
  | JNumber NaN => false
  | JNumber (Num z) => negb (z =? 0)
  | JString s => negb (s =? EmptyString)%string
  | JArray _ | JObject _ => true
  end.

(** [a || b] *)
Definition or_else (a b : JsValue) : JsValue := if truthy a then a else b.

Definition nullish (v : JsValue) : bool :=
  match v with
  | JUndefined | JNull => true
  | _ => false
  end.

(** [typeof v] *)
Definition typeof (v : JsValue) : string :=
  match v with
  | JUndefined => "undefined"
  | JNull => "object"
  | JBool _ => "boolean"
  | JNumber _ => "number"
  | JString _ => "string"
  | JArray _ | JObject _ => "object"
  end.

Definition string_of_num (n : JsNum) : string :=
  match n with
  | NaN => "NaN"
  | Num z => string_of_Z z
  end.

(** [String(v)], also what a template literal does to an interpolated value.
    An array prints its elements separated by commas, null and undefined
    elements as nothing. *)
Fixpoint ToString (v : JsValue) : string :=
  match v with
  | JUndefined => "undefined"
  | JNull => "null"
  | JBool true => "true"
  | JBool false => "false"
  | JNumber n => string_of_num n
  | JString s => s
  | JArray items =>
      let piece (x : JsValue) :=
        match x with
        | JUndefined | JNull => EmptyString
        | _ => ToString x
        end in
      join "," (map piece items)
  | JObject _ => "[object Object]"
  end.

(** Errors.  [Error msg] is [new Error(msg)] thrown by the action itself;
    [TypeError] is what the runtime throws on a property read of null or
    undefined, a call of something that is not a function or an iteration
    over something that is not iterable (its message is engine-defined and
    not modelled); [LibraryError] is an Error object raised inside a
    collaborator (YAML, TOML or JSON parser, fetch, the subprocess runner);
    [Thrown v] is any other thrown value. *)
Inductive JsError : Type :=
| Error (msg : string)
| TypeError
| LibraryError (msg : string)
| Thrown (v : JsValue).

Inductive Result (A : Type) : Type :=
| Ok (a : A)
| Throw (e : JsError).
Arguments Ok {A} a.
Arguments Throw {A} e.

Definition rbind {A B : Type} (r : Result A) (k : A -> Result B) : Result B :=
  match r with
  | Ok a => k a
  | Throw e => Throw e
  end.

Notation "'let?' x ':=' e 'in' k" := (rbind e (fun x => k))
  (at level 10, x name, e at level 100, k at level 200).

(** Property lookup in an object literal's fields. *)
Fixpoint lookup (k : string) (fields : list (string * JsValue)) : option JsValue :=
  match fields with
  | [] => None
  | (k', v) :: rest => if (k =? k')%string then Some v else lookup k rest
  end.

(** [v.k] for the property names this program reads.  On null and undefined
    the read throws; an array or a string answers [length]; every other
    read of a missing property gives undefined. *)
Definition get (v : JsValue) (k : string) : Result JsValue :=
  match v with
  | JUndefined | JNull => Throw TypeError
  | JObject fields =>
      match lookup k fields with
      | Some x => Ok x
      | None => Ok JUndefined
      end
  | JArray items =>
      if (k =? "length")%string
      then Ok (JNumber (Num (Z.of_nat (List.length items))))
      else Ok JUndefined
  | JString s =>
      if (k =? "length")%string
      then Ok (JNumber (Num (Z.of_nat (String.length s))))
      else Ok JUndefined
  | JBool _ | JNumber _ => Ok JUndefined
  end.

(** [v?.k] *)
Definition get_opt (v : JsValue) (k : string) : Result JsValue :=
  if nullish v then Ok JUndefined else get v k.

(** [v[0]] *)
Definition first_item (v : JsValue) : Result JsValue :=
  match v with
  | JUndefined | JNull => Throw TypeError
  | JArray (x :: _) => Ok x
  | JString (String c _) => Ok (JString (String c EmptyString))
  | JObject fields =>
      match lookup "0" fields with
      | Some x => Ok x
      | None => Ok JUndefined
      end
  | _ => Ok JUndefined
  end.

(** What [for (const x of v)] iterates over. *)
Fixpoint chars (s : string) : list JsValue :=
  match s with
  | EmptyString => []
  | String c r => JString (String c EmptyString) :: chars r
  end.

Definition iterate (v : JsValue) : Result (list JsValue) :=
  match v with
  | JArray items => Ok items
  | JString s => Ok (chars s)
  | _ => Throw TypeError
  end.

(** [Array.isArray(v)] *)
Definition isArray (v : JsValue) : bool :=
  match v with
  | JArray _ => true
  | _ => false
  end.

Definition num_eqb (a b : JsNum) : bool :=
  match a, b with
  | Num x, Num y => x =? y
  | _, _ => false
  end.

(** [a === b].  Primitive values are compared by value (NaN equals nothing).
    JavaScript compares arrays and objects by identity; values here carry no
    identity and are compared by structure, which agrees with JavaScript
    whenever the operands are one and the same value or differ in structure. *)
Fixpoint strict_equal (a b : JsValue) {struct a} : bool :=
  match a, b with
  | JUndefined, JUndefined => true
  | JNull, JNull => true
  | JBool x, JBool y => Bool.eqb x y
  | JNumber x, JNumber y => num_eqb x y
  | JString x, JString y => (x =? y)%string
  | JArray xs, JArray ys =>
      (fix go (l : list JsValue) (r : list JsValue) {struct l} : bool :=
         match l, r with
         | [], [] => true
         | x :: l', y :: r' => strict_equal x y && go l' r'
         | _, _ => false
         end) xs ys
  | JObject xs, JObject ys =>
      (fix go (l : list (string * JsValue)) (r : list (string * JsValue))
           {struct l} : bool :=
         match l, r with
         | [], [] => true
         | (k, x) :: l', (k', y) :: r' =>
             (k =? k')%string && strict_equal x y && go l' r'
         | _, _ => false
         end) xs ys
  | _, _ => false
  end.

(** [Object.entries(v)] and [Object.keys(v)]: own enumerable properties. *)
Fixpoint indexed {A : Type} (i : nat) (l : list A) : list (string * A) :=
  match l with
  | [] => []
  | x :: r => (string_of_nat i, x) :: indexed (S i) r
  end.

Definition Object_entries (v : JsValue) : list (string * JsValue) :=
  match v with
  | JObject fields => fields
  | JArray items => indexed 0 items
  | JString s => indexed 0 (chars s)
  | _ => []
  end.

Definition Object_keys (v : JsValue) : list string := map fst (Object_entries v).

(** [parseInt(s, 10)]: leading (ASCII) white space is skipped, then an
    optional sign, then the longest run of decimal digits; no digit gives
    NaN. *)
Definition is_space (c : ascii) : bool :=
  let n := nat_of_ascii c in
  (n =? 32)%nat || ((9 <=? n)%nat && (n <=? 13)%nat).

Definition digit_of (c : ascii) : option Z :=
  let n := nat_of_ascii c in
  if ((48 <=? n)%nat && (n <=? 57)%nat)%bool then Some (Z.of_nat (n - 48)) else None.

Fixpoint skip_spaces (s : string) : string :=
  match s with
  | String c r => if is_space c then skip_spaces r else s
  | EmptyString => s
  end.

Fixpoint digits_go (s : string) (acc : option Z) : option Z :=
  match s with
  | EmptyString => acc
  | String c r =>
      match digit_of c with
      | Some d =>
          digits_go r (Some (10 * match acc with Some a => a | None => 0 end + d))
      | None => acc
      end
  end.

Definition parseInt10 (s : string) : JsNum :=
  let body := skip_spaces s in
  let '(neg, rest) :=
    match body with
    | String "-" r => (true, r)
    | String "+" r => (false, r)
    | _ => (false, body)
    end in
  match digits_go rest None with
  | None => NaN
  | Some n => Num (if neg then - n else n)
  end.

(** Arithmetic and comparison on numbers. *)
Definition num_add (a b : JsNum) : JsNum :=
  match a, b with
  | Num x, Num y => Num (x + y)
  | _, _ => NaN
  end.

Definition num_mul (a b : JsNum) : JsNum :=
  match a, b with
  | Num x, Num y => Num (x * y)
  | _, _ => NaN
  end.

(** [a < b]; false as soon as one side is NaN. *)
Definition num_lt (a b : JsNum) : bool :=
  match a, b with
  | Num x, Num y => x <? y
  | _, _ => false
  end.

(* ===================================================================== *)
(** ** The outside world and the trace of effects *)
(* ===================================================================== *)

(** What the action does to its surroundings, in the order it does it. *)
Inductive Event : Type :=
| EvDebug (msg : string)                         (* core.debug *)
| EvInfo (msg : string)                          (* core.info *)
| EvWarning (msg : string)                       (* core.warning *)
| EvStartGroup (title : string)                  (* core.startGroup *)
| EvEndGroup                                     (* core.endGroup *)
| EvSetOutput (key : string) (value : JsValue)   (* core.setOutput *)
| EvSetFailed (e : JsError)                      (* core.setFailed *)
| EvExec (cmd : string) (args : list JsValue) (input : option string)
                                                 (* exec.exec *)
| EvFetch (method url accessKey : string) (body : option string)
                                                 (* fetch *)
| EvDateNow                                      (* Date.now() *)
| EvSleep (ms : Z).                              (* await sleep(ms) *)

Definition Trace := list Event.

(** An HTTP answer as [api] looks at it: [res.ok], [res.status] and the body
    text. *)
Record Response : Type := mkResponse {
  res_ok : bool;
  res_status : Z;
  res_text : string
}.

(** The collaborators.  None of them is code of this repository; each is an
    oracle.  Those that answer differently over time take the trace of what
    has happened before the call. *)
Record World : Type := mkWorld {
  (* core.getInput(name, { required }) *)
  getInput : string -> bool -> Result string;
  (* process.env.GITHUB_SHA: a string, or undefined *)
  GITHUB_SHA : JsValue;
  (* yaml.load *)
  yaml_load : string -> Result JsValue;
  (* fs.existsSync, fs.readFileSync(path, "utf-8"), TOML.parse *)
  existsSync : string -> bool;
  readFileSync : string -> Result string;
  TOML_parse : string -> Result JsValue;
  (* JSON.parse, and JSON.stringify(v, null, indent) *)
  JSON_parse : string -> Result JsValue;
  JSON_stringify : JsValue -> nat -> string;
  (* the numeric value of a string, as Number(s) and the comparison
     operators compute it *)
  StringToNumber : string -> JsNum;
  (* fetch(url, opts) followed by res.text() *)
  fetch : Trace -> string -> string -> string -> option string -> Result Response;
  (* exec.exec(cmd, args, { input }) *)
  exec_exec : Trace -> string -> list JsValue -> option string -> Result unit;
  (* Date.now(), in milliseconds *)
  Date_now : Trace -> Z;
  (* String.prototype.toLowerCase, a built-in *)
  String_toLowerCase : string -> string;
  (* The properties a plain object inherits from Object.prototype, and an
     array from Array.prototype and Object.prototype, [__proto__] apart:
     for the name of such a property, the text its value (a function) has in
     a template literal; None for every other name *)
  Object_prototype : string -> option string;
  Array_prototype : string -> option string
}.

(** [s.toLowerCase()].  The built-in is the world's.  Its result holds no
    letter A-Z: these go to a-z, and no other character is lower-cased into
    one of them.  The embedding has this property by folding A-Z in what the
    world returns, which leaves a result of the built-in as it is. *)
Definition toLowerCase (w : World) (s : string) : string :=
  lower_ascii (String_toLowerCase w s).

(** [Number(v)] *)
Definition ToNumber (w : World) (v : JsValue) : JsNum :=
  match v with
  | JUndefined => NaN
  | JNull => Num 0
  | JBool true => Num 1
  | JBool false => Num 0
  | JNumber n => n
  | JString s => StringToNumber w s
  | JArray _ => StringToNumber w (ToString v)
  | JObject _ => NaN
  end.

(** [v > 0] *)
Definition gt_zero (w : World) (v : JsValue) : bool := num_lt (Num 0) (ToNumber w v).

(** Computations with effects: from the trace so far to the trace afterwards
    and how the computation ended.  [None] is reserved for the polling loop
    running out of the fuel given to the model. *)
Definition M (A : Type) : Type := Trace -> Trace * option (Result A).

Definition ret {A : Type} (a : A) : M A := fun t => (t, Some (Ok a)).

Definition throw {A : Type} (e : JsError) : M A := fun t => (t, Some (Throw e)).

Definition lift {A : Type} (r : Result A) : M A := fun t => (t, Some r).

Definition bind {A B : Type} (m : M A) (k : A -> M B) : M B :=
  fun t =>
    match m t with
    | (t', Some (Ok a)) => k a t'
    | (t', Some (Throw e)) => (t', Some (Throw e))
    | (t', None) => (t', None)
    end.

Notation "'let*' x ':=' e 'in' k" := (bind e (fun x => k))
  (at level 10, x name, e at level 100, k at level 200).
Notation "e ';;' k" := (bind e (fun _ => k))
  (at level 100, k at level 200, right associativity).

Definition emit (e : Event) : M unit := fun t => ((t ++ [e])%list, Some (Ok tt)).

(** [try { m } catch (e) { handler e }] *)
Definition try_catch {A : Type} (m : M A) (handler : JsError -> M A) : M A :=
  fun t =>
    match m t with
    | (t', Some (Throw e)) => handler e t'
    | other => other
    end.

(** [for (const x of xs) { body x }] *)
Fixpoint for_each {A : Type} (xs : list A) (body : A -> M unit) : M unit :=
  match xs with
  | [] => ret tt
  | x :: rest => body x ;; for_each rest body
  end.

(** [xs.map(f)] where [f] may throw: left to right, the first throw wins. *)
Fixpoint map_result {A B : Type} (f : nat -> A -> Result B) (i : nat) (xs : list A)
  : Result (list B) :=
  match xs with
  | [] => Ok []
  | x :: rest =>
      let? y := f i x in
      let? ys := map_result f (S i) rest in
      Ok (y :: ys)
  end.

(** [xs.find(p)] where [p] may throw. *)
Fixpoint find_result {A : Type} (p : A -> Result bool) (xs : list A)
  : Result (option A) :=
  match xs with
  | [] => Ok None
  | x :: rest =>
      let? hit := p x in
      if hit then Ok (Some x) else find_result p rest
  end.

Definition info (msg : string) : M unit := emit (EvInfo msg).
Definition warning (msg : string) : M unit := emit (EvWarning msg).
Definition startGroup (title : string) : M unit := emit (EvStartGroup title).
Definition endGroup : M unit := emit EvEndGroup.
Definition setOutput (key : string) (v : JsValue) : M unit := emit (EvSetOutput key v).
Definition setFailed (e : JsError) : M unit := emit (EvSetFailed e).

Definition input (w : World) (name : string) (required : bool) : M string :=
  lift (getInput w name required).

Definition now (w : World) : M Z :=
  fun t => ((t ++ [EvDateNow])%list, Some (Ok (Date_now w t))).

(** [const sleep = (ms) => new Promise((r) => setTimeout(r, ms))], awaited. *)
Definition sleep (ms : Z) : M unit := emit (EvSleep ms).

Definition exec (w : World) (cmd : string) (args : list JsValue) (stdin : option string)
  : M unit :=
  fun t => ((t ++ [EvExec cmd args stdin])%list, Some (exec_exec w t cmd args stdin)).

(* ===================================================================== *)
(** ** Helpers shared by the three sources *)
(* ===================================================================== *)

Definition API_BASE : string := "https://api.bunny.net/mc".

(** [api(method, path, apiKey, body?)]: the same text in the three sources. *)
Definition api (w : World) (method path apiKey : string) (body : option JsValue)
  : M JsValue :=
  let url := API_BASE ++ path in
  let sent :=
    match body with
    | Some b => if truthy b then Some (JSON_stringify w b 0) else None
    | None => None
    end in
  emit (EvDebug (method ++ " " ++ url)) ;;
  (match body with
   | Some b => if truthy b then emit (EvDebug (JSON_stringify w b 2)) else ret tt
   | None => ret tt
   end) ;;
  let* res := (fun t => ((t ++ [EvFetch method url apiKey sent])%list,
                         Some (fetch w t method url apiKey sent))) in
  if negb (res_ok res)
  then throw (Error ("API " ++ method ++ " " ++ path ++ " failed ("
                     ++ string_of_Z (res_status res) ++ "): " ++ res_text res))
  else if negb (res_text res =? EmptyString)%string
       then lift (JSON_parse w (res_text res))
       else ret JNull.

Record ImageParts : Type := mkImageParts {
  imageNamespace : string;
  imageName : string
}.

(** [parseImageParts(fullImage)] (action.ts and the descriptor source). *)
Definition parseImageParts (fullImage : string) : ImageParts :=
  let parts := split "/" fullImage in
  match parts with
  | [only] => {| imageNamespace := "library"; imageName := only |}
  | _ =>
      let head := hd EmptyString parts in
      let hasRegistryHost := includes head "." || includes head ":" in
      let pathParts := if hasRegistryHost then tl parts else parts in
      let imageName := last pathParts EmptyString in
      let joined := join "/" (removelast pathParts) in
      {| imageNamespace := if (joined =? EmptyString)%string then "library" else joined;
         imageName := imageName |}
  end.

(** [interface ContainerDef], as action.ts and the older source declare it.
    The fields hold what the untyped YAML gave: the interface's [string]
    fields are values, [port] is a number or undefined. *)
Record ContainerDef : Type := mkContainerDef {
  name : JsValue;
  image : JsValue;
  tag : JsValue;
  port : JsValue;
  build : bool;
  context : JsValue;
  dockerfile : JsValue;
  env : JsValue
}.

Record Defaults : Type := mkDefaults {
  registry : string;
  sha : string
}.

(** [image.includes("/")] on whatever [image] is: a string searches for the
    substring, an array for an element, anything else has no such method. *)
Definition value_includes (v : JsValue) (p : string) : Result bool :=
  match v with
  | JString s => Ok (includes s p)
  | JArray items => Ok (existsb (fun x => strict_equal x (JString p)) items)
  | _ => Throw TypeError
  end.

(** [xs.find(p)] on a value: only an array has the method; the answer is the
    first element on which [p] holds, or undefined. *)
Definition array_find (p : JsValue -> Result bool) (v : JsValue) : Result JsValue :=
  match v with
  | JArray items =>
      let? hit := find_result p items in
      Ok (match hit with Some x => x | None => JUndefined end)
  | _ => Throw TypeError
  end.

(** The one-character string holding a double quote. *)
Definition dquote : string := String (ascii_of_nat 34) EmptyString.

(** [a || b] on two strings. *)
Definition str_or (a b : string) : string := if (a =? EmptyString)%string then b else a.

(** A set-failed event carries the Error it was given; a plain string message
    [s] is carried as [Thrown (JString s)]. *)
Definition on_error (e : JsError) : M unit :=
  match e with
  | Thrown (JString s) => setFailed e
  | Thrown _ => setFailed (Thrown (JString "Unexpected error"))
  | _ => setFailed e
  end.

(* ===================================================================== *)
(** ** The current action: src/.github/actions/create-app/src/action.ts *)
(* ===================================================================== *)

Module Action.

(** The callback of [parsed.map((c, i) => ...)] in [parseContainers]. *)
Definition container_of (w : World) (defaults : Defaults) (i : nat) (c : JsValue)
  : Result ContainerDef :=
  let? c_name := get c "name" in
  if negb (truthy c_name)
  then Throw (Error ("Container at index " ++ string_of_nat i ++ " missing 'name'"))
  else
    let? c_image := get c "image" in
    if negb (truthy c_image)
    then Throw (Error ("Container '" ++ ToString c_name ++ "' missing 'image'"))
    else
      let? c_build := get c "build" in
      let isBuild := strict_equal c_build (JBool true) in
      let? image :=
        if isBuild
        then let? slash := value_includes c_image "/" in
             if negb slash
             then Ok (JString (registry defaults ++ "/" ++ ToString c_image))
             else Ok c_image
        else Ok c_image in
      let? c_tag := get c "tag" in
      let? c_port := get c "port" in
      let? c_context := get c "context" in
      let? c_dockerfile := get c "dockerfile" in
      let? c_env := get c "env" in
      Ok {| name := c_name;
            image := image;
            tag := or_else c_tag (JString (if isBuild then sha defaults else "latest"));
            port := if truthy c_port then JNumber (ToNumber w c_port) else JUndefined;
            build := isBuild;
            context := or_else c_context (JString ".");
            dockerfile := or_else c_dockerfile (JString "Dockerfile");
            env := or_else c_env (JObject []) |}.

Definition parseContainers (w : World) (raw : string) (defaults : Defaults)
  : Result (list ContainerDef) :=
  let? parsed := yaml_load w raw in
  match parsed with
  | JArray items => map_result (container_of w defaults) 0 items
  | _ => Throw (Error ("containers input must be a YAML list. Got: " ++ typeof parsed))
  end.

(** *** Step 1: build and push *)

Definition fullRef (c : ContainerDef) : string :=
  ToString (image c) ++ ":" ++ ToString (tag c).

Definition build_and_push (w : World) (registry registryUsername registryPassword : string)
    (buildContainers : list ContainerDef) : M unit :=
  if (0 <? List.length buildContainers)%nat
  then
    startGroup "Build and push images" ;;
    (if negb (registryPassword =? EmptyString)%string
     then exec w "docker"
            [JString "login"; JString registry; JString "-u"; JString registryUsername;
             JString "--password-stdin"]
            (Some registryPassword)
     else ret tt) ;;
    for_each buildContainers (fun c =>
      info ("Building " ++ ToString (name c) ++ " -> " ++ fullRef c) ;;
      exec w "docker"
        [JString "build"; JString "-t"; JString (fullRef c); JString "-f"; dockerfile c;
         JString "--platform"; JString "linux/amd64"; context c]
        None ;;
      info ("Pushing " ++ fullRef c) ;;
      exec w "docker" [JString "push"; JString (fullRef c)] None) ;;
    endGroup
  else ret tt.

(** *** Step 2: registries *)

(** [r.hostName === "docker.io" || r.displayName?.toLowerCase().includes("docker")] *)
Definition is_docker_hub (w : World) (r : JsValue) : Result bool :=
  let? hostName := get r "hostName" in
  if strict_equal hostName (JString "docker.io") then Ok true
  else
    let? displayName := get r "displayName" in
    match displayName with
    | JUndefined | JNull => Ok false
    | JString s => Ok (includes (toLowerCase w s) "docker")
    | _ => Throw TypeError
    end.

(** [r.displayName?.toLowerCase() === searchName] *)
Definition has_display_name (w : World) (searchName : string) (r : JsValue)
  : Result bool :=
  let? displayName := get r "displayName" in
  match displayName with
  | JUndefined | JNull => Ok false
  | JString s => Ok (toLowerCase w s =? searchName)%string
  | _ => Throw TypeError
  end.

Definition list_registries (w : World) (apiKey : string) : M JsValue :=
  let* registriesResponse := api w "GET" "/registries" apiKey None in
  let* items := lift (get_opt registriesResponse "items") in
  let registryItems := or_else items (JArray []) in
  let* len := lift (get registryItems "length") in
  info ("Found " ++ ToString len ++ " existing registry(ies)") ;;
  let* rs := lift (iterate registryItems) in
  for_each rs (fun r =>
    let* displayName := lift (get r "displayName") in
    let* id := lift (get r "id") in
    let* hostName := lift (get r "hostName") in
    let* isPublic := lift (get r "isPublic") in
    info ("  - " ++ ToString displayName ++ " (id: " ++ ToString id
          ++ ", host: " ++ ToString (or_else hostName (JString "n/a"))
          ++ ", public: " ++ ToString (or_else isPublic (JBool false)) ++ ")")) ;;
  ret registryItems.

(** The block [if (hasPublicImages) { ... }]; the answer is
    [dockerHubRegistryId], a string or undefined. *)
Definition docker_hub_registry (w : World) (apiKey : string)
    (containers : list ContainerDef) (registryItems : JsValue) : M JsValue :=
  let hasPublicImages := existsb (fun c => negb (build c)) containers in
  if hasPublicImages
  then
    let* dockerHubRegistry := lift (array_find (is_docker_hub w) registryItems) in
    if truthy dockerHubRegistry
    then
      let* id := lift (get dockerHubRegistry "id") in
      let dockerHubRegistryId := ToString id in
      let* displayName := lift (get dockerHubRegistry "displayName") in
      info ("Using Docker Hub registry: " ++ ToString displayName
            ++ " (id: " ++ dockerHubRegistryId ++ ")") ;;
      ret (JString dockerHubRegistryId)
    else
      info "No Docker Hub registry found. Creating one for public images..." ;;
      let* created := api w "POST" "/registries" apiKey
        (Some (JObject [("displayName", JString "Docker Hub");
                        ("type", JString "DockerHub");
                        ("passwordCredentials",
                         JObject [("userName", JString "public");
                                  ("password", JString "public")])])) in
      let* id := lift (get created "id") in
      let dockerHubRegistryId := ToString id in
      info ("Created Docker Hub registry (id: " ++ dockerHubRegistryId ++ ")") ;;
      ret (JString dockerHubRegistryId)
  else ret JUndefined.

(** The block [if (buildContainers.length > 0 && (bunnyRegistryName ||
    ensureBunnyRegistry)) { ... }]; the answer is [privateRegistryId], a
    string or undefined. *)
Definition private_registry (w : World) (apiKey : string)
    (buildContainers : list ContainerDef)
    (bunnyRegistryName registryUsername registryPassword : string)
    (bunnyRegistryPat bunnyRegistryType : string) (ensureBunnyRegistry : bool)
    (registryItems : JsValue) : M JsValue :=
  if (0 <? List.length buildContainers)%nat
     && (negb (bunnyRegistryName =? EmptyString)%string || ensureBunnyRegistry)
  then
    let searchName := toLowerCase w (str_or bunnyRegistryName registryUsername) in
    let* existing := lift (array_find (has_display_name w searchName) registryItems) in
    if truthy existing
    then
      let* displayName := lift (get existing "displayName") in
      let* id := lift (get existing "id") in
      info ("Found private registry: " ++ ToString displayName
            ++ " (id: " ++ ToString id ++ ")") ;;
      ret (JString (ToString id))
    else if ensureBunnyRegistry
    then
      info "Creating private image registry..." ;;
      let* created := api w "POST" "/registries" apiKey
        (Some (JObject [("displayName", JString (str_or bunnyRegistryName registryUsername));
                        ("type", JString bunnyRegistryType);
                        ("passwordCredentials",
                         JObject [("userName", JString registryUsername);
                                  ("password",
                                   JString (str_or bunnyRegistryPat registryPassword))])])) in
      let* id := lift (get created "id") in
      let privateRegistryId := ToString id in
      info ("Created private registry (id: " ++ privateRegistryId ++ ")") ;;
      ret (JString privateRegistryId)
    else ret JUndefined
  else ret JUndefined.

(** Step 2 as a whole: the pair [(dockerHubRegistryId, privateRegistryId)]. *)
Definition ensure_registries (w : World) (apiKey : string)
    (containers buildContainers : list ContainerDef)
    (bunnyRegistryName registryUsername registryPassword : string)
    (bunnyRegistryPat bunnyRegistryType : string) (ensureBunnyRegistry : bool)
  : M (JsValue * JsValue) :=
  startGroup "Ensure Bunny image registries" ;;
  let* registryItems := list_registries w apiKey in
  let* dockerHubRegistryId := docker_hub_registry w apiKey containers registryItems in
  let* privateRegistryId :=
    private_registry w apiKey buildContainers bunnyRegistryName registryUsername
      registryPassword bunnyRegistryPat bunnyRegistryType ensureBunnyRegistry
      registryItems in
  endGroup ;;
  ret (dockerHubRegistryId, privateRegistryId).

(** *** Step 3: the application payload *)

(** [deploymentType === "advanced" ? "Reserved" : "Shared"] *)
Definition runtimeType (deploymentType : string) : string :=
  if (deploymentType =? "advanced")%string then "Reserved" else "Shared".

Definition regionSettings (deploymentType region : string) : JsValue :=
  if (deploymentType =? "single")%string && negb (region =? EmptyString)%string
  then JObject [("requiredRegionIds", JArray [JString region]);
                ("allowedRegionIds", JArray [JString region]);
                ("maxAllowedRegions", JNumber (Num 1))]
  else JObject [("requiredRegionIds", JArray []);
                ("allowedRegionIds", JArray [])].

(** [endpointContainer || containers.find((ct) => ct.port)?.name ||
    containers[0].name] *)
Definition exposeContainerName (endpointContainer : string)
    (containers : list ContainerDef) : Result JsValue :=
  if negb (endpointContainer =? EmptyString)%string then Ok (JString endpointContainer)
  else
    let first_with_port :=
      match find (fun ct => truthy (port ct)) containers with
      | Some ct => name ct
      | None => JUndefined
      end in
    if truthy first_with_port then Ok first_with_port
    else match containers with
         | c0 :: _ => Ok (name c0)
         | [] => Throw TypeError
         end.

(** The payload of the synthesized endpoint. *)
Definition endpointPayload (endpointName endpointType : string) (c : ContainerDef)
  : JsValue :=
  let portMappings := JArray [JObject [("containerPort", port c)]] in
  JObject
    ([("displayName", JString endpointName)]
     ++ (if (endpointType =? "CDN")%string
         then [("cdn", JObject [("portMappings", portMappings)])]
         else if (endpointType =? "Anycast")%string
              then [("anycast", JObject [("type", JString "IPv4");
                                         ("portMappings", portMappings)])]
              else []))%list.

(** The endpoints the template of [c] receives: [Some [payload]] when
    [template.endpoints] is assigned, [None] when it is not. *)
Definition template_endpoints (createEndpoint : bool)
    (endpointContainer endpointName endpointType : string)
    (containers : list ContainerDef) (c : ContainerDef) : Result (option JsValue) :=
  if truthy (port c) && createEndpoint
  then
    let? expose := exposeContainerName endpointContainer containers in
    if strict_equal (name c) expose
    then Ok (Some (JArray [endpointPayload endpointName endpointType c]))
    else Ok None
  else Ok None.

(** The callback of [containers.map((c) => ...)] that builds one template. *)
Definition template_of (createEndpoint : bool)
    (endpointContainer endpointName endpointType : string)
    (dockerHubRegistryId privateRegistryId : JsValue)
    (containers : list ContainerDef) (c : ContainerDef) : Result JsValue :=
  let? parts :=
    match image c with
    | JString s => Ok (parseImageParts s)
    | _ => Throw TypeError
    end in
  let base :=
    [("name", name c);
     ("image", JString (fullRef c));
     ("imageName", JString (imageName parts));
     ("imageNamespace", JString (imageNamespace parts));
     ("imageTag", tag c);
     ("imageRegistryId",
      if build c && truthy privateRegistryId
      then privateRegistryId
      else or_else dockerHubRegistryId (JString EmptyString));
     ("imagePullPolicy", JString "Always")] in
  let environment :=
    if truthy (env c) && (0 <? List.length (Object_keys (env c)))%nat
    then [("environmentVariables",
           JArray (map (fun kv => JObject [("name", JString (fst kv));
                                           ("value", JString (ToString (snd kv)))])
                       (Object_entries (env c))))]
    else [] in
  let? endpoints :=
    template_endpoints createEndpoint endpointContainer endpointName endpointType
      containers c in
  Ok (JObject (base ++ environment
               ++ match endpoints with
                  | Some eps => [("endpoints", eps)]
                  | None => []
                  end)%list).

Definition containerTemplates (createEndpoint : bool)
    (endpointContainer endpointName endpointType : string)
    (dockerHubRegistryId privateRegistryId : JsValue)
    (containers : list ContainerDef) : Result (list JsValue) :=
  map_result (fun _ c =>
                template_of createEndpoint endpointContainer endpointName endpointType
                  dockerHubRegistryId privateRegistryId containers c)
             0 containers.

Definition appPayload (appName deploymentType region : string)
    (templates : list JsValue) : JsValue :=
  JObject [("name", JString appName);
           ("runtimeType", JString (runtimeType deploymentType));
           ("autoScaling", JObject [("min", JNumber (Num 1)); ("max", JNumber (Num 3))]);
           ("regionSettings", regionSettings deploymentType region);
           ("containerTemplates", JArray templates)].

(** *** Step 4: deploy and wait *)

(** [appStatus?.status || ""], the empty string being written out. *)
Definition reported_status (appStatus : JsValue) : Result JsValue :=
  let? reported := get_opt appStatus "status" in
  Ok (or_else reported (JString EmptyString)).

(** The loop [while (Date.now() < deadline) { ... }]; the answer is the last
    value of [status]. *)
Fixpoint poll (w : World) (fuel : nat) (apiKey : string) (appId : JsValue)
    (deadline : JsNum) (status : JsValue) : M JsValue :=
  match fuel with
  | O => fun t => (t, None)
  | S fuel' =>
      let* clock := now w in
      if num_lt (Num clock) deadline
      then
        let* appStatus := api w "GET" ("/apps/" ++ ToString appId) apiKey None in
        let* status' := lift (reported_status appStatus) in
        info ("  Status: " ++ ToString status') ;;
        if strict_equal status' (JString "Active")
        then ret status'
        else sleep 10000 ;; poll w fuel' apiKey appId deadline status'
      else ret status
  end.

(** The block [if (waitForDeploy) { ... }]. *)
Definition wait_for_deployment (w : World) (fuel : nat) (apiKey : string)
    (appId : JsValue) (waitForDeploy : bool) (timeout : JsNum) : M unit :=
  if waitForDeploy
  then
    let* started := now w in
    let deadline := num_add (Num started) (num_mul timeout (Num 1000)) in
    let* status := poll w fuel apiKey appId deadline (JString EmptyString) in
    if negb (strict_equal status (JString "Active"))
    then warning ("App did not become active within " ++ string_of_num timeout
                  ++ "s (last: " ++ ToString status ++ ")")
    else ret tt
  else ret tt.

(** *** Step 5: the deployed URL *)

(** The loop [for (const ct of appContainers) { ... }]: the first template
    whose endpoint list is not empty decides. *)
Fixpoint scan_templates (w : World) (appContainers : list JsValue) (hostname : JsValue)
  : Result JsValue :=
  match appContainers with
  | [] => Ok hostname
  | ct :: rest =>
      let? declared := get ct "endpoints" in
      let endpoints := or_else declared (JArray []) in
      let? len := get endpoints "length" in
      if gt_zero w len
      then
        let? endpoint0 := first_item endpoints in
        let? publicHost := get endpoint0 "publicHost" in
        Ok (or_else publicHost (JString EmptyString))
      else scan_templates w rest hostname
  end.

Definition hostname_of (w : World) (appDetails : JsValue) : Result JsValue :=
  let? displayEndpoint := get_opt appDetails "displayEndpoint" in
  let? address := get_opt displayEndpoint "address" in
  let hostname := or_else address (JString EmptyString) in
  if negb (truthy hostname)
  then
    let? templates := get_opt appDetails "containerTemplates" in
    let appContainers := or_else templates (JArray []) in
    let? cts := iterate appContainers in
    scan_templates w cts hostname
  else Ok hostname.

(** [appUrl]: empty for an empty hostname; the hostname itself when it
    [startsWith("http")]; otherwise the hostname behind [https://]. *)
Definition appUrl_of (hostname : JsValue) : Result JsValue :=
  if truthy hostname
  then match hostname with
       | JString s =>
           if startsWith s "http" then Ok hostname else Ok (JString ("https://" ++ s))
       | _ => Throw TypeError
       end
  else Ok (JString EmptyString).

Definition retrieve_url (w : World) (apiKey : string) (appId : JsValue)
    (createEndpoint : bool) : M unit :=
  if createEndpoint
  then
    startGroup "Retrieve deployed URL" ;;
    let* appDetails := api w "GET" ("/apps/" ++ ToString appId) apiKey None in
    let* hostname := lift (hostname_of w appDetails) in
    let* appUrl := lift (appUrl_of hostname) in
    (if truthy appUrl
     then info ("Deployed URL: " ++ ToString appUrl)
     else info "No endpoint URL found yet (may take a moment to provision).") ;;
    setOutput "app_url" appUrl ;;
    setOutput "endpoint_hostname" hostname ;;
    endGroup
  else ret tt.

Definition summary (appName : string) (appId : JsValue) (containers : list ContainerDef)
  : M unit :=
  info "App is live on Magic Containers!" ;;
  info ("  App:  " ++ appName ++ " (" ++ ToString appId ++ ")") ;;
  for_each containers (fun c =>
    info ("  Container: " ++ ToString (name c) ++ " -> " ++ fullRef c
          ++ (if truthy (port c) then " (port " ++ ToString (port c) ++ ")" else EmptyString)
          ++ (if build c then " [built]" else " [pre-built]"))).

(** *** The whole run *)

(** The body of the [try] block. *)
Definition run_body (w : World) (fuel : nat) : M unit :=
  let* apiKey := input w "api_key" true in
  let* appName := input w "app_name" true in
  let* deploymentType := input w "deployment_type" false in
  let* region := input w "region" false in
  let* registry := input w "registry" false in
  let* registryUsername := input w "registry_username" false in
  let* registryPassword := input w "registry_password" false in
  let* create_endpoint := input w "create_endpoint" false in
  let createEndpoint := (create_endpoint =? "true")%string in
  let* endpointType := input w "endpoint_type" false in
  let* endpoint_name := input w "endpoint_name" false in
  let endpointName := str_or endpoint_name (appName ++ "-endpoint") in
  let* endpointContainer := input w "endpoint_container" false in
  let* ensure_bunny_registry := input w "ensure_bunny_registry" false in
  let ensureBunnyRegistry := (ensure_bunny_registry =? "true")%string in
  let* bunnyRegistryName := input w "bunny_registry_name" false in
  let* bunnyRegistryPat := input w "bunny_registry_pat" false in
  let* bunnyRegistryType := input w "bunny_registry_type" false in
  let* wait_for_deployment_input := input w "wait_for_deployment" false in
  let waitForDeploy := (wait_for_deployment_input =? "true")%string in
  let* deployment_timeout := input w "deployment_timeout" false in
  let timeout := parseInt10 deployment_timeout in
  let sha := ToString (or_else (GITHUB_SHA w) (JString "latest")) in
  let* containersRaw := input w "containers" true in
  let* containers :=
    lift (parseContainers w containersRaw (mkDefaults registry sha)) in
  let buildContainers := filter build containers in
  info ("Parsed " ++ string_of_nat (List.length containers) ++ " container(s): "
        ++ string_of_nat (List.length buildContainers) ++ " to build, "
        ++ string_of_nat (List.length containers - List.length buildContainers)
        ++ " pre-built") ;;
  build_and_push w registry registryUsername registryPassword buildContainers ;;
  let* ids :=
    ensure_registries w apiKey containers buildContainers bunnyRegistryName
      registryUsername registryPassword bunnyRegistryPat bunnyRegistryType
      ensureBunnyRegistry in
  startGroup "Create Magic Containers application" ;;
  let* templates :=
    lift (containerTemplates createEndpoint endpointContainer endpointName endpointType
            (fst ids) (snd ids) containers) in
  let* app := api w "POST" "/apps" apiKey
                (Some (appPayload appName deploymentType region templates)) in
  let* appId := lift (get app "id") in
  info ("App created: " ++ appName ++ " (id: " ++ ToString appId ++ ")") ;;
  setOutput "app_id" appId ;;
  endGroup ;;
  startGroup "Deploy application" ;;
  api w "POST" ("/apps/" ++ ToString appId ++ "/deploy") apiKey None ;;
  info "Deploy triggered." ;;
  wait_for_deployment w fuel apiKey appId waitForDeploy timeout ;;
  endGroup ;;
  retrieve_url w apiKey appId createEndpoint ;;
  summary appName appId containers.

Definition run (w : World) (fuel : nat) : M unit :=
  try_catch (run_body w fuel) on_error.

End Action.

(* ===================================================================== *)
(** ** The older variant: src/unnamed/part_000 *)
(* ===================================================================== *)

Module Older.

(** The callback of [parsed.map((c, i) => ...)] in [parseContainers]. *)
Definition container_of (w : World) (defaults : Defaults) (i : nat) (c : JsValue)
  : Result ContainerDef :=
  let? c_name := get c "name" in
  if negb (truthy c_name)
  then Throw (Error ("Container at index " ++ string_of_nat i ++ " missing 'name'"))
  else
    let? c_image := get c "image" in
    if negb (truthy c_image)
    then Throw (Error ("Container '" ++ ToString c_name ++ "' missing 'image'"))
    else
      let? c_build := get c "build" in
      let isBuild := strict_equal c_build (JBool true) in
      let? image :=
        if isBuild
        then let? slash := value_includes c_image "/" in
             if negb slash
             then Ok (JString (registry defaults ++ "/" ++ ToString c_image))
             else Ok c_image
        else Ok c_image in
      let? c_tag := get c "tag" in
      let? c_port := get c "port" in
      let? c_context := get c "context" in
      let? c_dockerfile := get c "dockerfile" in
      let? c_env := get c "env" in
      Ok {| name := c_name;
            image := image;
            tag := or_else c_tag (JString (if isBuild then sha defaults else "latest"));
            port := if truthy c_port then JNumber (ToNumber w c_port) else JUndefined;
            build := isBuild;
            context := or_else c_context (JString ".");
            dockerfile := or_else c_dockerfile (JString "Dockerfile");
            env := or_else c_env (JObject []) |}.

Definition parseContainers (w : World) (raw : string) (defaults : Defaults)
  : Result (list ContainerDef) :=
  let? parsed := yaml_load w raw in
  match parsed with
  | JArray items => map_result (container_of w defaults) 0 items
  | _ => Throw (Error ("containers input must be a YAML list. Got: " ++ typeof parsed))
  end.

(** *** Step 1: build and push *)

Definition fullRef (c : ContainerDef) : string :=
  ToString (image c) ++ ":" ++ ToString (tag c).

Definition build_and_push (w : World) (registry registryUsername registryPassword : string)
    (buildContainers : list ContainerDef) : M unit :=
  if (0 <? List.length buildContainers)%nat
  then
    startGroup "Build and push images" ;;
    (if negb (registryPassword =? EmptyString)%string
     then exec w "docker"
            [JString "login"; JString registry; JString "-u"; JString registryUsername;
             JString "--password-stdin"]
            (Some registryPassword)
     else ret tt) ;;
    for_each buildContainers (fun c =>
      info ("Building " ++ ToString (name c) ++ " -> " ++ fullRef c) ;;
      exec w "docker"
        [JString "build"; JString "-t"; JString (fullRef c); JString "-f"; dockerfile c;
         JString "--platform"; JString "linux/amd64"; context c]
        None ;;
      info ("Pushing " ++ fullRef c) ;;
      exec w "docker" [JString "push"; JString (fullRef c)] None) ;;
    endGroup
  else ret tt.

(** *** Step 2: the image registry *)

(** [r.name?.toLowerCase() === searchName] *)
Definition has_name (w : World) (searchName : string) (r : JsValue) : Result bool :=
  let? r_name := get r "name" in
  match r_name with
  | JUndefined | JNull => Ok false
  | JString s => Ok (toLowerCase w s =? searchName)%string
  | _ => Throw TypeError
  end.

(** The block [if (bunnyRegistryName || ensureBunnyRegistry) { ... }]; the
    answer is [registryId], whatever the platform gave as id, or undefined. *)
Definition ensure_registry (w : World) (apiKey : string)
    (bunnyRegistryName registryUsername registryPassword : string)
    (bunnyRegistryPat bunnyRegistryType : string) (ensureBunnyRegistry : bool)
  : M JsValue :=
  if negb (bunnyRegistryName =? EmptyString)%string || ensureBunnyRegistry
  then
    startGroup "Ensure Bunny image registry" ;;
    let* registries := api w "GET" "/registries" apiKey None in
    let searchName := toLowerCase w (str_or bunnyRegistryName registryUsername) in
    let* existing :=
      lift (array_find (has_name w searchName)
              (if isArray registries then registries else JArray [])) in
    let* registryId :=
      if truthy existing
      then
        let* r_name := lift (get existing "name") in
        let* id := lift (get existing "id") in
        info ("Found existing registry: " ++ ToString r_name
              ++ " (id: " ++ ToString id ++ ")") ;;
        ret id
      else if ensureBunnyRegistry
      then
        info "Creating Bunny image registry..." ;;
        let* created := api w "POST" "/registries" apiKey
          (Some (JObject [("name", JString (str_or bunnyRegistryName registryUsername));
                          ("registryType", JString bunnyRegistryType);
                          ("username", JString registryUsername);
                          ("personalAccessToken",
                           JString (str_or bunnyRegistryPat registryPassword))])) in
        let* id := lift (get created "id") in
        info ("Created registry (id: " ++ ToString id ++ ")") ;;
        ret id
      else ret JUndefined in
    endGroup ;;
    ret registryId
  else ret JUndefined.

(** *** Step 3: the application *)

Definition appPayload (appName deploymentType region : string) : JsValue :=
  JObject ([("name", JString appName); ("deploymentType", JString deploymentType)]
           ++ (if (deploymentType =? "single")%string && negb (region =? EmptyString)%string
               then [("region", JString region)]
               else []))%list.

(** *** Step 4: one call per container *)

(** [containerIdMap] is a plain object, created as [{}].  It has the
    properties the loop has set, its own ones, and it inherits: from
    Object.prototype at first, and from whatever an assignment to
    [__proto__] has put in that place. *)
Inductive Prototype : Type :=
| ObjectPrototype                 (* Object.prototype, as for a fresh {} *)
| NullPrototype                   (* null, after __proto__ = null *)
| ValuePrototype (v : JsValue).   (* an object or an array v, after __proto__ = v *)

Record IdMap : Type := mkIdMap {
  own : list (string * JsValue);
  prototype : Prototype
}.

(** [{}] *)
Definition empty_map : IdMap := {| own := []; prototype := ObjectPrototype |}.

(** What a read of the map gives: a value, or a built-in (an inherited
    function, or Object.prototype itself), which counts as true and of
    which the program uses only the text in a template literal. *)
Inductive Slot : Type :=
| Held (v : JsValue)
| BuiltIn (text : string).

Definition slot_truthy (x : Slot) : bool :=
  match x with
  | Held v => truthy v
  | BuiltIn _ => true
  end.

Definition slot_text (x : Slot) : string :=
  match x with
  | Held v => ToString v
  | BuiltIn text => text
  end.

(** An own property set or replaced. *)
Fixpoint set_field (key : string) (v : JsValue) (fields : list (string * JsValue))
  : list (string * JsValue) :=
  match fields with
  | [] => [(key, v)]
  | (k, x) :: rest =>
      if (k =? key)%string then (k, v) :: rest else (k, x) :: set_field key v rest
  end.

(** The item of an array under a key that is an index written in decimal. *)
Definition item_at (items : list JsValue) (key : string) : option JsValue :=
  match find (fun i => (string_of_nat i =? key)%string) (seq 0 (List.length items)) with
  | Some i => nth_error items i
  | None => None
  end.

Definition inherited (text : option string) : Slot :=
  match text with
  | Some t => BuiltIn t
  | None => Held JUndefined
  end.

(** A read that the own properties do not answer goes up the prototype
    chain.  [__proto__] is an accessor of Object.prototype and answers the
    prototype of the map itself. *)
Definition read_prototype (w : World) (p : Prototype) (key : string) : Slot :=
  match p with
  | ObjectPrototype =>
      if (key =? "__proto__")%string then BuiltIn "[object Object]"
      else inherited (Object_prototype w key)
  | NullPrototype => Held JUndefined
  | ValuePrototype (JObject fields) =>
      match lookup key fields with
      | Some x => Held x
      | None =>
          if (key =? "__proto__")%string then Held (JObject fields)
          else inherited (Object_prototype w key)
      end
  | ValuePrototype (JArray items) =>
      if (key =? "length")%string
      then Held (JNumber (Num (Z.of_nat (List.length items))))
      else match item_at items key with
           | Some x => Held x
           | None =>
               if (key =? "__proto__")%string then Held (JArray items)
               else inherited (Array_prototype w key)
           end
  | ValuePrototype _ => Held JUndefined
  end.

(** [containerIdMap[key]] *)
Definition read (w : World) (m : IdMap) (key : string) : Slot :=
  match lookup key (own m) with
  | Some v => Held v
  | None => read_prototype w (prototype m) key
  end.

(** Whether an assignment to [__proto__] that finds no own property of that
    name ends at the accessor of Object.prototype: not when the chain is cut
    by null, nor when an object on the way has a property of its own of that
    name. *)
Definition reaches_accessor (p : Prototype) : bool :=
  match p with
  | ObjectPrototype => true
  | NullPrototype => false
  | ValuePrototype (JObject fields) =>
      match lookup "__proto__" fields with
      | Some _ => false
      | None => true
      end
  | ValuePrototype _ => true
  end.

(** [containerIdMap[key] = v].  An own property is replaced.  Otherwise the
    property is created, except that [__proto__] ending at the accessor sets
    the prototype instead, to an object, an array or null, and ignores every
    other value. *)
Definition assign (key : string) (v : JsValue) (m : IdMap) : IdMap :=
  match lookup key (own m) with
  | Some _ => {| own := set_field key v (own m); prototype := prototype m |}
  | None =>
      if (key =? "__proto__")%string && reaches_accessor (prototype m)
      then match v with
           | JObject _ | JArray _ => {| own := own m; prototype := ValuePrototype v |}
           | JNull => {| own := own m; prototype := NullPrototype |}
           | _ => m
           end
      else {| own := set_field key v (own m); prototype := prototype m |}
  end.

Definition containerPayload (registryId : JsValue) (c : ContainerDef) : JsValue :=
  JObject ([("name", name c); ("image", image c); ("imageTag", tag c)]
           ++ (if truthy registryId && build c
               then [("containerRegistryId", registryId)] else [])
           ++ (if truthy (env c) && (0 <? List.length (Object_keys (env c)))%nat
               then [("environmentVariables", env c)] else []))%list.

(** The loop [for (const c of containers) { ... }]; the answer is
    [containerIdMap], keyed by container name. *)
Fixpoint add_containers (w : World) (apiKey : string) (appId registryId : JsValue)
    (containers : list ContainerDef) (containerIdMap : IdMap)
  : M IdMap :=
  match containers with
  | [] => ret containerIdMap
  | c :: rest =>
      info ("Adding container: " ++ ToString (name c) ++ " (" ++ fullRef c ++ ")") ;;
      let* created := api w "POST" ("/apps/" ++ ToString appId ++ "/containers") apiKey
                        (Some (containerPayload registryId c)) in
      let* id := lift (get created "id") in
      info ("  " ++ ToString (name c) ++ " added (id: " ++ ToString id ++ ")") ;;
      add_containers w apiKey appId registryId rest
        (assign (ToString (name c)) id containerIdMap)
  end.

(** *** Step 5: the endpoint *)

(** [endpointContainer || containers.find((c) => c.port)?.name ||
    containers[0].name] *)
Definition exposeContainerName (endpointContainer : string)
    (containers : list ContainerDef) : Result JsValue :=
  if negb (endpointContainer =? EmptyString)%string then Ok (JString endpointContainer)
  else
    let first_with_port :=
      match find (fun c => truthy (port c)) containers with
      | Some c => name c
      | None => JUndefined
      end in
    if truthy first_with_port then Ok first_with_port
    else match containers with
         | c0 :: _ => Ok (name c0)
         | [] => Throw TypeError
         end.

(** [containers.find((c) => c.name === exposeContainerName)?.port || 80] *)
Definition exposePort (expose : JsValue) (containers : list ContainerDef) : JsValue :=
  or_else
    match find (fun c => strict_equal (name c) expose) containers with
    | Some c => port c
    | None => JUndefined
    end
    (JNumber (Num 80)).

(** The block [if (createEndpoint) { ... }] of step 5. *)
Definition create_endpoint (w : World) (apiKey : string) (appId : JsValue)
    (createEndpoint : bool) (endpointContainer endpointName endpointType : string)
    (containers : list ContainerDef) (containerIdMap : IdMap)
  : M unit :=
  if createEndpoint
  then
    startGroup "Create endpoint" ;;
    let* expose := lift (exposeContainerName endpointContainer containers) in
    let exposeContainerId := read w containerIdMap (ToString expose) in
    if negb (slot_truthy exposeContainerId)
    then throw (Error ("Could not find container " ++ dquote ++ ToString expose
                       ++ dquote ++ " for endpoint"))
    else
      let port := exposePort expose containers in
      api w "POST" ("/apps/" ++ ToString appId ++ "/containers/"
                    ++ slot_text exposeContainerId ++ "/endpoints") apiKey
        (Some (JObject [("name", JString endpointName);
                        ("type", JString endpointType);
                        ("port", port)])) ;;
      info ("Endpoint '" ++ endpointName ++ "' created (" ++ endpointType
            ++ ", exposing: " ++ ToString expose ++ ":" ++ ToString port ++ ")") ;;
      endGroup
  else ret tt.

(** *** Step 6: deploy and wait *)

(** [/^(active|running)$/i.test(status)]: the whole string, letters compared
    without regard to ASCII case. *)
Definition is_active_or_running (status : JsValue) : bool :=
  let s := lower_ascii (ToString status) in
  (s =? "active")%string || (s =? "running")%string.

(** [appStatus?.status || appStatus?.state || ""], the empty string being
    written out. *)
Definition reported_status (appStatus : JsValue) : Result JsValue :=
  let? reported := get_opt appStatus "status" in
  if truthy reported then Ok reported
  else let? state := get_opt appStatus "state" in
       Ok (or_else state (JString EmptyString)).

(** The loop [while (Date.now() < deadline) { ... }]; the answer is the last
    value of [status]. *)
Fixpoint poll (w : World) (fuel : nat) (apiKey : string) (appId : JsValue)
    (deadline : JsNum) (status : JsValue) : M JsValue :=
  match fuel with
  | O => fun t => (t, None)
  | S fuel' =>
      let* clock := now w in
      if num_lt (Num clock) deadline
      then
        let* appStatus := api w "GET" ("/apps/" ++ ToString appId) apiKey None in
        let* status' := lift (reported_status appStatus) in
        info ("  Status: " ++ ToString status') ;;
        if is_active_or_running status'
        then ret status'
        else sleep 10000 ;; poll w fuel' apiKey appId deadline status'
      else ret status
  end.

(** The block [if (waitForDeploy) { ... }]. *)
Definition wait_for_deployment (w : World) (fuel : nat) (apiKey : string)
    (appId : JsValue) (waitForDeploy : bool) (timeout : JsNum) : M unit :=
  if waitForDeploy
  then
    let* started := now w in
    let deadline := num_add (Num started) (num_mul timeout (Num 1000)) in
    let* status := poll w fuel apiKey appId deadline (JString EmptyString) in
    if negb (is_active_or_running status)
    then warning ("App did not become active within " ++ string_of_num timeout
                  ++ "s (last: " ++ ToString status ++ ")")
    else ret tt
  else ret tt.

(** *** Step 7: the deployed URL *)

Fixpoint scan_containers (w : World) (appContainers : list JsValue) (hostname : JsValue)
  : Result JsValue :=
  match appContainers with
  | [] => Ok hostname
  | ct :: rest =>
      let? declared := get ct "endpoints" in
      let endpoints := or_else declared (JArray []) in
      let? len := get endpoints "length" in
      if gt_zero w len
      then
        let? endpoint0 := first_item endpoints in
        let? host := get endpoint0 "hostname" in
        if truthy host then Ok host
        else let? url := get endpoint0 "url" in
             Ok (or_else url (JString EmptyString))
      else scan_containers w rest hostname
  end.

Definition hostname_of (w : World) (appDetails : JsValue) : Result JsValue :=
  let? listed := get_opt appDetails "containers" in
  let? appContainers :=
    if truthy listed then Ok listed
    else let? templates := get_opt appDetails "containerTemplates" in
         Ok (or_else templates (JArray [])) in
  let? cts := iterate appContainers in
  scan_containers w cts (JString EmptyString).

Definition appUrl_of (hostname : JsValue) : Result JsValue :=
  if truthy hostname
  then match hostname with
       | JString s =>
           if startsWith s "http" then Ok hostname else Ok (JString ("https://" ++ s))
       | _ => Throw TypeError
       end
  else Ok (JString EmptyString).

Definition retrieve_url (w : World) (apiKey : string) (appId : JsValue)
    (createEndpoint : bool) : M unit :=
  if createEndpoint
  then
    startGroup "Retrieve deployed URL" ;;
    let* appDetails := api w "GET" ("/apps/" ++ ToString appId) apiKey None in
    let* hostname := lift (hostname_of w appDetails) in
    let* appUrl := lift (appUrl_of hostname) in
    (if truthy appUrl
     then info ("Deployed URL: " ++ ToString appUrl)
     else info "No endpoint URL found yet (may take a moment to provision).") ;;
    setOutput "app_url" appUrl ;;
    setOutput "endpoint_hostname" hostname ;;
    endGroup
  else ret tt.

Definition summary (appName : string) (appId : JsValue) (containers : list ContainerDef)
  : M unit :=
  info "App is live on Magic Containers!" ;;
  info ("  App:  " ++ appName ++ " (" ++ ToString appId ++ ")") ;;
  for_each containers (fun c =>
    info ("  Container: " ++ ToString (name c) ++ " -> " ++ fullRef c
          ++ (if truthy (port c) then " (port " ++ ToString (port c) ++ ")" else EmptyString)
          ++ (if build c then " [built]" else " [pre-built]"))).

(** *** The whole run *)

Definition run_body (w : World) (fuel : nat) : M unit :=
  let* apiKey := input w "api_key" true in
  let* appName := input w "app_name" true in
  let* deploymentType := input w "deployment_type" false in
  let* region := input w "region" false in
  let* registry := input w "registry" false in
  let* registryUsername := input w "registry_username" false in
  let* registryPassword := input w "registry_password" false in
  let* create_endpoint_input := input w "create_endpoint" false in
  let createEndpoint := (create_endpoint_input =? "true")%string in
  let* endpointType := input w "endpoint_type" false in
  let* endpoint_name := input w "endpoint_name" false in
  let endpointName := str_or endpoint_name (appName ++ "-endpoint") in
  let* endpointContainer := input w "endpoint_container" false in
  let* ensure_bunny_registry := input w "ensure_bunny_registry" false in
  let ensureBunnyRegistry := (ensure_bunny_registry =? "true")%string in
  let* bunnyRegistryName := input w "bunny_registry_name" false in
  let* bunnyRegistryPat := input w "bunny_registry_pat" false in
  let* bunnyRegistryType := input w "bunny_registry_type" false in
  let* wait_for_deployment_input := input w "wait_for_deployment" false in
  let waitForDeploy := (wait_for_deployment_input =? "true")%string in
  let* deployment_timeout := input w "deployment_timeout" false in
  let timeout := parseInt10 deployment_timeout in
  let sha := ToString (or_else (GITHUB_SHA w) (JString "latest")) in
  let* containersRaw := input w "containers" true in
  let* containers :=
    lift (parseContainers w containersRaw (mkDefaults registry sha)) in
  let buildContainers := filter build containers in
  info ("Parsed " ++ string_of_nat (List.length containers) ++ " container(s): "
        ++ string_of_nat (List.length buildContainers) ++ " to build, "
        ++ string_of_nat (List.length containers - List.length buildContainers)
        ++ " pre-built") ;;
  build_and_push w registry registryUsername registryPassword buildContainers ;;
  let* registryId :=
    ensure_registry w apiKey bunnyRegistryName registryUsername registryPassword
      bunnyRegistryPat bunnyRegistryType ensureBunnyRegistry in
  startGroup "Create Magic Containers application" ;;
  let* app := api w "POST" "/apps" apiKey
                (Some (appPayload appName deploymentType region)) in
  let* appId := lift (get app "id") in
  info ("App created: " ++ appName ++ " (id: " ++ ToString appId ++ ")") ;;
  setOutput "app_id" appId ;;
  endGroup ;;
  startGroup ("Add " ++ string_of_nat (List.length containers)
              ++ " container(s) to the app") ;;
  let* containerIdMap := add_containers w apiKey appId registryId containers empty_map in
  endGroup ;;
  create_endpoint w apiKey appId createEndpoint endpointContainer endpointName
    endpointType containers containerIdMap ;;
  startGroup "Deploy application" ;;
  api w "POST" ("/apps/" ++ ToString appId ++ "/deploy") apiKey None ;;
  info "Deploy triggered." ;;
  wait_for_deployment w fuel apiKey appId waitForDeploy timeout ;;
  endGroup ;;
  retrieve_url w apiKey appId createEndpoint ;;
  summary appName appId containers.

Definition run (w : World) (fuel : nat) : M unit :=
  try_catch (run_body w fuel) on_error.

End Older.

(* ===================================================================== *)
(** ** The descriptor source: the TypeScript text in src/Dockerfile *)
(* ===================================================================== *)

Module Descriptor.

(** One entry of [EndpointDef.ports]. *)
Record PortDef : Type := mkPortDef {
  container : JsValue;
  exposed : JsValue;
  protocols : JsValue
}.

(** [interface EndpointDef] *)
Record EndpointDef : Type := mkEndpointDef {
  endpoint_name : JsValue;
  endpoint_type : string;
  ports : list PortDef
}.

(** [interface ContainerDef] of this source: the older one plus [endpoints]. *)
Record ContainerDef : Type := mkContainerDef {
  name : JsValue;
  image : JsValue;
  tag : JsValue;
  port : JsValue;
  build : bool;
  context : JsValue;
  dockerfile : JsValue;
  env : JsValue;
  endpoints : list EndpointDef
}.

(** [interface AppConfig] *)
Record AppConfig : Type := mkAppConfig {
  config_name : JsValue;
  config_containers : list ContainerDef
}.

(** [xs.map(f)] on a value: only an array has the method. *)
Definition array_map {B : Type} (f : nat -> JsValue -> Result B) (v : JsValue)
  : Result (list B) :=
  match v with
  | JArray items => map_result f 0 items
  | _ => Throw TypeError
  end.

Definition port_of (p : JsValue) : Result PortDef :=
  let? p_container := get p "container" in
  let? p_exposed := get p "exposed" in
  let? p_protocols := get p "protocols" in
  Ok {| container := or_else p_container (JNumber (Num 80));
        exposed := p_exposed;
        protocols := p_protocols |}.

Definition endpoint_of (w : World) (cName : JsValue) (ep : JsValue)
  : Result EndpointDef :=
  let? ep_ports := get ep "ports" in
  let rawPorts := or_else ep_ports (JArray []) in
  let? ep_name := get ep "name" in
  let? ep_type := get ep "type" in
  let? type :=
    match or_else ep_type (JString "cdn") with
    | JString s => Ok (toLowerCase w s)
    | _ => Throw TypeError
    end in
  let? ps := array_map (fun _ p => port_of p) rawPorts in
  Ok {| endpoint_name := or_else ep_name (JString (ToString cName ++ "-endpoint"));
        endpoint_type := type;
        ports := ps |}.

(** The callback of [rawContainers.map((c, i) => ...)] in [parseFromToml];
    [name] is the descriptor's top-level name. *)
Definition container_of_toml (w : World) (defaults : Defaults) (app_name : JsValue)
    (i : nat) (c : JsValue) : Result ContainerDef :=
  let? c_name := get c "name" in
  let cName := or_else c_name (JString EmptyString) in
  if negb (truthy cName)
  then Throw (Error ("Container at index " ++ string_of_nat i
                     ++ " in bunny.toml missing 'name'"))
  else
    let? c_build := get c "build" in
    let isBuild := strict_equal c_build (JBool true) in
    let? c_image := get c "image" in
    let declared := or_else c_image (JString EmptyString) in
    let inferred :=
      if negb (truthy declared) && isBuild
      then JString (registry defaults ++ "/" ++ ToString app_name)
      else declared in
    if negb (truthy inferred)
    then Throw (Error ("Container '" ++ ToString cName
                       ++ "' in bunny.toml missing 'image'"))
    else
      let? image :=
        if isBuild
        then let? slash := value_includes inferred "/" in
             if negb slash
             then Ok (JString (registry defaults ++ "/" ++ ToString inferred))
             else Ok inferred
        else Ok inferred in
      let? c_env := get c "env" in
      let env :=
        if truthy c_env && (typeof c_env =? "object")%string
        then JObject (map (fun kv => (fst kv, JString (ToString (snd kv))))
                          (Object_entries c_env))
        else JObject [] in
      let? c_endpoints := get c "endpoints" in
      let rawEndpoints := or_else c_endpoints (JArray []) in
      let? endpoints := array_map (fun _ ep => endpoint_of w cName ep) rawEndpoints in
      let? c_port := get c "port" in
      let port :=
        if truthy c_port then JNumber (ToNumber w c_port)
        else match endpoints with
             | ep0 :: _ =>
                 match ports ep0 with
                 | p0 :: _ => container p0
                 | [] => JUndefined
                 end
             | [] => JUndefined
             end in
      let? c_tag := get c "tag" in
      let? c_context := get c "context" in
      let? c_dockerfile := get c "dockerfile" in
      Ok {| name := cName;
            image := image;
            tag := or_else c_tag (JString (if isBuild then sha defaults else "latest"));
            port := port;
            build := isBuild;
            context := or_else c_context (JString ".");
            dockerfile := or_else c_dockerfile (JString "Dockerfile");
            env := env;
            endpoints := endpoints |}.

Definition parseFromToml (w : World) (tomlPath : string) (defaults : Defaults)
  : Result AppConfig :=
  let? raw := readFileSync w tomlPath in
  let? parsed := TOML_parse w raw in
  let? parsed_name := get parsed "name" in
  let app_name := or_else parsed_name (JString EmptyString) in
  let? parsed_containers := get parsed "containers" in
  let rawContainers := or_else parsed_containers (JArray []) in
  let? containers := array_map (container_of_toml w defaults app_name) rawContainers in
  Ok {| config_name := app_name; config_containers := containers |}.

(** The callback of [parsed.map((c, i) => ...)] in [parseFromYaml]. *)
Definition container_of_yaml (w : World) (defaults : Defaults) (i : nat) (c : JsValue)
  : Result ContainerDef :=
  let? c_name := get c "name" in
  if negb (truthy c_name)
  then Throw (Error ("Container at index " ++ string_of_nat i ++ " missing 'name'"))
  else
    let? c_image := get c "image" in
    if negb (truthy c_image)
    then Throw (Error ("Container '" ++ ToString c_name ++ "' missing 'image'"))
    else
      let? c_build := get c "build" in
      let isBuild := strict_equal c_build (JBool true) in
      let? image :=
        if isBuild
        then let? slash := value_includes c_image "/" in
             if negb slash
             then Ok (JString (registry defaults ++ "/" ++ ToString c_image))
             else Ok c_image
        else Ok c_image in
      let? c_tag := get c "tag" in
      let? c_port := get c "port" in
      let? c_context := get c "context" in
      let? c_dockerfile := get c "dockerfile" in
      let? c_env := get c "env" in
      Ok {| name := c_name;
            image := image;
            tag := or_else c_tag (JString (if isBuild then sha defaults else "latest"));
            port := if truthy c_port then JNumber (ToNumber w c_port) else JUndefined;
            build := isBuild;
            context := or_else c_context (JString ".");
            dockerfile := or_else c_dockerfile (JString "Dockerfile");
            env := or_else c_env (JObject []);
            endpoints := [] |}.

Definition parseFromYaml (w : World) (raw : string) (defaults : Defaults)
  : Result (list ContainerDef) :=
  let? parsed := yaml_load w raw in
  match parsed with
  | JArray items => map_result (container_of_yaml w defaults) 0 items
  | _ => Throw (Error ("containers input must be a YAML list. Got: " ++ typeof parsed))
  end.

End Descriptor.

(* ===================================================================== *)
(** ** Example worlds and the predicates of the statements *)
(* ===================================================================== *)

(** [core.getInput] over a table of supplied inputs. *)
Fixpoint supplied (table : list (string * string)) (key : string) : option string :=
  match table with
  | [] => None
  | (k, v) :: rest => if (k =? key)%string then Some v else supplied rest key
  end.

Definition table_input (table : list (string * string)) (key : string) (required : bool)
  : Result string :=
  match supplied table key with
  | Some v => Ok v
  | None =>
      if required then Throw (Error ("Input required and not supplied: " ++ key))
      else Ok EmptyString
  end.

(** Time passes by one millisecond per recorded event and by the requested
    duration per sleep. *)
Definition cost (e : Event) : Z :=
  match e with
  | EvSleep ms => Z.max 1 ms
  | _ => 1
  end.

Fixpoint elapsed (t : Trace) : Z :=
  match t with
  | [] => 0
  | e :: rest => cost e + elapsed rest
  end.

(** The built-ins as the example worlds have them.  Lower-casing is that of
    ASCII text; Object.prototype has its eleven function properties, and an
    array inherits these and the array methods. *)
Definition object_builtin (key : string) : option string :=
  if existsb (String.eqb key)
       ["constructor"; "hasOwnProperty"; "isPrototypeOf"; "propertyIsEnumerable";
        "toLocaleString"; "toString"; "valueOf"; "__defineGetter__";
        "__defineSetter__"; "__lookupGetter__"; "__lookupSetter__"]
  then Some ("function " ++ (if (key =? "constructor")%string then "Object" else key)
             ++ "() { [native code] }")
  else None.

Definition array_builtin (key : string) : option string :=
  if (key =? "constructor")%string then Some "function Array() { [native code] }"
  else if existsb (String.eqb key)
            ["at"; "concat"; "copyWithin"; "entries"; "every"; "fill"; "filter"; "find";
             "findIndex"; "findLast"; "findLastIndex"; "flat"; "flatMap"; "forEach";
             "includes"; "indexOf"; "join"; "keys"; "lastIndexOf"; "map"; "pop";
             "push"; "reduce"; "reduceRight"; "reverse"; "shift"; "slice"; "some";
             "sort"; "splice"; "unshift"; "values"]
       then Some ("function " ++ key ++ "() { [native code] }")
       else object_builtin key.

(** A platform that answers every call with the same JSON value. *)
Definition steady_world (inputs : list (string * string)) (yaml : string -> Result JsValue)
    (answer : JsValue) : World :=
  {| getInput := table_input inputs;
     GITHUB_SHA := JString "abc123";
     yaml_load := yaml;
     existsSync := fun _ => false;
     readFileSync := fun _ => Throw (LibraryError "ENOENT");
     TOML_parse := fun _ => Ok (JObject []);
     JSON_parse := fun _ => Ok answer;
     JSON_stringify := fun _ _ => "{}";
     StringToNumber := parseInt10;
     fetch := fun _ _ _ _ _ => Ok (mkResponse true 200 "{}");
     exec_exec := fun _ _ _ _ => Ok tt;
     Date_now := elapsed;
     String_toLowerCase := lower_ascii;
     Object_prototype := object_builtin;
     Array_prototype := array_builtin |}.

Definition quiet_world : World := steady_world [] (fun _ => Ok (JArray [])) JNull.

(** An inline list whose only entry is built and declares no image. *)
Definition no_image_yaml : string := "[{name: web, build: true}]".

Definition no_image_entry : JsValue :=
  JObject [("name", JString "web"); ("build", JBool true)].

Definition no_image_world : World :=
  steady_world
    [("api_key", "key"); ("app_name", "foo"); ("registry", "reg");
     ("containers", no_image_yaml)]
    (fun raw => if (raw =? no_image_yaml)%string then Ok (JArray [no_image_entry])
                else Throw (LibraryError "not the example text"))
    JNull.

(** An inline list with the name [web] twice. *)
Definition twin_yaml : string := "[{name: web, image: nginx}, {name: web, image: redis}]".

Definition twin_entries : list JsValue :=
  [JObject [("name", JString "web"); ("image", JString "nginx")];
   JObject [("name", JString "web"); ("image", JString "redis")]].

Definition twin_world : World :=
  steady_world
    [("api_key", "key"); ("app_name", "shop"); ("registry", "reg");
     ("containers", twin_yaml)]
    (fun raw => if (raw =? twin_yaml)%string then Ok (JArray twin_entries)
                else Throw (LibraryError "not the example text"))
    (JObject [("id", JNumber (Num 7)); ("status", JString "Active")]).

(** An entry of the container list that has a name and a non-empty string as
    image. *)
Definition entry_resolvable (c : JsValue) : Prop :=
  exists (n : JsValue) (s : string),
    get c "name" = Ok n /\ truthy n = true
    /\ get c "image" = Ok (JString s) /\ s <> EmptyString.

(** A resolved container as the interface declares it: the name is a
    non-empty string and the image is a string. *)
Definition resolved (c : ContainerDef) : Prop :=
  (exists s, name c = JString s /\ s <> EmptyString) /\ (exists s, image c = JString s).

(** A container declares a port when [c.port] counts as true. *)
Definition declares_port (c : ContainerDef) : bool := truthy (port c).

(** A template carries an endpoint when its [endpoints] property is set. *)
Definition carries_endpoint (t : JsValue) : bool :=
  match t with
  | JObject fields =>
      match lookup "endpoints" fields with
      | Some _ => true
      | None => false
      end
  | _ => false
  end.

(** [c] bears the name of the exposed container: the explicitly named one, or
    else the first container declaring a port, or else the first container. *)
Definition is_exposed (endpointContainer : string) (containers : list ContainerDef)
    (c : ContainerDef) : Prop :=
  (endpointContainer <> EmptyString /\ name c = JString endpointContainer)
  \/ (endpointContainer = EmptyString
      /\ exists pre ct post,
           containers = (pre ++ ct :: post)%list
           /\ Forall (fun x => declares_port x = false) pre
           /\ declares_port ct = true
           /\ name c = name ct)
  \/ (endpointContainer = EmptyString
      /\ Forall (fun x => declares_port x = false) containers
      /\ exists c0 rest, containers = c0 :: rest /\ name c = name c0).

(** Two resolved containers: one built with a port, one pulled without. *)
Definition api_container : ContainerDef :=
  {| name := JString "api"; image := JString "ghcr.io/org/shop"; tag := JString "abc123";
     port := JNumber (Num 8080); build := true; context := JString ".";
     dockerfile := JString "Dockerfile"; env := JObject [] |}.

Definition redis_container : ContainerDef :=
  {| name := JString "redis"; image := JString "redis"; tag := JString "latest";
     port := JUndefined; build := false; context := JString ".";
     dockerfile := JString "Dockerfile"; env := JObject [] |}.

(** The display name of a registry entry can be read and is a string, null
    or absent. *)
Definition display_name_readable (r : JsValue) : Prop :=
  exists v, get r "displayName" = Ok v
            /\ (v = JUndefined \/ v = JNull \/ exists s, v = JString s).

(** The display name of [r] equals [requested] up to letter case: the two
    are the same once lower-cased, as the search compares them. *)
Definition named_like (w : World) (requested : string) (r : JsValue) : Prop :=
  exists d, get r "displayName" = Ok (JString d)
            /\ toLowerCase w d = toLowerCase w requested.

(** The display-name test of the private-registry search as a plain
    predicate. *)
Definition display_name_is (w : World) (searchName : string) (r : JsValue) : bool :=
  match get r "displayName" with
  | Ok (JString s) => (toLowerCase w s =? searchName)%string
  | _ => false
  end.

(** A platform whose answer depends on the call: the body text of the answer
    to [method url] is the two joined by a space, and [answers] parses it. *)
Definition scripted_world (inputs : list (string * string))
    (yaml : string -> Result JsValue) (answers : string -> JsValue) : World :=
  {| getInput := table_input inputs;
     GITHUB_SHA := JString "abc123";
     yaml_load := yaml;
     existsSync := fun _ => false;
     readFileSync := fun _ => Throw (LibraryError "ENOENT");
     TOML_parse := fun _ => Ok (JObject []);
     JSON_parse := fun text => Ok (answers text);
     JSON_stringify := fun _ _ => "{}";
     StringToNumber := parseInt10;
     fetch := fun _ method url _ _ => Ok (mkResponse true 200 (method ++ " " ++ url));
     exec_exec := fun _ _ _ _ => Ok tt;
     Date_now := elapsed;
     String_toLowerCase := lower_ascii;
     Object_prototype := object_builtin;
     Array_prototype := array_builtin |}.

(** The platform lists one registry, GHCR with id 12, and gives id 99 to
    whatever is created. *)
Definition ghcr_listed : list JsValue :=
  [JObject [("id", JNumber (Num 12)); ("displayName", JString "GHCR");
            ("hostName", JString "ghcr.io")]].

Definition ghcr_world : World :=
  scripted_world [] (fun _ => Ok (JArray []))
    (fun text =>
       if (text =? "GET https://api.bunny.net/mc/registries")%string
       then JObject [("items", JArray ghcr_listed)]
       else JObject [("id", JNumber (Num 99))]).

(** A world whose lower-casing folds the accented capital of ÉCOLE as well,
    as the built-in does, and a list with that name in both cases. *)
Definition accent_world : World :=
  {| getInput := getInput ghcr_world;
     GITHUB_SHA := GITHUB_SHA ghcr_world;
     yaml_load := yaml_load ghcr_world;
     existsSync := existsSync ghcr_world;
     readFileSync := readFileSync ghcr_world;
     TOML_parse := TOML_parse ghcr_world;
     JSON_parse := fun text =>
       if (text =? "GET https://api.bunny.net/mc/registries")%string
       then Ok (JArray [JObject [("id", JNumber (Num 1)); ("name", JString "ÉCOLE")];
                        JObject [("id", JNumber (Num 2)); ("name", JString "école")]])
       else Ok (JObject [("id", JNumber (Num 99))]);
     JSON_stringify := JSON_stringify ghcr_world;
     StringToNumber := StringToNumber ghcr_world;
     fetch := fetch ghcr_world;
     exec_exec := exec_exec ghcr_world;
     Date_now := Date_now ghcr_world;
     String_toLowerCase := fun s =>
       if (s =? "ÉCOLE")%string then "école" else lower_ascii s;
     Object_prototype := object_builtin;
     Array_prototype := array_builtin |}.

Definition accent_listed : list JsValue :=
  [JObject [("id", JNumber (Num 1)); ("displayName", JString "ÉCOLE")];
   JObject [("id", JNumber (Num 2)); ("displayName", JString "école")]].

(** A container template of an application-detail answer that lists no
    endpoint: its [endpoints] property is absent, null or an empty list. *)
Definition without_endpoints (ct : JsValue) : Prop :=
  exists e, get ct "endpoints" = Ok e /\ (truthy e = false \/ e = JArray []).

(** Application details whose first template with endpoints has an empty
    host while a later template has a host. *)
Definition details_with_late_host : JsValue :=
  JObject
    [("id", JNumber (Num 7));
     ("containerTemplates",
      JArray
        [JObject [("name", JString "api");
                  ("endpoints", JArray [JObject [("displayName", JString "shop-endpoint");
                                                 ("publicHost", JString EmptyString)]])];
         JObject [("name", JString "web");
                  ("endpoints", JArray [JObject [("publicHost",
                                                  JString "web.example.net")]])]])].

(** Application details whose only endpoint host has no scheme and happens
    to begin with the letters http. *)
Definition details_with_httpbin_host : JsValue :=
  JObject
    [("containerTemplates",
      JArray [JObject [("endpoints",
                        JArray [JObject [("publicHost",
                                          JString "httpbin.example.net")]])]])].

(** Application details with a plain host on the first template. *)
Definition details_with_plain_host : JsValue :=
  JObject
    [("containerTemplates",
      JArray [JObject [("endpoints",
                        JArray [JObject [("publicHost",
                                          JString "shop.example.net")]])]])].

(** The clock never runs backwards, and a sleep lasts at least as long as
    asked. *)
Definition clock_advances (w : World) : Prop :=
  (forall (t : Trace) (e : Event), Date_now w t <= Date_now w (t ++ [e])%list)
  /\ (forall (t : Trace) (ms : Z), Date_now w t + ms <= Date_now w (t ++ [EvSleep ms])%list).

(** A platform that reports the status running on every poll. *)
Definition running_world : World :=
  steady_world [] (fun _ => Ok (JArray []))
    (JObject [("id", JNumber (Num 7)); ("status", JString "running")]).

(** The same platform as the older variant expects it: the list call answers
    a bare array whose entries carry [name]. *)
Definition older_ghcr_world : World :=
  scripted_world [] (fun _ => Ok (JArray []))
    (fun text =>
       if (text =? "GET https://api.bunny.net/mc/registries")%string
       then JArray [JObject [("id", JNumber (Num 12)); ("name", JString "GHCR")]]
       else JObject [("id", JNumber (Num 99))]).

(** A list in which an entry with a numeric display name precedes GHCR. *)
Definition ghcr_after_unreadable : list JsValue :=
  JObject [("id", JNumber (Num 3)); ("displayName", JNumber (Num 5))] :: ghcr_listed.

(* ===================================================================== *)
(** ** Vocabulary for the statements about the rest of the code *)
(* ===================================================================== *)

(** A string without slash. *)
Definition slash_free (s : string) : Prop := ~ In "/"%char (list_ascii_of_string s).

(** The first segment of an image names a registry host when it holds a dot
    or a colon. *)
Definition names_host (segment : string) : bool :=
  includes segment "." || includes segment ":".

(** The fields every resolved container can be relied on to have. *)
Definition well_resolved (c : ContainerDef) : Prop :=
  truthy (name c) = true
  /\ truthy (image c) = true
  /\ truthy (tag c) = true
  /\ truthy (context c) = true
  /\ truthy (dockerfile c) = true
  /\ truthy (env c) = true
  /\ (port c = JUndefined \/ exists n, port c = JNumber n)
  /\ (build c = true -> value_includes (image c) "/" = Ok true).

(** Classes of events. *)
Definition is_fetch (e : Event) : bool :=
  match e with EvFetch _ _ _ _ => true | _ => false end.

Definition is_post (e : Event) : bool :=
  match e with EvFetch method _ _ _ => (method =? "POST")%string | _ => false end.

Definition is_exec (e : Event) : bool :=
  match e with EvExec _ _ _ => true | _ => false end.

Definition is_set_failed (e : Event) : bool :=
  match e with EvSetFailed _ => true | _ => false end.

(** How many events of a class a trace holds. *)
Definition count (p : Event -> bool) (t : Trace) : nat := List.length (filter p t).

(** A computation only adds to the trace, and what it adds satisfies [P]. *)
Definition adds {A : Type} (P : list Event -> Prop) (m : M A) : Prop :=
  forall (t t' : Trace) (r : option (Result A)),
    m t = (t', r) -> exists evs, t' = (t ++ evs)%list /\ P evs.

(** A computation adds at most [n] events of class [p]. *)
Definition bounded {A : Type} (p : Event -> bool) (n : nat) (m : M A) : Prop :=
  adds (fun evs => (count p evs <= n)%nat) m.

(** The subprocess calls of a trace, in order. *)
Fixpoint executions (t : Trace) : list (string * list JsValue * option string) :=
  match t with
  | [] => []
  | EvExec cmd args stdin :: rest => (cmd, args, stdin) :: executions rest
  | _ :: rest => executions rest
  end.

(** The two docker calls made for one built container. *)
Definition docker_calls (c : ContainerDef) : list (string * list JsValue * option string) :=
  [("docker",
    [JString "build"; JString "-t"; JString (Action.fullRef c); JString "-f"; dockerfile c;
     JString "--platform"; JString "linux/amd64"; context c],
    None);
   ("docker", [JString "push"; JString (Action.fullRef c)], None)].

(** A resolved container of the current action, seen as one of the
    descriptor source: no endpoints. *)
Definition without_declared_endpoints (c : ContainerDef) : Descriptor.ContainerDef :=
  {| Descriptor.name := name c;
     Descriptor.image := image c;
     Descriptor.tag := tag c;
     Descriptor.port := port c;
     Descriptor.build := build c;
     Descriptor.context := context c;
     Descriptor.dockerfile := dockerfile c;
     Descriptor.env := env c;
     Descriptor.endpoints := [] |}.

(** An inline list whose second entry has no name. *)
Definition nameless_yaml : string := "[{name: web, image: nginx}, {image: redis}]".

Definition nameless_world : World :=
  steady_world
    [("api_key", "key"); ("app_name", "shop"); ("registry", "reg");
     ("containers", nameless_yaml)]
    (fun raw =>
       if (raw =? nameless_yaml)%string
       then Ok (JArray [JObject [("name", JString "web"); ("image", JString "nginx")];
                        JObject [("image", JString "redis")]])
       else Throw (LibraryError "not the example text"))
    JNull.

(** An endpoint as the descriptor parser leaves it: named, its type in lower
    case, every port mapping with a container port. *)
Definition well_declared_endpoint (ep : Descriptor.EndpointDef) : Prop :=
  truthy (Descriptor.endpoint_name ep) = true
  /\ lower_ascii (Descriptor.endpoint_type ep) = Descriptor.endpoint_type ep
  /\ Forall (fun p => truthy (Descriptor.container p) = true) (Descriptor.ports ep).

(** A container as the descriptor parser leaves it. *)
Definition well_described (c : Descriptor.ContainerDef) : Prop :=
  truthy (Descriptor.name c) = true
  /\ truthy (Descriptor.image c) = true
  /\ truthy (Descriptor.tag c) = true
  /\ (Descriptor.build c = true -> value_includes (Descriptor.image c) "/" = Ok true)
  /\ (exists fields,
         Descriptor.env c = JObject fields
         /\ Forall (fun kv => exists s, snd kv = JString s) fields)
  /\ Forall well_declared_endpoint (Descriptor.endpoints c)
  /\ (forall ep eps p ps,
         Descriptor.endpoints c = ep :: eps -> Descriptor.ports ep = p :: ps ->
         Descriptor.port c <> JUndefined).

(** A descriptor with one built container that declares neither image nor
    port, only a cdn endpoint on port 8080. *)
Definition shop_toml : JsValue :=
  JObject
    [("name", JString "shop");
     ("containers",
      JArray
        [JObject
           [("name", JString "api");
            ("build", JBool true);
            ("env", JObject [("PORT", JNumber (Num 8080))]);
            ("endpoints",
             JArray [JObject [("type", JString "CDN");
                              ("ports",
                               JArray [JObject [("container", JNumber (Num 8080))]])]])]])].

Definition shop_world : World :=
  {| getInput := table_input [];
     GITHUB_SHA := JString "abc123";
     yaml_load := fun _ => Ok (JArray []);
     existsSync := fun path => (path =? "bunny.toml")%string;
     readFileSync := fun path =>
       if (path =? "bunny.toml")%string then Ok "name = shop"
       else Throw (LibraryError "ENOENT");
     TOML_parse := fun _ => Ok shop_toml;
     JSON_parse := fun _ => Ok JNull;
     JSON_stringify := fun _ _ => "{}";
     StringToNumber := parseInt10;
     fetch := fun _ _ _ _ _ => Ok (mkResponse true 200 EmptyString);
     exec_exec := fun _ _ _ _ => Ok tt;
     Date_now := elapsed;
     String_toLowerCase := lower_ascii;
     Object_prototype := object_builtin;
     Array_prototype := array_builtin |}.

(** Events in two phases: first no HTTP call, then no subprocess. *)
Definition builds_then_calls (evs : list Event) : Prop :=
  exists e1 e2, evs = (e1 ++ e2)%list /\ count is_fetch e1 = 0%nat /\ count is_exec e2 = 0%nat.

(** A workflow with one container to build and one to pull, on a platform
    that answers every call with id 7 and status Active. *)
Definition shop_yaml : string :=
  "[{name: api, image: shop, build: true, port: 8080}, {name: redis, image: redis}]".

Definition shop_entries : list JsValue :=
  [JObject [("name", JString "api"); ("image", JString "shop"); ("build", JBool true);
            ("port", JNumber (Num 8080))];
   JObject [("name", JString "redis"); ("image", JString "redis")]].

Definition build_world : World :=
  steady_world
    [("api_key", "key"); ("app_name", "shop"); ("registry", "ghcr.io/org");
     ("registry_username", "octocat"); ("registry_password", "pw");
     ("create_endpoint", "true"); ("endpoint_type", "CDN");
     ("wait_for_deployment", "true"); ("deployment_timeout", "300");
     ("containers", shop_yaml)]
    (fun raw => if (raw =? shop_yaml)%string then Ok (JArray shop_entries)
                else Throw (LibraryError "not the example text"))
    (JObject [("id", JNumber (Num 7)); ("status", JString "Active")]).

(** The Docker Hub test of the registry search as a plain predicate: the
    host is docker.io, or the display name, in lower case, holds docker. *)
Definition docker_hub_like (w : World) (r : JsValue) : bool :=
  match get r "hostName" with
  | Ok hostName =>
      if strict_equal hostName (JString "docker.io") then true
      else match get r "displayName" with
           | Ok (JString s) => includes (toLowerCase w s) "docker"
           | _ => false
           end
  | Throw _ => false
  end.

(** The platform lists a Docker Hub registry with id 4 after GHCR. *)
Definition hub_listed : list JsValue :=
  ghcr_listed
  ++ [JObject [("id", JNumber (Num 4)); ("displayName", JString "Public images");
               ("hostName", JString "docker.io")]].

(** The docker login of the build step. *)
Definition login_call (registry registryUsername registryPassword : string)
  : string * list JsValue * option string :=
  ("docker",
   [JString "login"; JString registry; JString "-u"; JString registryUsername;
    JString "--password-stdin"],
   Some registryPassword).

(** The subprocess calls a complete build step makes: none for no container
    to build; otherwise the login when a password is given, then build and
    push per container, in the order of the list. *)
Definition build_plan (registry registryUsername registryPassword : string)
    (buildContainers : list ContainerDef) : list (string * list JsValue * option string) :=
  match buildContainers with
  | [] => []
  | _ :: _ =>
      ((if negb (registryPassword =? EmptyString)%string
        then [login_call registry registryUsername registryPassword] else [])
       ++ flat_map docker_calls buildContainers)%list
  end.

(** A computation ends, and its subprocess calls are the planned ones up to
    where it stopped: all of them when it ends without error. *)
Definition runs_prefix (plan : list (string * list JsValue * option string))
    (m : M unit) : Prop :=
  forall t : Trace,
    exists (evs : list Event) (rest : list (string * list JsValue * option string)),
      fst (m t) = (t ++ evs)%list
      /\ plan = (executions evs ++ rest)%list
      /\ (snd (m t) = Some (Ok tt) -> rest = [])
      /\ snd (m t) <> None
      /\ count is_fetch evs = 0%nat.

(** The path of a request: its URL without the base. *)
Definition path_of (url : string) : string :=
  substring (String.length API_BASE) (String.length url - String.length API_BASE) url.

(** The error with which a recorded request fails, if it does: what fetch
    threw, or the refusal made of a response that is not ok.  [before] is the
    trace up to the request. *)
Definition refusal (w : World) (before : Trace) (e : Event) : option JsError :=
  match e with
  | EvFetch method url apiKey sent =>
      match fetch w before method url apiKey sent with
      | Ok res =>
          if res_ok res then None
          else Some (Error ("API " ++ method ++ " " ++ path_of url ++ " failed ("
                            ++ string_of_Z (res_status res) ++ "): " ++ res_text res))
      | Throw err => Some err
      end
  | _ => None
  end.

(** What the catch block hands to setFailed for a caught error. *)
Definition shown (e : JsError) : JsError :=
  match e with
  | Thrown (JString s) => e
  | Thrown _ => Thrown (JString "Unexpected error")
  | _ => e
  end.

(** A computation only adds to the trace, and a failed request is the last
    thing it does: it ends at once, throwing the error of that request. *)
Definition stops_at_refusal {A : Type} (w : World) (m : M A) : Prop :=
  forall t : Trace,
    exists evs : list Event,
      fst (m t) = (t ++ evs)%list
      /\ forall (pre : list Event) (e : Event) (post : list Event) (err : JsError),
           evs = (pre ++ e :: post)%list ->
           refusal w (t ++ pre)%list e = Some err ->
           post = [] /\ snd (m t) = Some (Throw err).

(** The platform of [build_world], except that it answers every call with
    status 401. *)
Definition denied_world : World :=
  {| getInput := getInput build_world;
     GITHUB_SHA := GITHUB_SHA build_world;
     yaml_load := yaml_load build_world;
     existsSync := existsSync build_world;
     readFileSync := readFileSync build_world;
     TOML_parse := TOML_parse build_world;
     JSON_parse := JSON_parse build_world;
     JSON_stringify := JSON_stringify build_world;
     StringToNumber := StringToNumber build_world;
     fetch := fun _ _ _ _ _ => Ok (mkResponse false 401 "denied");
     exec_exec := exec_exec build_world;
     Date_now := Date_now build_world;
     String_toLowerCase := String_toLowerCase build_world;
     Object_prototype := Object_prototype build_world;
     Array_prototype := Array_prototype build_world |}.

(** What the template of a container can be relied on to say: the
    container's name, its full reference and tag, a namespace that is never
    empty, and the registry to pull from, which is the private one for a
    built container when there is one, and the Docker Hub one, or the empty
    string, otherwise. *)
Definition template_fits (dockerHubRegistryId privateRegistryId : JsValue)
    (c : ContainerDef) (t : JsValue) : Prop :=
  get t "name" = Ok (name c)
  /\ get t "image" = Ok (JString (Action.fullRef c))
  /\ get t "imageTag" = Ok (tag c)
  /\ get t "imagePullPolicy" = Ok (JString "Always")
  /\ get t "imageRegistryId"
     = Ok (if build c && truthy privateRegistryId then privateRegistryId
           else if truthy dockerHubRegistryId then dockerHubRegistryId
                else JString EmptyString)
  /\ exists namespace image_name,
       get t "imageNamespace" = Ok (JString namespace)
       /\ namespace <> EmptyString
       /\ get t "imageName" = Ok (JString image_name)
       /\ (forall s, image c = JString s -> slash_free s ->
           namespace = "library" /\ image_name = s).

(** The name of a registry entry, as the older variant reads it, can be read
    and is a string, null or absent. *)
Definition name_readable (r : JsValue) : Prop :=
  exists v, get r "name" = Ok v /\ (v = JUndefined \/ v = JNull \/ exists s, v = JString s).

(** The search test of the older variant as a plain predicate: the name, in
    lower case, is the name searched for. *)
Definition name_is (w : World) (searchName : string) (r : JsValue) : bool :=
  match get r "name" with
  | Ok (JString s) => (toLowerCase w s =? searchName)%string
  | _ => false
  end.

(** The request that creates the application. *)
Definition is_create_app (e : Event) : bool :=
  match e with
  | EvFetch method url _ _ =>
      (method =? "POST")%string && (url =? API_BASE ++ "/apps")%string
  | _ => false
  end.

(** The output of the application id. *)
Definition is_app_id_output (e : Event) : bool :=
  match e with
  | EvSetOutput key _ => (key =? "app_id")%string
  | _ => false
  end.

(** A computation adds at most [n] events of class [p], and exactly [n] when
    it ends without error. *)
Definition exactly {A : Type} (p : Event -> bool) (n : nat) (m : M A) : Prop :=
  forall t : Trace,
    exists evs : list Event,
      fst (m t) = (t ++ evs)%list
      /\ (count p evs <= n)%nat
      /\ (forall a, snd (m t) = Some (Ok a) -> count p evs = n).

(** A request with the given method to the given URL. *)
Definition is_request (method url : string) (e : Event) : bool :=
  match e with
  | EvFetch m u _ _ => (m =? method)%string && (u =? url)%string
  | _ => false
  end.

(** A request that is not the one with the given method and URL. *)
Definition other_request (method url : string) (e : Event) : bool :=
  is_fetch e && negb (is_request method url e).

(* ===================================================================== *)
(** ** General facts about the value layer *)
(* ===================================================================== *)

(** A property read that succeeded once succeeds for every property name:
    only null and undefined refuse a read. *)
Lemma get_total_after (c : JsValue) (k : string) (x : JsValue) :
  get c k = Ok x -> forall k', exists y, get c k' = Ok y.
Proof.
  intros H k'. destruct c; simpl in *; try discriminate.
  - eauto.
  - eauto.
  - destruct (k' =? "length")%string; eauto.
  - destruct (k' =? "length")%string; eauto.
  - destruct (lookup k' fields); eauto.
Qed.

Lemma prefix_empty (s : string) : String.prefix EmptyString s = true.
Proof. destruct s; reflexivity. Qed.

(** Searching for a one-character string is asking whether the character
    occurs. *)
Lemma includes_char (c : ascii) (s : string) :
  includes s (String c EmptyString) = true <-> In c (list_ascii_of_string s).
Proof.
  induction s as [|d s IH]; simpl.
  - split; [discriminate | tauto].
  - destruct (Ascii.ascii_dec c d) as [->|Hne].
    + rewrite prefix_empty. tauto.
    + rewrite IH. split; [tauto|]. intros [E|E]; [congruence | exact E].
Qed.

Lemma list_ascii_of_string_app (a b : string) :
  list_ascii_of_string (a ++ b) = (list_ascii_of_string a ++ list_ascii_of_string b)%list.
Proof. induction a as [|c a IH]; simpl; [reflexivity | now rewrite IH]. Qed.

Lemma includes_slash (a b : string) : includes (a ++ "/" ++ b) "/" = true.
Proof.
  apply includes_char. rewrite list_ascii_of_string_app. apply in_or_app. right.
  simpl. auto.
Qed.

Lemma append_not_empty (a b : string) : b <> EmptyString -> (a ++ b)%string <> EmptyString.
Proof.
  intros Hb. destruct a; simpl; [exact Hb | discriminate].
Qed.

Lemma truthy_string (s : string) : truthy (JString s) = true <-> s <> EmptyString.
Proof.
  simpl. destruct (String.eqb_spec s EmptyString); simpl; split; congruence.
Qed.

(** [map_result], entry by entry. *)
Lemma map_result_nth {A B : Type} (f : nat -> A -> Result B) :
  forall (xs : list A) (k : nat) (ys : list B),
    map_result f k xs = Ok ys ->
    List.length ys = List.length xs /\
    forall (i : nat) (x : A), nth_error xs i = Some x ->
      exists y, f (k + i)%nat x = Ok y /\ nth_error ys i = Some y.
Proof.
  induction xs as [|x xs IH]; intros k ys H; simpl in H.
  - inversion H; subst. split; [reflexivity|]. intros [|i] x'; discriminate.
  - destruct (f k x) as [y|e] eqn:Ef; simpl in H; [|discriminate].
    destruct (map_result f (S k) xs) as [ys'|e] eqn:Er; simpl in H; [|discriminate].
    inversion H; subst. destruct (IH _ _ Er) as [Hlen Hnth].
    split; [simpl; congruence|].
    intros [|i] x' Hx; simpl in *.
    + inversion Hx; subst. exists y. rewrite Nat.add_0_r. auto.
    + destruct (Hnth i x' Hx) as [y' [Hy Hn]]. exists y'.
      rewrite Nat.add_succ_r. auto.
Qed.

Lemma map_result_fails {A B : Type} (f : nat -> A -> Result B) :
  forall (xs : list A) (k i : nat) (x : A) (e : JsError),
    nth_error xs i = Some x -> f (k + i)%nat x = Throw e ->
    exists e', map_result f k xs = Throw e'.
Proof.
  induction xs as [|x xs IH]; intros k i x' e Hx Hf.
  - destruct i; discriminate.
  - simpl. destruct i as [|i]; simpl in Hx.
    + inversion Hx; subst. rewrite Nat.add_0_r in Hf. rewrite Hf. simpl. eauto.
    + destruct (f k x) as [y|e0]; simpl; [|eauto].
      rewrite Nat.add_succ_r in Hf.
      destruct (IH (S k) i x' e Hx Hf) as [e' He']. rewrite He'. simpl. eauto.
Qed.

(* ===================================================================== *)
(** ** Container parsing *)
(* ===================================================================== *)

Lemma or_else_truthy (a b : JsValue) : truthy a = true -> or_else a b = a.
Proof. intros H. unfold or_else. now rewrite H. Qed.

Lemma or_else_falsy (a b : JsValue) : truthy a = false -> or_else a b = b.
Proof. intros H. unfold or_else. now rewrite H. Qed.

Lemma strict_equal_true (b : JsValue) : strict_equal b (JBool true) = true <-> b = JBool true.
Proof.
  destruct b as [| |[|]| | | |]; simpl; split; intros H; try discriminate; reflexivity.
Qed.

(** What [parseContainers] makes of an entry that has a name and whose image
    is a non-empty string. *)
Lemma container_of_named_image (w : World) (d : Defaults) (i : nat) (c n : JsValue) (s : string) :
  get c "name" = Ok n -> truthy n = true ->
  get c "image" = Ok (JString s) -> s <> EmptyString ->
  exists b r,
    get c "build" = Ok b
    /\ Action.container_of w d i c = Ok r
    /\ name r = n
    /\ build r = strict_equal b (JBool true)
    /\ image r = (if strict_equal b (JBool true) && negb (includes s "/")
                  then JString (registry d ++ "/" ++ s) else JString s).
Proof.
  intros Hn Ht Hi Hs.
  destruct (get_total_after _ _ _ Hn "build") as [b Hb].
  destruct (get_total_after _ _ _ Hn "tag") as [tg Htg].
  destruct (get_total_after _ _ _ Hn "port") as [pt Hpt].
  destruct (get_total_after _ _ _ Hn "context") as [cx Hcx].
  destruct (get_total_after _ _ _ Hn "dockerfile") as [df Hdf].
  destruct (get_total_after _ _ _ Hn "env") as [ev Hev].
  exists b. unfold Action.container_of.
  assert (Hts : truthy (JString s) = true) by (apply truthy_string; exact Hs).
  rewrite Hn; cbn [rbind]. rewrite Ht; cbn [negb].
  rewrite Hi; cbn [rbind]. rewrite Hts; cbn [negb].
  rewrite Hb; cbn [rbind].
  destruct (strict_equal b (JBool true)) eqn:Eb.
  - cbn [value_includes rbind].
    destruct (includes s "/") eqn:Es; cbn [negb rbind andb];
      rewrite Htg, Hpt, Hcx, Hdf, Hev; cbn [rbind];
      eexists; repeat split; reflexivity.
  - cbn [rbind andb]. rewrite Htg, Hpt, Hcx, Hdf, Hev. cbn [rbind].
    eexists; repeat split; reflexivity.
Qed.

Lemma container_of_same (w : World) (d : Defaults) (i : nat) (c : JsValue) :
  Older.container_of w d i c = Action.container_of w d i c.
Proof. reflexivity. Qed.

(** C9.  The container-list parsers of the current action and of the older
    variant are the same function: on every raw input and every pair of
    defaults they return equal lists or throw the same error. *)
Theorem parseContainers_same_in_both_versions :
  forall (w : World) (raw : string) (defaults : Defaults),
    Action.parseContainers w raw defaults = Older.parseContainers w raw defaults.
Proof.
  intros w raw defaults. unfold Action.parseContainers, Older.parseContainers.
  destruct (yaml_load w raw) as [parsed|e]; cbn [rbind]; [|reflexivity].
  destruct parsed; reflexivity.
Qed.

(** C8.  An entry with a name and a declared (non-empty string) image
    resolves; when [build] is [true] and the image holds no slash the
    resolved image is the default registry, a slash and the image; an image
    holding a slash, and the image of an entry that is not built, stay as
    declared.  The resolved entry is the one [parseContainers] returns at
    that index. *)
Theorem build_image_without_slash_gets_registry_prefix :
  forall (w : World) (d : Defaults) (i : nat) (c n : JsValue) (s : string),
    get c "name" = Ok n -> truthy n = true ->
    get c "image" = Ok (JString s) -> s <> EmptyString ->
    exists r,
      Action.container_of w d i c = Ok r
      /\ Older.container_of w d i c = Ok r
      /\ (build r = true <-> get c "build" = Ok (JBool true))
      /\ (build r = true -> ~ In "/"%char (list_ascii_of_string s) ->
          image r = JString (registry d ++ "/" ++ s))
      /\ (In "/"%char (list_ascii_of_string s) -> image r = JString s)
      /\ (build r = false -> image r = JString s)
      /\ (forall (raw : string) (items : list JsValue) (cs : list ContainerDef),
             yaml_load w raw = Ok (JArray items) -> nth_error items i = Some c ->
             Action.parseContainers w raw d = Ok cs -> nth_error cs i = Some r).
Proof.
  intros w d i c n s Hn Ht Hi Hs.
  destruct (container_of_named_image w d i c n s Hn Ht Hi Hs)
    as [b [r [Hb [Hr [Hname [Hbuild Himage]]]]]].
  exists r. split; [exact Hr|]. split; [rewrite container_of_same; exact Hr|].
  split.
  { rewrite Hbuild, strict_equal_true. split; intros H; [congruence|].
    rewrite Hb in H. congruence. }
  split.
  { intros Hbt Hno. rewrite Himage. rewrite Hbuild in Hbt. rewrite Hbt.
    destruct (includes s "/") eqn:Es; [|reflexivity].
    apply includes_char in Es. contradiction. }
  split.
  { intros Hin. rewrite Himage. apply includes_char in Hin. rewrite Hin.
    rewrite andb_false_r. reflexivity. }
  split.
  { intros Hbf. rewrite Himage. rewrite Hbuild in Hbf. rewrite Hbf. reflexivity. }
  intros raw items cs Hy Hnth Hp. unfold Action.parseContainers in Hp.
  rewrite Hy in Hp. simpl in Hp.
  destruct (map_result_nth _ _ _ _ Hp) as [_ Hall].
  destruct (Hall i c Hnth) as [y [Hy1 Hy2]]. simpl in Hy1. congruence.
Qed.

Lemma build_image_without_slash_gets_registry_prefix_witness :
  exists r,
    Action.container_of quiet_world (mkDefaults "ghcr.io/org" "abc123") 0
      (JObject [("name", JString "api"); ("image", JString "shop"); ("build", JBool true)])
    = Ok r
    /\ image r = JString "ghcr.io/org/shop".
Proof.
  destruct (build_image_without_slash_gets_registry_prefix
              quiet_world (mkDefaults "ghcr.io/org" "abc123") 0
              (JObject [("name", JString "api"); ("image", JString "shop");
                        ("build", JBool true)])
              (JString "api") "shop" eq_refl eq_refl eq_refl)
    as [r [Hr [_ [Hb [Himg _]]]]].
  - discriminate.
  - exists r. split; [exact Hr|]. apply Himg.
    + apply Hb. reflexivity.
    + simpl. intros [H|[H|[H|[H|H]]]]; try discriminate H. exact H.
Defined.

(** C2, as amended.  In the inline container list an entry that declares no
    image is rejected with the name-qualified error, whatever [build] says:
    nothing is inherited there.  Only the bunny.toml descriptor makes a built
    entry without image inherit the default registry, a slash and the
    descriptor's name. *)
Theorem undeclared_image_rejected_inline_inherited_in_descriptor :
  forall (w : World) (d : Defaults) (i : nat) (c n img : JsValue),
    get c "name" = Ok n -> truthy n = true ->
    get c "image" = Ok img -> truthy img = false ->
    Action.container_of w d i c
      = Throw (Error ("Container '" ++ ToString n ++ "' missing 'image'"))
    /\ Older.container_of w d i c
      = Throw (Error ("Container '" ++ ToString n ++ "' missing 'image'"))
    /\ Descriptor.container_of_yaml w d i c
      = Throw (Error ("Container '" ++ ToString n ++ "' missing 'image'"))
    /\ (forall (raw : string) (items : list JsValue),
           yaml_load w raw = Ok (JArray items) -> nth_error items i = Some c ->
           exists e, Action.parseContainers w raw d = Throw e)
    /\ (forall (app e : JsValue),
           get c "build" = Ok (JBool true) ->
           get c "endpoints" = Ok e -> truthy e = false ->
           exists r,
             Descriptor.container_of_toml w d app i c = Ok r
             /\ Descriptor.build r = true
             /\ Descriptor.image r = JString (registry d ++ "/" ++ ToString app)).
Proof.
  intros w d i c n img Hn Ht Hi Hf.
  assert (Hthrow : Action.container_of w d i c
                   = Throw (Error ("Container '" ++ ToString n ++ "' missing 'image'"))).
  { unfold Action.container_of. rewrite Hn; cbn [rbind]. rewrite Ht; cbn [negb].
    rewrite Hi; cbn [rbind]. rewrite Hf; cbn [negb]. reflexivity. }
  split; [exact Hthrow|]. split; [exact Hthrow|].
  split.
  { unfold Descriptor.container_of_yaml. rewrite Hn; cbn [rbind]. rewrite Ht; cbn [negb].
    rewrite Hi; cbn [rbind]. rewrite Hf; cbn [negb]. reflexivity. }
  split.
  { intros raw items Hy Hnth. unfold Action.parseContainers. rewrite Hy; cbn [rbind].
    eapply map_result_fails; [exact Hnth | exact Hthrow]. }
  intros app e Hb He Hef.
  destruct (get_total_after _ _ _ Hn "env") as [ev Hev].
  destruct (get_total_after _ _ _ Hn "port") as [pt Hpt].
  destruct (get_total_after _ _ _ Hn "tag") as [tg Htg].
  destruct (get_total_after _ _ _ Hn "context") as [cx Hcx].
  destruct (get_total_after _ _ _ Hn "dockerfile") as [df Hdf].
  unfold Descriptor.container_of_toml.
  assert (Hne : truthy (JString (registry d ++ "/" ++ ToString app)) = true).
  { apply truthy_string. apply append_not_empty. discriminate. }
  rewrite Hn; cbn [rbind]. rewrite (or_else_truthy n) by exact Ht.
  rewrite Ht; cbn [negb].
  rewrite Hb; cbn [rbind]. rewrite Hi; cbn [rbind].
  change (strict_equal (JBool true) (JBool true)) with true.
  rewrite (or_else_falsy img) by exact Hf.
  change (truthy (JString EmptyString)) with false. cbn [negb andb].
  rewrite Hne; cbn [negb value_includes rbind].
  rewrite includes_slash; cbn [negb rbind].
  rewrite Hev; cbn [rbind]. rewrite He; cbn [rbind].
  rewrite (or_else_falsy e) by exact Hef.
  cbn [Descriptor.array_map map_result rbind].
  rewrite Hpt, Htg, Hcx, Hdf; cbn [rbind].
  eexists. repeat split; reflexivity.
Qed.

Lemma undeclared_image_rejected_inline_inherited_in_descriptor_witness :
  Action.container_of no_image_world (mkDefaults "reg" "abc123") 0 no_image_entry
    = Throw (Error "Container 'web' missing 'image'")
  /\ exists r,
       Descriptor.container_of_toml no_image_world (mkDefaults "reg" "abc123")
         (JString "foo") 0 no_image_entry = Ok r
       /\ Descriptor.image r = JString "reg/foo".
Proof.
  destruct (undeclared_image_rejected_inline_inherited_in_descriptor
              no_image_world (mkDefaults "reg" "abc123") 0 no_image_entry
              (JString "web") JUndefined eq_refl eq_refl eq_refl eq_refl)
    as [Hinline [_ [_ [_ Htoml]]]].
  split; [exact Hinline|].
  destruct (Htoml (JString "foo") JUndefined eq_refl eq_refl eq_refl) as [r [Hr [_ Hi]]].
  exists r. split; [exact Hr | exact Hi].
Defined.

(** C2 as stated fails: with app name foo and default registry reg, the
    built entry without image does not resolve to reg/foo; parsing throws and
    the run ends with that failure. *)
Lemma undeclared_image_not_inherited_inline :
  getInput no_image_world "app_name" true = Ok "foo"
  /\ getInput no_image_world "registry" false = Ok "reg"
  /\ yaml_load no_image_world no_image_yaml = Ok (JArray [no_image_entry])
  /\ Action.parseContainers no_image_world no_image_yaml (mkDefaults "reg" "abc123")
     = Throw (Error "Container 'web' missing 'image'")
  /\ Older.parseContainers no_image_world no_image_yaml (mkDefaults "reg" "abc123")
     = Throw (Error "Container 'web' missing 'image'")
  /\ Action.run no_image_world 0 []
     = ([EvSetFailed (Error "Container 'web' missing 'image'")], Some (Ok tt))
  /\ ~ (exists cs, Action.parseContainers no_image_world no_image_yaml
                     (mkDefaults "reg" "abc123") = Ok cs).
Proof.
  repeat split; try reflexivity.
  intros [cs H]. vm_compute in H. discriminate H.
Qed.

Lemma bind_lift {A B : Type} (r : Result A) (k : A -> M B) (t : Trace) :
  bind (lift r) k t = match r with
                      | Ok a => k a t
                      | Throw e => (t, Some (Throw e))
                      end.
Proof. destruct r; reflexivity. Qed.

Lemma on_error_event (e : JsError) (t : Trace) :
  exists e', on_error e t = ((t ++ [EvSetFailed e'])%list, Some (Ok tt)).
Proof.
  destruct e as [m| |m|v]; try (eexists; reflexivity).
  destruct v; eexists; reflexivity.
Qed.

(** Whatever stops the action before or at container parsing leaves a single
    set-failed event behind: no subprocess, no HTTP call. *)
Lemma run_stops_at_parse_error (w : World) (fuel : nat) :
  (forall raw reg : string,
      getInput w "containers" true = Ok raw -> getInput w "registry" false = Ok reg ->
      exists e, Action.parseContainers w raw
                  (mkDefaults reg (ToString (or_else (GITHUB_SHA w) (JString "latest"))))
                = Throw e) ->
  exists e', Action.run w fuel [] = ([EvSetFailed e'], Some (Ok tt)).
Proof.
  intros Hparse. unfold Action.run, try_catch, Action.run_body, input.
  repeat match goal with
         | |- context [bind (lift (getInput w ?n ?r)) _ _] =>
             rewrite (bind_lift (getInput w n r));
             let E := fresh "E" in
             destruct (getInput w n r) eqn:E; [| apply (on_error_event _ [])]
         end.
  rewrite bind_lift.
  destruct (Hparse _ _ eq_refl eq_refl) as [e He]. rewrite He.
  apply (on_error_event _ []).
Qed.

Lemma parse_resolvable_entries (w : World) (d : Defaults) :
  forall (items : list JsValue) (k : nat),
    Forall entry_resolvable items ->
    exists cs,
      map_result (Action.container_of w d) k items = Ok cs
      /\ Forall2 (fun c r => get c "name" = Ok (name r)) items cs.
Proof.
  induction items as [|c items IH]; intros k Hall.
  - exists []. split; [reflexivity | constructor].
  - inversion Hall as [|c' items' Hc Hrest]; subst.
    destruct Hc as [n [s [Hn [Ht [Hi Hs]]]]].
    destruct (container_of_named_image w d k c n s Hn Ht Hi Hs)
      as [b [r [_ [Hr [Hname _]]]]].
    destruct (IH (S k) Hrest) as [cs [Hcs Hnames]].
    exists (r :: cs). split.
    + cbn [map_result]. rewrite Hr; cbn [rbind]. rewrite Hcs; cbn [rbind]. reflexivity.
    + constructor; [rewrite Hname; exact Hn | exact Hnames].
Qed.

(** C3, as amended.  Container names are not checked for uniqueness: a list
    whose entries each have a name and a non-empty string image resolves,
    entry for entry and name for name, whether or not names repeat.  The
    configuration errors that do exist (not a list, a missing name, a
    missing image) are fatal before any network call: a run stopped at or
    before parsing leaves nothing but the set-failed event. *)
Theorem duplicate_names_resolve_and_parse_errors_precede_network :
  forall (w : World) (d : Defaults) (raw : string) (items : list JsValue),
    yaml_load w raw = Ok (JArray items) ->
    Forall entry_resolvable items ->
    (exists cs,
        Action.parseContainers w raw d = Ok cs
        /\ Older.parseContainers w raw d = Ok cs
        /\ Forall2 (fun c r => get c "name" = Ok (name r)) items cs)
    /\ (forall (w' : World) (fuel : nat),
           (forall raw' reg : string,
               getInput w' "containers" true = Ok raw' ->
               getInput w' "registry" false = Ok reg ->
               exists e,
                 Action.parseContainers w' raw'
                   (mkDefaults reg (ToString (or_else (GITHUB_SHA w') (JString "latest"))))
                 = Throw e) ->
           exists e', Action.run w' fuel [] = ([EvSetFailed e'], Some (Ok tt))).
Proof.
  intros w d raw items Hy Hall. split.
  - destruct (parse_resolvable_entries w d items 0 Hall) as [cs [Hcs Hnames]].
    exists cs.
    change (Older.parseContainers w raw d) with (Action.parseContainers w raw d).
    unfold Action.parseContainers. rewrite Hy; cbn [rbind]. auto.
  - intros w' fuel. apply run_stops_at_parse_error.
Qed.

Lemma twin_entries_resolvable : Forall entry_resolvable twin_entries.
Proof.
  repeat constructor.
  - exists (JString "web"), "nginx". repeat split; try reflexivity. discriminate.
  - exists (JString "web"), "redis". repeat split; try reflexivity. discriminate.
Qed.

Lemma duplicate_names_resolve_and_parse_errors_precede_network_witness :
  (exists cs,
      Action.parseContainers twin_world twin_yaml (mkDefaults "reg" "abc123") = Ok cs
      /\ Forall2 (fun c r => get c "name" = Ok (name r)) twin_entries cs)
  /\ exists e', Action.run no_image_world 0 [] = ([EvSetFailed e'], Some (Ok tt)).
Proof.
  destruct (duplicate_names_resolve_and_parse_errors_precede_network
              twin_world (mkDefaults "reg" "abc123") twin_yaml twin_entries
              eq_refl twin_entries_resolvable) as [[cs [Hcs [_ Hn]]] Hrun].
  split.
  - exists cs. split; [exact Hcs | exact Hn].
  - apply (Hrun no_image_world 0%nat).
    intros raw' reg Hraw Hreg. vm_compute in Hraw. vm_compute in Hreg.
    injection Hraw as <-. injection Hreg as <-.
    eexists. vm_compute. reflexivity.
Defined.

(** C3 as stated fails: two containers named web are accepted, both are
    kept, and the run goes on to its network calls without any failure. *)
Lemma duplicate_names_accepted :
  yaml_load twin_world twin_yaml = Ok (JArray twin_entries)
  /\ (exists c1 c2,
         Action.parseContainers twin_world twin_yaml (mkDefaults "reg" "abc123")
           = Ok [c1; c2]
         /\ name c1 = JString "web" /\ name c2 = JString "web")
  /\ (exists t,
         Action.run twin_world 1 [] = (t, Some (Ok tt))
         /\ In (EvFetch "POST" "https://api.bunny.net/mc/apps" "key" (Some "{}")) t
         /\ forall e, ~ In (EvSetFailed e) t).
Proof.
  split; [reflexivity|]. split.
  - eexists. eexists. split; [vm_compute; reflexivity|]. split; reflexivity.
  - eexists. split; [vm_compute; reflexivity|]. split.
    + simpl. intuition.
    + intros e H. simpl in H.
      repeat (destruct H as [H|H]; [discriminate H|]). exact H.
Qed.

(* ===================================================================== *)
(** ** The application payload *)
(* ===================================================================== *)

(** C4, as amended.  The payload's runtime is Reserved exactly for the
    deployment type advanced; every other value, single and the empty one
    included, gives Shared. *)
Theorem runtime_reserved_only_for_advanced :
  forall (appName deploymentType region : string) (templates : list JsValue),
    get (Action.appPayload appName deploymentType region templates) "runtimeType"
      = Ok (JString (Action.runtimeType deploymentType))
    /\ (Action.runtimeType deploymentType = "Reserved" <-> deploymentType = "advanced")
    /\ (Action.runtimeType deploymentType = "Shared" <-> deploymentType <> "advanced").
Proof.
  intros appName deploymentType region templates. split; [reflexivity|].
  unfold Action.runtimeType.
  destruct (String.eqb_spec deploymentType "advanced") as [E|E].
  - split; split; intros H; try reflexivity; try exact E; try discriminate. contradiction.
  - split; split; intros H; try reflexivity; try exact E; try discriminate. contradiction.
Qed.

(** C4 as stated fails: the token multi is distinct from single, yet the
    runtime it gets is Shared, not Reserved. *)
Lemma runtime_shared_for_other_tokens :
  "multi" <> "single"
  /\ get (Action.appPayload "shop" "multi" EmptyString []) "runtimeType"
     = Ok (JString "Shared")
  /\ Action.runtimeType "multi" <> "Reserved".
Proof.
  repeat split; try reflexivity; discriminate.
Qed.

Lemma strict_equal_string (s : string) (v : JsValue) :
  strict_equal (JString s) v = true <-> v = JString s.
Proof.
  destruct v; simpl; split; intros H; try discriminate.
  - apply String.eqb_eq in H. now subst.
  - inversion H. apply String.eqb_refl.
Qed.

Lemma find_some_split {A : Type} (p : A -> bool) (l : list A) (x : A) :
  find p l = Some x ->
  exists pre post, l = (pre ++ x :: post)%list /\ Forall (fun y => p y = false) pre /\ p x = true.
Proof.
  induction l as [|y l IH]; simpl; intros H; [discriminate|].
  destruct (p y) eqn:Ey.
  - inversion H; subst. exists [], l. repeat split; auto.
  - destruct (IH H) as [pre [post [E [Hpre Hx]]]]. subst.
    exists (y :: pre), post. repeat split; auto.
Qed.

Lemma find_none_all {A : Type} (p : A -> bool) (l : list A) :
  find p l = None -> Forall (fun y => p y = false) l.
Proof.
  induction l as [|y l IH]; simpl; intros H; [constructor|].
  destruct (p y) eqn:Ey; [discriminate|]. constructor; auto.
Qed.

Lemma find_split_unique {A : Type} (p : A -> bool) (pre post : list A) (x : A) :
  Forall (fun y => p y = false) pre -> p x = true ->
  find p (pre ++ x :: post)%list = Some x.
Proof.
  induction pre as [|y pre IH]; simpl; intros Hpre Hx.
  - now rewrite Hx.
  - inversion Hpre; subst. rewrite H1. auto.
Qed.

Lemma find_all_none {A : Type} (p : A -> bool) (l : list A) :
  Forall (fun y => p y = false) l -> find p l = None.
Proof.
  induction 1 as [|y l Hy _ IH]; simpl; [reflexivity|]. now rewrite Hy.
Qed.

Lemma resolved_name_truthy (c : ContainerDef) : resolved c -> truthy (name c) = true.
Proof.
  intros [[s [E Hs]] _]. rewrite E. apply truthy_string. exact Hs.
Qed.

(** What the parser makes of an entry whose name and image are non-empty
    strings is a resolved container. *)
Lemma container_of_resolved (w : World) (d : Defaults) (i : nat) (c : JsValue)
    (n s : string) (r : ContainerDef) :
  get c "name" = Ok (JString n) -> n <> EmptyString ->
  get c "image" = Ok (JString s) -> s <> EmptyString ->
  Action.container_of w d i c = Ok r ->
  resolved r.
Proof.
  intros Hn Hne Hi Hs Hr.
  destruct (container_of_named_image w d i c (JString n) s Hn
              (proj2 (truthy_string n) Hne) Hi Hs)
    as [b [r' [_ [Hr' [Hname [_ Himage]]]]]].
  rewrite Hr in Hr'. inversion Hr'; subst r'. split.
  - exists n. split; assumption.
  - rewrite Himage.
    destruct (strict_equal b (JBool true) && negb (includes s "/")); eauto.
Qed.

(** The name the action picks, and which containers bear it. *)
Lemma exposeContainerName_spec (ec : string) (containers : list ContainerDef)
    (c : ContainerDef) :
  Forall resolved containers -> In c containers ->
  exists chosen,
    Action.exposeContainerName ec containers = Ok chosen
    /\ (name c = chosen <-> is_exposed ec containers c).
Proof.
  intros Hres Hin. unfold Action.exposeContainerName, is_exposed.
  destruct (String.eqb_spec ec EmptyString) as [E|E]; cbn [negb].
  - subst ec.
    change (fun ct : ContainerDef => truthy (port ct)) with declares_port.
    destruct (find declares_port containers) as [ct|] eqn:Ef.
    + destruct (find_some_split _ _ _ Ef) as [pre [post [El [Hpre Hct]]]].
      assert (Hct_in : In ct containers).
      { rewrite El. apply in_or_app. right. left. reflexivity. }
      rewrite (resolved_name_truthy ct)
        by (rewrite Forall_forall in Hres; apply Hres; exact Hct_in).
      exists (name ct). split; [reflexivity|]. split.
      * intros Hn. right. left. split; [reflexivity|].
        exists pre, ct, post. auto.
      * intros [[Hne _]|[[_ [pre' [ct' [post' [El' [Hpre' [Hct' Hn]]]]]]]|[_ [Hnone _]]]].
        -- contradiction.
        -- rewrite El' in Ef. rewrite (find_split_unique _ _ _ _ Hpre' Hct') in Ef.
           inversion Ef; subst. exact Hn.
        -- rewrite (find_all_none _ _ Hnone) in Ef. discriminate.
    + cbn [truthy]. destruct containers as [|c0 rest]; [contradiction|].
      exists (name c0). split; [reflexivity|]. split.
      * intros Hn. right. right. split; [reflexivity|].
        split; [apply find_none_all; exact Ef|]. exists c0, rest. auto.
      * intros [[Hne _]|[[_ [pre' [ct' [post' [El' [Hpre' [Hct' Hn]]]]]]]|[_ [_ [c0' [rest' [El' Hn]]]]]]].
        -- contradiction.
        -- rewrite El' in Ef. rewrite (find_split_unique _ _ _ _ Hpre' Hct') in Ef.
           discriminate.
        -- inversion El'; subst. exact Hn.
  - exists (JString ec). split; [reflexivity|]. split.
    + intros Hn. left. auto.
    + intros [[_ Hn]|[[Hec _]|[Hec _]]]; [exact Hn | contradiction | contradiction].
Qed.

(** The template of a resolved container, and whether it carries the
    synthesized endpoint. *)
Lemma template_of_spec (ec en et : string) (dh pr : JsValue)
    (containers : list ContainerDef) (c : ContainerDef) :
  Forall resolved containers -> In c containers ->
  exists t,
    Action.template_of true ec en et dh pr containers c = Ok t
    /\ (carries_endpoint t = true <->
        is_exposed ec containers c /\ declares_port c = true)
    /\ (carries_endpoint t = true ->
        get t "endpoints" = Ok (JArray [Action.endpointPayload en et c])).
Proof.
  intros Hres Hin.
  assert (Hc : resolved c) by (rewrite Forall_forall in Hres; auto).
  destruct Hc as [[sn [En Hsn]] [si Ei]].
  destruct (exposeContainerName_spec ec containers c Hres Hin) as [chosen [Hch Hiff]].
  unfold Action.template_of, Action.template_endpoints. rewrite Ei; cbn [rbind].
  rewrite Hch; cbn [rbind andb]. rewrite andb_true_r.
  unfold declares_port.
  destruct (truthy (port c)) eqn:Ep.
  - destruct (strict_equal (name c) chosen) eqn:Es; cbn [rbind].
    + eexists. split; [reflexivity|].
      assert (Hn : name c = chosen).
      { rewrite En in Es |- *. apply strict_equal_string in Es. now subst. }
      destruct (truthy (env c) && (0 <? List.length (Object_keys (env c)))%nat);
        cbn; (split; [split; [intros _; split; [apply Hiff; exact Hn | reflexivity]
                             | reflexivity] | reflexivity]).
    + eexists. split; [reflexivity|].
      assert (Hn : name c <> chosen).
      { intros Hn. rewrite En in Es. rewrite <- Hn, En in Es.
        assert (strict_equal (JString sn) (JString sn) = true)
          by (apply strict_equal_string; reflexivity).
        congruence. }
      destruct (truthy (env c) && (0 <? List.length (Object_keys (env c)))%nat);
        cbn; (split; [split; [discriminate | intros [Hx _]; apply Hiff in Hx; contradiction]
                     | discriminate]).
  - cbn [rbind]. eexists. split; [reflexivity|].
    destruct (truthy (env c) && (0 <? List.length (Object_keys (env c)))%nat);
      cbn; (split; [split; [discriminate | intros [_ Hx]; discriminate] | discriminate]).
Qed.
Lemma map_result_pointwise {A B : Type} (g : A -> Result B) :
  forall (xs : list A) (k : nat),
    (forall x, In x xs -> exists y, g x = Ok y) ->
    exists ys, map_result (fun _ x => g x) k xs = Ok ys
               /\ Forall2 (fun x y => g x = Ok y) xs ys.
Proof.
  induction xs as [|x xs IH]; intros k H.
  - exists []. split; [reflexivity | constructor].
  - destruct (H x (or_introl eq_refl)) as [y Hy].
    destruct (IH (S k)) as [ys [Hys Hall]].
    { intros x' Hx'. apply H. right. exact Hx'. }
    exists (y :: ys). split.
    + cbn [map_result]. rewrite Hy; cbn [rbind]. rewrite Hys; cbn [rbind]. reflexivity.
    + constructor; assumption.
Qed.

Lemma Forall2_nth_error {A B : Type} (R : A -> B -> Prop) (xs : list A) (ys : list B) :
  Forall2 R xs ys ->
  forall i x y, nth_error xs i = Some x -> nth_error ys i = Some y -> R x y.
Proof.
  induction 1 as [|x0 y0 xs ys Hxy _ IH]; intros [|i] x y Hx Hy; simpl in *;
    try discriminate.
  - inversion Hx; inversion Hy; subst. exact Hxy.
  - eapply IH; eassumption.
Qed.

Lemma Forall2_impl_in {A B : Type} (R P : A -> B -> Prop) (xs : list A) (ys : list B) :
  Forall2 R xs ys ->
  (forall x y, In x xs -> R x y -> P x y) ->
  Forall2 P xs ys.
Proof.
  induction 1 as [|x y xs ys Hxy _ IH]; intros H; constructor.
  - apply H; [left; reflexivity | exact Hxy].
  - apply IH. intros x' y' Hin. apply H. right. exact Hin.
Qed.

Lemma no_bearer_without_name (chosen : JsValue) (cs : list ContainerDef) (ts : list JsValue) :
  Forall2 (fun c t => carries_endpoint t = true -> name c = chosen) cs ts ->
  ~ In chosen (map name cs) ->
  filter carries_endpoint ts = [].
Proof.
  induction 1 as [|c t cs ts Hct _ IH]; intros Hnotin; [reflexivity|].
  cbn [filter]. destruct (carries_endpoint t) eqn:Et.
  - exfalso. apply Hnotin. left. apply Hct. reflexivity.
  - apply IH. intros Hx. apply Hnotin. right. exact Hx.
Qed.

(** Among containers with pairwise distinct names, at most one template can
    belong to a container of a given name. *)
Lemma one_bearer_at_most (chosen : JsValue) (cs : list ContainerDef) (ts : list JsValue) :
  Forall2 (fun c t => carries_endpoint t = true -> name c = chosen) cs ts ->
  NoDup (map name cs) ->
  (List.length (filter carries_endpoint ts) <= 1)%nat.
Proof.
  induction 1 as [|c t cs ts Hct Hrest IH]; intros Hnd; [simpl; lia|].
  simpl in Hnd. inversion Hnd as [|n ns Hnotin Hnd']; subst.
  cbn [filter]. destruct (carries_endpoint t) eqn:Et.
  - rewrite (no_bearer_without_name chosen cs ts Hrest); [simpl; lia|].
    rewrite <- (Hct eq_refl). exact Hnotin.
  - apply IH. exact Hnd'.
Qed.

(** C7.  With endpoint creation enabled and containers of pairwise distinct
    names, the templates of the app-creation payload exist, one per
    container; at most one of them carries a synthesized endpoint; the
    template of a container carries it exactly when that container bears
    the exposed name (the explicitly named one, or else the first container
    declaring a port, or else the first container) and itself declares a
    port; the endpoint carried is the one synthesized for that container. *)
Theorem at_most_one_template_carries_the_synthesized_endpoint :
  forall (endpointContainer endpointName endpointType : string)
         (dockerHubRegistryId privateRegistryId : JsValue)
         (containers : list ContainerDef),
    Forall resolved containers ->
    NoDup (map name containers) ->
    exists templates,
      Action.containerTemplates true endpointContainer endpointName endpointType
        dockerHubRegistryId privateRegistryId containers = Ok templates
      /\ List.length templates = List.length containers
      /\ (List.length (filter carries_endpoint templates) <= 1)%nat
      /\ forall (i : nat) (c : ContainerDef) (t : JsValue),
           nth_error containers i = Some c -> nth_error templates i = Some t ->
           (carries_endpoint t = true <->
            is_exposed endpointContainer containers c /\ declares_port c = true)
           /\ (carries_endpoint t = true ->
               get t "endpoints"
               = Ok (JArray [Action.endpointPayload endpointName endpointType c])).
Proof.
  intros ec en et dh pr containers Hres Hnd.
  unfold Action.containerTemplates.
  destruct (map_result_pointwise
              (Action.template_of true ec en et dh pr containers) containers 0)
    as [ts [Hts Hall]].
  { intros c Hin. destruct (template_of_spec ec en et dh pr containers c Hres Hin)
      as [t [Ht _]]. eauto. }
  exists ts. split; [exact Hts|].
  split; [symmetry; eapply Forall2_length; exact Hall|].
  assert (Hpoint : forall i c t,
             nth_error containers i = Some c -> nth_error ts i = Some t ->
             (carries_endpoint t = true <->
              is_exposed ec containers c /\ declares_port c = true)
             /\ (carries_endpoint t = true ->
                 get t "endpoints" = Ok (JArray [Action.endpointPayload en et c]))).
  { intros i c t Hc Ht.
    pose proof (Forall2_nth_error _ _ _ Hall i c t Hc Ht) as Hct. cbv beta in Hct.
    destruct (template_of_spec ec en et dh pr containers c Hres (nth_error_In _ _ Hc))
      as [t' [Ht' Hspec]].
    rewrite Hct in Ht'. inversion Ht'; subst. exact Hspec. }
  split; [|exact Hpoint].
  destruct containers as [|c0 rest] eqn:Ec.
  { inversion Hall; subst. simpl. lia. }
  rewrite <- Ec in *.
  assert (Hin0 : In c0 containers) by (rewrite Ec; left; reflexivity).
  destruct (exposeContainerName_spec ec containers c0 Hres Hin0) as [chosen [Hch _]].
  apply (one_bearer_at_most chosen containers ts); [|exact Hnd].
  eapply Forall2_impl_in; [exact Hall|].
  intros c t Hin Hct Hcarries. cbv beta in Hct.
  destruct (template_of_spec ec en et dh pr containers c Hres Hin) as [t' [Ht' [Hiff _]]].
  rewrite Hct in Ht'. inversion Ht'; subst t'.
  destruct (exposeContainerName_spec ec containers c Hres Hin) as [chosen' [Hch' Hname]].
  rewrite Hch in Hch'. inversion Hch'; subst chosen'.
  apply Hname. apply Hiff. exact Hcarries.
Qed.

Lemma example_containers_resolved : Forall resolved [api_container; redis_container].
Proof.
  repeat constructor.
  - exists "api". split; [reflexivity | discriminate].
  - exists "ghcr.io/org/shop". reflexivity.
  - exists "redis". split; [reflexivity | discriminate].
  - exists "redis". reflexivity.
Qed.

Lemma example_containers_distinct : NoDup (map name [api_container; redis_container]).
Proof.
  repeat constructor; simpl.
  - intros [H|H]; [discriminate H | exact H].
  - intros H; exact H.
Qed.

Lemma at_most_one_template_carries_the_synthesized_endpoint_witness :
  exists templates,
    Action.containerTemplates true EmptyString "shop-endpoint" "CDN"
      (JString "99") (JString "12") [api_container; redis_container] = Ok templates
    /\ (List.length (filter carries_endpoint templates) <= 1)%nat.
Proof.
  destruct (at_most_one_template_carries_the_synthesized_endpoint
              EmptyString "shop-endpoint" "CDN" (JString "99") (JString "12")
              [api_container; redis_container]
              example_containers_resolved example_containers_distinct)
    as [templates [Ht [_ [Hone _]]]].
  exists templates. split; [exact Ht | exact Hone].
Defined.

(** The older variant creates its endpoint in a call of its own and does so
    even when the exposed container declares no port: port 80 is assumed. *)
Remark older_endpoint_port_defaults_to_80 :
  Older.exposeContainerName EmptyString [redis_container] = Ok (JString "redis")
  /\ Older.exposePort (JString "redis") [redis_container] = JNumber (Num 80).
Proof. split; reflexivity. Qed.

(* ===================================================================== *)
(** ** Registry provisioning *)
(* ===================================================================== *)

Lemma has_display_name_readable (w : World) (searchName : string) (r : JsValue) :
  display_name_readable r ->
  Action.has_display_name w searchName r = Ok (display_name_is w searchName r).
Proof.
  intros [v [Hv Hcase]]. unfold Action.has_display_name, display_name_is.
  rewrite Hv; cbn [rbind]. destruct Hcase as [->|[->|[s ->]]]; reflexivity.
Qed.

Lemma find_result_pure {A : Type} (p : A -> Result bool) (q : A -> bool) (xs : list A) :
  Forall (fun x => p x = Ok (q x)) xs -> find_result p xs = Ok (find q xs).
Proof.
  induction 1 as [|x xs Hx _ IH]; [reflexivity|].
  cbn [find_result find]. rewrite Hx; cbn [rbind]. destruct (q x); [reflexivity | exact IH].
Qed.

Lemma find_exists {A : Type} (q : A -> bool) (xs : list A) (x : A) :
  In x xs -> q x = true -> exists y, find q xs = Some y.
Proof.
  induction xs as [|z xs IH]; intros Hin Hq; [contradiction|].
  simpl. destruct (q z) eqn:Ez; [eauto|].
  destruct Hin as [->|Hin]; [congruence | auto].
Qed.

Lemma display_name_is_named_like (w : World) (requested : string) (r : JsValue) :
  display_name_is w (toLowerCase w requested) r = true <-> named_like w requested r.
Proof.
  unfold display_name_is, named_like. split.
  - destruct (get r "displayName") as [v|e]; [|discriminate].
    destruct v; try discriminate. intros H. apply String.eqb_eq in H. eauto.
  - intros [d [Hd Hl]]. rewrite Hd. apply String.eqb_eq. exact Hl.
Qed.

(** C5, as amended.  With a built container present and a private registry
    name or provisioning requested, a list of readable registry entries that
    holds one whose display name equals the requested name up to letter case
    (the two are the same once lower-cased by the built-in, whatever the
    alphabet) makes the private-registry block issue no call at all: it logs
    the find and yields the id of the first such entry, as a string.  (The
    Docker Hub block of the same step is a block of its own.) *)
Theorem listed_private_registry_is_reused_without_any_call :
  forall (w : World) (apiKey : string) (buildContainers : list ContainerDef)
         (bunnyRegistryName registryUsername registryPassword : string)
         (bunnyRegistryPat bunnyRegistryType : string) (ensureBunnyRegistry : bool)
         (items : list JsValue) (t : Trace),
    buildContainers <> [] ->
    bunnyRegistryName <> EmptyString \/ ensureBunnyRegistry = true ->
    Forall display_name_readable items ->
    (exists r, In r items
               /\ named_like w (str_or bunnyRegistryName registryUsername) r) ->
    exists (pre : list JsValue) (r : JsValue) (post : list JsValue) (d : string)
           (id : JsValue),
      items = (pre ++ r :: post)%list
      /\ Forall (fun x => ~ named_like w (str_or bunnyRegistryName registryUsername) x)
           pre
      /\ get r "displayName" = Ok (JString d)
      /\ toLowerCase w d = toLowerCase w (str_or bunnyRegistryName registryUsername)
      /\ get r "id" = Ok id
      /\ Action.private_registry w apiKey buildContainers bunnyRegistryName
           registryUsername registryPassword bunnyRegistryPat bunnyRegistryType
           ensureBunnyRegistry (JArray items) t
         = ((t ++ [EvInfo ("Found private registry: " ++ d
                           ++ " (id: " ++ ToString id ++ ")")])%list,
            Some (Ok (JString (ToString id)))).
Proof.
  intros w apiKey bcs bname user pass pat type ensure items t Hb Hreq Hread [r0 [Hin0 Hlike0]].
  set (requested := str_or bname user) in *.
  destruct (find_exists (display_name_is w (toLowerCase w requested)) items r0 Hin0)
    as [r Hfind].
  { apply display_name_is_named_like. exact Hlike0. }
  destruct (find_some_split _ _ _ Hfind) as [pre [post [Hsplit [Hpre Hr]]]].
  apply display_name_is_named_like in Hr. destruct Hr as [d [Hd Hl]].
  destruct (get_total_after _ _ _ Hd "id") as [id Hid].
  exists pre, r, post, d, id.
  split; [exact Hsplit|]. split.
  { eapply Forall_impl; [|exact Hpre]. cbv beta. intros x Hx Hn.
    apply display_name_is_named_like in Hn. congruence. }
  split; [exact Hd|]. split; [exact Hl|]. split; [exact Hid|].
  unfold Action.private_registry. fold requested.
  assert (Hguard : ((0 <? List.length bcs)%nat
                    && (negb (bname =? EmptyString)%string || ensure)) = true).
  { apply andb_true_intro. split.
    - destruct bcs; [contradiction | reflexivity].
    - destruct Hreq as [Hn | ->]; [|apply orb_true_r].
      destruct (String.eqb_spec bname EmptyString); [contradiction | reflexivity]. }
  rewrite Hguard. unfold array_find.
  rewrite (find_result_pure _ (display_name_is w (toLowerCase w requested)))
    by (eapply Forall_impl; [|exact Hread]; intros x Hx;
        apply has_display_name_readable; exact Hx).
  rewrite Hfind. cbn [rbind]. rewrite bind_lift.
  assert (Htruthy : truthy r = true).
  { destruct r; simpl in Hd; try discriminate; reflexivity. }
  rewrite Htruthy. rewrite bind_lift, Hd. rewrite bind_lift, Hid.
  reflexivity.
Qed.

Lemma ghcr_listed_readable : Forall display_name_readable ghcr_listed.
Proof.
  repeat constructor. exists (JString "GHCR"). split; [reflexivity|].
  right. right. exists "GHCR". reflexivity.
Qed.

Lemma accent_listed_readable : Forall display_name_readable accent_listed.
Proof.
  repeat constructor.
  - exists (JString "ÉCOLE"). split; [reflexivity|]. right. right. eauto.
  - exists (JString "école"). split; [reflexivity|]. right. right. eauto.
Qed.

Lemma listed_private_registry_is_reused_without_any_call_witness :
  Action.private_registry ghcr_world "key" [api_container] "ghcr" "octocat" "pw" "pat"
    "GitHub" true (JArray ghcr_listed) []
  = ([EvInfo "Found private registry: GHCR (id: 12)"], Some (Ok (JString "12")))
  /\ Action.private_registry accent_world "key" [api_container] "école" "octocat" "pw"
       "pat" "GitHub" true (JArray accent_listed) []
     = ([EvInfo "Found private registry: ÉCOLE (id: 1)"], Some (Ok (JString "1"))).
Proof.
  split.
  - destruct (listed_private_registry_is_reused_without_any_call
                ghcr_world "key" [api_container] "ghcr" "octocat" "pw" "pat" "GitHub" true
                ghcr_listed [])
      as [pre [r [post [d [id [Hsplit [_ [Hd [_ [Hid Hrun]]]]]]]]]].
    + discriminate.
    + left. discriminate.
    + exact ghcr_listed_readable.
    + exists (JObject [("id", JNumber (Num 12)); ("displayName", JString "GHCR");
                       ("hostName", JString "ghcr.io")]).
      split; [left; reflexivity|]. exists "GHCR". split; reflexivity.
    + reflexivity.
  - destruct (listed_private_registry_is_reused_without_any_call
                accent_world "key" [api_container] "école" "octocat" "pw" "pat" "GitHub"
                true accent_listed [])
      as [pre [r [post [d [id [Hsplit [_ [Hd [_ [Hid Hrun]]]]]]]]]].
    + discriminate.
    + left. discriminate.
    + exact accent_listed_readable.
    + exists (JObject [("id", JNumber (Num 2)); ("displayName", JString "école")]).
      split; [right; left; reflexivity|]. exists "école". split; reflexivity.
    + reflexivity.
Defined.

(** C5 as stated fails: the listed registry GHCR matches the requested name
    ghcr and its id 12 is reused, yet a create call is issued, because a
    pulled container is present and no listed registry is a Docker Hub one.
    And a list in which an entry whose display name is not a string comes
    before GHCR yields no id: the search throws. *)
Lemma create_call_despite_listed_private_registry :
  (exists t,
      Action.ensure_registries ghcr_world "key" [api_container; redis_container]
        [api_container] "ghcr" "octocat" "pw" "pat" "GitHub" true []
      = (t, Some (Ok (JString "99", JString "12")))
      /\ In (EvFetch "POST" "https://api.bunny.net/mc/registries" "key" (Some "{}")) t)
  /\ Action.private_registry ghcr_world "key" [api_container] "ghcr" "octocat" "pw" "pat"
       "GitHub" true (JArray ghcr_after_unreadable) []
     = ([], Some (Throw TypeError)).
Proof.
  split; [|reflexivity].
  eexists. split; [vm_compute; reflexivity|]. simpl. intuition.
Qed.

(** The older variant has a single find-or-create block, searched by [name]:
    there a listed registry is reused and the step issues the list call
    only. *)
Remark older_listed_registry_is_reused :
  Older.ensure_registry older_ghcr_world "key" "ghcr" "octocat" "pw" "pat" "GitHub" true []
  = ([EvStartGroup "Ensure Bunny image registry";
      EvDebug "GET https://api.bunny.net/mc/registries";
      EvFetch "GET" "https://api.bunny.net/mc/registries" "key" None;
      EvInfo "Found existing registry: GHCR (id: 12)";
      EvEndGroup],
     Some (Ok (JNumber (Num 12)))).
Proof. vm_compute. reflexivity. Qed.

(* ===================================================================== *)
(** ** Endpoint resolution *)
(* ===================================================================== *)

Lemma startsWith_iff (s p : string) :
  startsWith s p = true <-> exists r, s = (p ++ r)%string.
Proof.
  unfold startsWith. revert s. induction p as [|c p IH]; intros s.
  - rewrite prefix_empty. split; [intros _; exists s; reflexivity | reflexivity].
  - destruct s as [|d s]; simpl.
    + split; [discriminate | intros [r Hr]; discriminate].
    + destruct (Ascii.ascii_dec c d) as [->|Hne].
      * rewrite IH. split; intros [r Hr]; exists r; [now rewrite Hr | now inversion Hr].
      * split; [discriminate | intros [r Hr]; inversion Hr; congruence].
Qed.

Lemma scan_skips_templates_without_endpoints (w : World) (pre rest : list JsValue)
    (hostname : JsValue) :
  Forall without_endpoints pre ->
  Action.scan_templates w (pre ++ rest)%list hostname
  = Action.scan_templates w rest hostname.
Proof.
  induction 1 as [|ct pre [e [He Hcase]] _ IH]; [reflexivity|].
  cbn [app Action.scan_templates]. rewrite He; cbn [rbind].
  assert (Hempty : or_else e (JArray []) = JArray []).
  { destruct Hcase as [Hf | ->]; [apply or_else_falsy; exact Hf | reflexivity]. }
  rewrite Hempty. cbn. exact IH.
Qed.

(** C6, as amended.  When the details carry no top-level address, the scan
    passes the templates without endpoints and stops at the first template
    whose endpoint list is not empty: the hostname is the host of that
    list's first endpoint, empty or not, and no later endpoint or template
    is consulted.  A hostname that begins with http:// or https:// is the
    URL as it stands; a non-empty hostname that does not begin with http
    gets https:// in front; an empty hostname gives an empty URL. *)
Theorem first_template_with_endpoints_decides_the_hostname :
  forall (w : World) (appDetails displayEndpoint address : JsValue)
         (pre : list JsValue) (ct : JsValue) (post : list JsValue)
         (endpoint0 : JsValue) (more : list JsValue) (h : string),
    get_opt appDetails "displayEndpoint" = Ok displayEndpoint ->
    get_opt displayEndpoint "address" = Ok address ->
    truthy address = false ->
    get_opt appDetails "containerTemplates" = Ok (JArray (pre ++ ct :: post)) ->
    Forall without_endpoints pre ->
    get ct "endpoints" = Ok (JArray (endpoint0 :: more)) ->
    get endpoint0 "publicHost" = Ok (JString h) ->
    Action.hostname_of w appDetails = Ok (JString h)
    /\ (h = EmptyString -> Action.appUrl_of (JString h) = Ok (JString EmptyString))
    /\ (h <> EmptyString -> (forall r, h <> ("http" ++ r)%string) ->
        Action.appUrl_of (JString h) = Ok (JString ("https://" ++ h)))
    /\ ((exists r, h = ("http://" ++ r)%string \/ h = ("https://" ++ r)%string) ->
        Action.appUrl_of (JString h) = Ok (JString h)).
Proof.
  intros w appDetails de address pre ct post ep0 more h Hde Haddr Hfalsy Hcts Hpre Heps Hhost.
  split.
  { unfold Action.hostname_of. rewrite Hde; cbn [rbind]. rewrite Haddr; cbn [rbind].
    rewrite (or_else_falsy address) by exact Hfalsy.
    change (truthy (JString EmptyString)) with false. cbn [negb].
    rewrite Hcts; cbn [rbind].
    change (or_else (JArray (pre ++ ct :: post)) (JArray []))
      with (JArray (pre ++ ct :: post)).
    cbn [iterate rbind].
    rewrite scan_skips_templates_without_endpoints by exact Hpre.
    cbn [Action.scan_templates]. rewrite Heps; cbn [rbind].
    change (or_else (JArray (ep0 :: more)) (JArray []))
      with (JArray (ep0 :: more)).
    cbn [get String.eqb Ascii.eqb Bool.eqb rbind].
    assert (Hpos : gt_zero w (JNumber (Num (Z.of_nat (List.length (ep0 :: more)))))
                   = true).
    { unfold gt_zero. cbn [ToNumber num_lt]. apply Z.ltb_lt. simpl List.length. lia. }
    rewrite Hpos. cbn [first_item rbind]. rewrite Hhost; cbn [rbind].
    unfold or_else. destruct (truthy (JString h)) eqn:Eh; [reflexivity|].
    f_equal. f_equal. simpl in Eh. destruct (String.eqb_spec h EmptyString); [|discriminate].
    congruence. }
  unfold Action.appUrl_of. split; [|split].
  - intros ->. reflexivity.
  - intros Hne Hnot. rewrite (proj2 (truthy_string h) Hne).
    destruct (startsWith h "http") eqn:Es; [|reflexivity].
    apply startsWith_iff in Es. destruct Es as [r Hr]. exfalso. exact (Hnot r Hr).
  - intros [r [Hr|Hr]]; subst h; reflexivity.
Qed.

Lemma first_template_with_endpoints_decides_the_hostname_witness :
  Action.hostname_of quiet_world details_with_plain_host = Ok (JString "shop.example.net")
  /\ Action.appUrl_of (JString "shop.example.net")
     = Ok (JString "https://shop.example.net").
Proof.
  destruct (first_template_with_endpoints_decides_the_hostname
              quiet_world details_with_plain_host JUndefined JUndefined
              []
              (JObject [("endpoints",
                         JArray [JObject [("publicHost", JString "shop.example.net")]])])
              []
              (JObject [("publicHost", JString "shop.example.net")]) []
              "shop.example.net"
              eq_refl eq_refl eq_refl eq_refl (Forall_nil _) eq_refl eq_refl)
    as [Hhost [_ [Hurl _]]].
  split; [exact Hhost|]. apply Hurl.
  - discriminate.
  - intros r Hr. discriminate Hr.
Defined.

(** C6 as stated fails twice.  The scan does not return the first non-empty
    endpoint hostname: the first template with endpoints has an empty host,
    the second has web.example.net, and the answer is the empty one.  And a
    scheme-less hostname that begins with the letters http is not given the
    secure scheme. *)
Lemma scan_stops_at_first_endpoint_list_and_http_hosts_stay_bare :
  Action.hostname_of quiet_world details_with_late_host = Ok (JString EmptyString)
  /\ Older.hostname_of quiet_world
       (JObject [("containers",
                  JArray [JObject [("endpoints", JArray [JObject [("url", JNull)]])];
                          JObject [("endpoints",
                                    JArray [JObject [("hostname",
                                                      JString "web.example.net")]])]])])
     = Ok (JString EmptyString)
  /\ Action.hostname_of quiet_world details_with_httpbin_host
     = Ok (JString "httpbin.example.net")
  /\ Action.appUrl_of (JString "httpbin.example.net") = Ok (JString "httpbin.example.net").
Proof.
  repeat split; reflexivity.
Qed.

(* ===================================================================== *)
(** ** Deploy and wait *)
(* ===================================================================== *)

(** A call without body leaves two events: the debug line and the fetch. *)
Lemma api_get_events (w : World) (method path apiKey : string) (t : Trace) :
  exists r,
    api w method path apiKey None t
    = ((t ++ [EvDebug (method ++ " " ++ API_BASE ++ path);
              EvFetch method (API_BASE ++ path) apiKey None])%list, Some r).
Proof.
  unfold api, bind, emit, ret, throw, lift. cbn.
  rewrite <- app_assoc. cbn.
  destruct (fetch w _ method _ apiKey None) as [res|e]; [|eauto].
  destruct (res_ok res); cbn; [|eauto].
  destruct (res_text res =? EmptyString)%string; cbn; eauto.
Qed.

Lemma clock_over_events (w : World) :
  clock_advances w ->
  forall (evs : list Event) (t : Trace), Date_now w t <= Date_now w (t ++ evs)%list.
Proof.
  intros [Hmono _]. induction evs as [|e evs IH]; intros t.
  - rewrite app_nil_r. lia.
  - replace (t ++ e :: evs)%list with ((t ++ [e]) ++ evs)%list
      by (rewrite <- app_assoc; reflexivity).
    specialize (IH (t ++ [e])%list). specialize (Hmono t e). lia.
Qed.

Lemma strict_equal_string_r (v : JsValue) (s : string) :
  strict_equal v (JString s) = true <-> v = JString s.
Proof.
  destruct v; simpl; split; intros H; try discriminate.
  - apply String.eqb_eq in H. now subst.
  - inversion H. apply String.eqb_refl.
Qed.

(** After a turn that ended in the ten-second sleep, at least ten seconds
    less are left to the deadline. *)
Ltac after_sleep w t Hclock Elt Hleft :=
  match goal with
  | |- ?d - Date_now w (?X ++ [EvSleep 10000])%list <= _ =>
      let Hsleep := fresh "Hsleep" in
      let Hmono := fresh "Hmono" in
      pose proof (proj2 Hclock X 10000) as Hsleep;
      assert (Hmono : Date_now w t <= Date_now w X)
        by (rewrite <- !app_assoc; apply (clock_over_events w Hclock));
      cbn [num_lt] in Elt; apply Z.ltb_lt in Elt;
      rewrite Nat2Z.inj_succ in Hleft; lia
  end.

(** One turn of the loop of the current action. *)
Lemma action_poll_turn (w : World) (apiKey : string) (appId : JsValue) (deadline : JsNum)
    (fuel : nat) (status : JsValue) (t : Trace) :
  Action.poll w (S fuel) apiKey appId deadline status t
  = if num_lt (Num (Date_now w t)) deadline
    then
      match api w "GET" ("/apps/" ++ ToString appId) apiKey None (t ++ [EvDateNow])%list with
      | (t2, Some (Ok appStatus)) =>
          match Action.reported_status appStatus with
          | Ok st =>
              let t3 := (t2 ++ [EvInfo ("  Status: " ++ ToString st)])%list in
              if strict_equal st (JString "Active")
              then (t3, Some (Ok st))
              else Action.poll w fuel apiKey appId deadline st (t3 ++ [EvSleep 10000])%list
          | Throw e => (t2, Some (Throw e))
          end
      | (t2, Some (Throw e)) => (t2, Some (Throw e))
      | (t2, None) => (t2, None)
      end
    else ((t ++ [EvDateNow])%list, Some (Ok status)).
Proof.
  cbn [Action.poll]. unfold bind at 1. unfold now at 1.
  destruct (num_lt (Num (Date_now w t)) deadline); [|reflexivity].
  unfold bind at 1.
  destruct (api w "GET" ("/apps/" ++ ToString appId) apiKey None (t ++ [EvDateNow])%list)
    as [t2 [[appStatus|e]|]]; try reflexivity.
  unfold bind at 1, lift at 1.
  destruct (Action.reported_status appStatus) as [st|e]; [|reflexivity].
  unfold bind at 1, info at 1, emit at 1. cbv zeta.
  destruct (strict_equal st (JString "Active")); reflexivity.
Qed.

(** The loop only ever adds to the trace. *)
Lemma action_poll_extends (w : World) (apiKey : string) (appId : JsValue)
    (deadline : JsNum) (fuel : nat) :
  forall (status : JsValue) (t t' : Trace) (r : option (Result JsValue)),
    Action.poll w fuel apiKey appId deadline status t = (t', r) ->
    exists evs, t' = (t ++ evs)%list.
Proof.
  induction fuel as [|fuel IH]; intros status t t' r H.
  - inversion H; subst. exists []. now rewrite app_nil_r.
  - rewrite action_poll_turn in H.
    destruct (num_lt (Num (Date_now w t)) deadline).
    + destruct (api_get_events w "GET" ("/apps/" ++ ToString appId) apiKey
                  (t ++ [EvDateNow])%list) as [r0 Hapi].
      rewrite Hapi in H. rewrite <- app_assoc in H.
      destruct r0 as [appStatus|e]; [|inversion H; subst; eauto].
      destruct (Action.reported_status appStatus) as [st|e];
        [|inversion H; subst; eauto].
      cbv zeta in H.
      destruct (strict_equal st (JString "Active")).
      * inversion H; subst. rewrite <- app_assoc. eauto.
      * apply IH in H. destruct H as [evs ->].
        rewrite <- !app_assoc. eauto.
    + inversion H; subst. eauto.
Qed.

(** With a clock that advances, the loop ends: fuel beyond the milliseconds
    left to the deadline is never used up. *)
Lemma action_poll_ends (w : World) (apiKey : string) (appId : JsValue) (deadline : JsNum)
    (Hclock : clock_advances w) (fuel : nat) :
  forall (status : JsValue) (t : Trace),
    match deadline with
    | NaN => True
    | Num d => d - Date_now w t <= Z.of_nat fuel
    end ->
    snd (Action.poll w (S fuel) apiKey appId deadline status t) <> None.
Proof.
  induction fuel as [|fuel IH]; intros status t Hleft; rewrite action_poll_turn.
  - destruct deadline as [|d]; cbn [num_lt]; [discriminate|].
    destruct (Z.ltb_spec (Date_now w t) d); [simpl in Hleft; lia | discriminate].
  - destruct (num_lt (Num (Date_now w t)) deadline) eqn:Elt; [|discriminate].
    destruct (api_get_events w "GET" ("/apps/" ++ ToString appId) apiKey
                (t ++ [EvDateNow])%list) as [r0 Hapi].
    rewrite Hapi.
    destruct r0 as [appStatus|e]; [|discriminate].
    destruct (Action.reported_status appStatus) as [st|e]; [|discriminate].
    cbv zeta.
    destruct (strict_equal st (JString "Active")); [discriminate|].
    apply IH. destruct deadline as [|d]; [exact I|].
    after_sleep w t Hclock Elt Hleft.
Qed.

(** One turn of the loop of the older variant. *)
Lemma older_poll_turn (w : World) (apiKey : string) (appId : JsValue) (deadline : JsNum)
    (fuel : nat) (status : JsValue) (t : Trace) :
  Older.poll w (S fuel) apiKey appId deadline status t
  = if num_lt (Num (Date_now w t)) deadline
    then
      match api w "GET" ("/apps/" ++ ToString appId) apiKey None (t ++ [EvDateNow])%list with
      | (t2, Some (Ok appStatus)) =>
          match Older.reported_status appStatus with
          | Ok st =>
              let t3 := (t2 ++ [EvInfo ("  Status: " ++ ToString st)])%list in
              if Older.is_active_or_running st
              then (t3, Some (Ok st))
              else Older.poll w fuel apiKey appId deadline st (t3 ++ [EvSleep 10000])%list
          | Throw e => (t2, Some (Throw e))
          end
      | (t2, Some (Throw e)) => (t2, Some (Throw e))
      | (t2, None) => (t2, None)
      end
    else ((t ++ [EvDateNow])%list, Some (Ok status)).
Proof.
  cbn [Older.poll]. unfold bind at 1. unfold now at 1.
  destruct (num_lt (Num (Date_now w t)) deadline); [|reflexivity].
  unfold bind at 1.
  destruct (api w "GET" ("/apps/" ++ ToString appId) apiKey None (t ++ [EvDateNow])%list)
    as [t2 [[appStatus|e]|]]; try reflexivity.
  unfold bind at 1, lift at 1.
  destruct (Older.reported_status appStatus) as [st|e]; [|reflexivity].
  unfold bind at 1, info at 1, emit at 1. cbv zeta.
  destruct (Older.is_active_or_running st); reflexivity.
Qed.

Lemma older_poll_extends (w : World) (apiKey : string) (appId : JsValue)
    (deadline : JsNum) (fuel : nat) :
  forall (status : JsValue) (t t' : Trace) (r : option (Result JsValue)),
    Older.poll w fuel apiKey appId deadline status t = (t', r) ->
    exists evs, t' = (t ++ evs)%list.
Proof.
  induction fuel as [|fuel IH]; intros status t t' r H.
  - inversion H; subst. exists []. now rewrite app_nil_r.
  - rewrite older_poll_turn in H.
    destruct (num_lt (Num (Date_now w t)) deadline).
    + destruct (api_get_events w "GET" ("/apps/" ++ ToString appId) apiKey
                  (t ++ [EvDateNow])%list) as [r0 Hapi].
      rewrite Hapi in H. rewrite <- app_assoc in H.
      destruct r0 as [appStatus|e]; [|inversion H; subst; eauto].
      destruct (Older.reported_status appStatus) as [st|e];
        [|inversion H; subst; eauto].
      cbv zeta in H.
      destruct (Older.is_active_or_running st).
      * inversion H; subst. rewrite <- app_assoc. eauto.
      * apply IH in H. destruct H as [evs ->].
        rewrite <- !app_assoc. eauto.
    + inversion H; subst. eauto.
Qed.

Lemma older_poll_ends (w : World) (apiKey : string) (appId : JsValue) (deadline : JsNum)
    (Hclock : clock_advances w) (fuel : nat) :
  forall (status : JsValue) (t : Trace),
    match deadline with
    | NaN => True
    | Num d => d - Date_now w t <= Z.of_nat fuel
    end ->
    snd (Older.poll w (S fuel) apiKey appId deadline status t) <> None.
Proof.
  induction fuel as [|fuel IH]; intros status t Hleft; rewrite older_poll_turn.
  - destruct deadline as [|d]; cbn [num_lt]; [discriminate|].
    destruct (Z.ltb_spec (Date_now w t) d); [simpl in Hleft; lia | discriminate].
  - destruct (num_lt (Num (Date_now w t)) deadline) eqn:Elt; [|discriminate].
    destruct (api_get_events w "GET" ("/apps/" ++ ToString appId) apiKey
                (t ++ [EvDateNow])%list) as [r0 Hapi].
    rewrite Hapi.
    destruct r0 as [appStatus|e]; [|discriminate].
    destruct (Older.reported_status appStatus) as [st|e]; [|discriminate].
    cbv zeta.
    destruct (Older.is_active_or_running st); [discriminate|].
    apply IH. destruct deadline as [|d]; [exact I|].
    after_sleep w t Hclock Elt Hleft.
Qed.

Lemma trace_grows_strictly (t evs : Trace) (e : Event) : (t ++ e :: evs)%list <> t.
Proof.
  intros H. apply (f_equal (@List.length Event)) in H.
  rewrite length_app in H. simpl in H. lia.
Qed.

Lemma poll_fuel_bound (deadline : JsNum) (clock : Z) :
  exists N : nat,
    forall fuel : nat, (N <= fuel)%nat ->
      exists fuel', fuel = S fuel'
                    /\ match deadline with
                       | NaN => True
                       | Num d => d - clock <= Z.of_nat fuel'
                       end.
Proof.
  destruct deadline as [|d].
  - exists 1%nat. intros [|fuel'] H; [lia | eauto].
  - exists (S (Z.to_nat (d - clock))). intros [|fuel'] H; [lia|].
    exists fuel'. split; [reflexivity | lia].
Qed.

(** C1, as amended.  In the current action the loop stops with success
    exactly when the fetched status is the string Active, letter for letter;
    any other status (running and active among them) makes it sleep ten
    seconds and test the deadline again; once the deadline has elapsed it
    stops without a fetch; and with a clock that advances it does end. *)
Theorem current_loop_stops_exactly_on_status_Active :
  forall (w : World) (apiKey : string) (appId : JsValue) (deadline : JsNum),
    clock_advances w ->
    (forall (fuel : nat) (status : JsValue) (t : Trace),
        num_lt (Num (Date_now w t)) deadline = false ->
        Action.poll w (S fuel) apiKey appId deadline status t
        = ((t ++ [EvDateNow])%list, Some (Ok status)))
    /\ (forall (fuel : nat) (status : JsValue) (t t2 : Trace) (appStatus st : JsValue),
           num_lt (Num (Date_now w t)) deadline = true ->
           api w "GET" ("/apps/" ++ ToString appId) apiKey None (t ++ [EvDateNow])%list
           = (t2, Some (Ok appStatus)) ->
           Action.reported_status appStatus = Ok st ->
           let t3 := (t2 ++ [EvInfo ("  Status: " ++ ToString st)])%list in
           (Action.poll w (S fuel) apiKey appId deadline status t = (t3, Some (Ok st))
            <-> st = JString "Active")
           /\ (st <> JString "Active" ->
               Action.poll w (S fuel) apiKey appId deadline status t
               = Action.poll w fuel apiKey appId deadline st (t3 ++ [EvSleep 10000])%list))
    /\ (forall (status : JsValue) (t : Trace),
           exists N : nat,
             forall fuel : nat, (N <= fuel)%nat ->
               snd (Action.poll w fuel apiKey appId deadline status t) <> None).
Proof.
  intros w apiKey appId deadline Hclock. split; [|split].
  - intros fuel status t Hlt. rewrite action_poll_turn, Hlt. reflexivity.
  - intros fuel status t t2 appStatus st Hlt Hapi Hrep t3.
    assert (Hturn : Action.poll w (S fuel) apiKey appId deadline status t
                    = if strict_equal st (JString "Active")
                      then (t3, Some (Ok st))
                      else Action.poll w fuel apiKey appId deadline st
                             (t3 ++ [EvSleep 10000])%list).
    { rewrite action_poll_turn, Hlt, Hapi, Hrep. reflexivity. }
    destruct (strict_equal st (JString "Active")) eqn:Es.
    + apply strict_equal_string_r in Es. split; [|congruence].
      split; [intros _; exact Es | intros _; exact Hturn].
    + assert (Hne : st <> JString "Active").
      { intros Heq. apply strict_equal_string_r in Heq. congruence. }
      split; [|intros _; exact Hturn].
      split; [|contradiction].
      intros Hstop. rewrite Hturn in Hstop.
      destruct (action_poll_extends _ _ _ _ _ _ _ _ _ Hstop) as [evs Hevs].
      rewrite <- app_assoc in Hevs. symmetry in Hevs.
      exfalso. exact (trace_grows_strictly _ _ _ Hevs).
  - intros status t.
    destruct (poll_fuel_bound deadline (Date_now w t)) as [N HN].
    exists N. intros fuel Hfuel. destruct (HN fuel Hfuel) as [fuel' [-> Hleft]].
    apply action_poll_ends; assumption.
Qed.

(** X21.  The older variant does what C1 says: its loop stops exactly when
    the status, as a string, is active or running up to letter case; any
    other status makes it sleep ten seconds and test the deadline again;
    once the deadline has elapsed it stops without a fetch; and with a clock
    that advances it does end. *)
Lemma older_loop_stops_exactly_on_active_or_running :
  forall (w : World) (apiKey : string) (appId : JsValue) (deadline : JsNum),
    clock_advances w ->
    (forall (st : JsValue),
        Older.is_active_or_running st = true
        <-> lower_ascii (ToString st) = "active" \/ lower_ascii (ToString st) = "running")
    /\ (forall (fuel : nat) (status : JsValue) (t : Trace),
        num_lt (Num (Date_now w t)) deadline = false ->
        Older.poll w (S fuel) apiKey appId deadline status t
        = ((t ++ [EvDateNow])%list, Some (Ok status)))
    /\ (forall (fuel : nat) (status : JsValue) (t t2 : Trace) (appStatus st : JsValue),
           num_lt (Num (Date_now w t)) deadline = true ->
           api w "GET" ("/apps/" ++ ToString appId) apiKey None (t ++ [EvDateNow])%list
           = (t2, Some (Ok appStatus)) ->
           Older.reported_status appStatus = Ok st ->
           let t3 := (t2 ++ [EvInfo ("  Status: " ++ ToString st)])%list in
           (Older.poll w (S fuel) apiKey appId deadline status t = (t3, Some (Ok st))
            <-> Older.is_active_or_running st = true)
           /\ (Older.is_active_or_running st = false ->
               Older.poll w (S fuel) apiKey appId deadline status t
               = Older.poll w fuel apiKey appId deadline st (t3 ++ [EvSleep 10000])%list))
    /\ (forall (status : JsValue) (t : Trace),
           exists N : nat,
             forall fuel : nat, (N <= fuel)%nat ->
               snd (Older.poll w fuel apiKey appId deadline status t) <> None).
Proof.
  intros w apiKey appId deadline Hclock. split; [|split; [|split]].
  - intros st. unfold Older.is_active_or_running. rewrite orb_true_iff.
    rewrite !String.eqb_eq. reflexivity.
  - intros fuel status t Hlt. rewrite older_poll_turn, Hlt. reflexivity.
  - intros fuel status t t2 appStatus st Hlt Hapi Hrep t3.
    assert (Hturn : Older.poll w (S fuel) apiKey appId deadline status t
                    = if Older.is_active_or_running st
                      then (t3, Some (Ok st))
                      else Older.poll w fuel apiKey appId deadline st
                             (t3 ++ [EvSleep 10000])%list).
    { rewrite older_poll_turn, Hlt, Hapi, Hrep. reflexivity. }
    destruct (Older.is_active_or_running st) eqn:Es.
    + split; [|discriminate]. split; [reflexivity | intros _; exact Hturn].
    + split; [|intros _; exact Hturn].
      split; [|discriminate].
      intros Hstop. rewrite Hturn in Hstop.
      destruct (older_poll_extends _ _ _ _ _ _ _ _ _ Hstop) as [evs Hevs].
      rewrite <- app_assoc in Hevs. symmetry in Hevs.
      exfalso. exact (trace_grows_strictly _ _ _ Hevs).
  - intros status t.
    destruct (poll_fuel_bound deadline (Date_now w t)) as [N HN].
    exists N. intros fuel Hfuel. destruct (HN fuel Hfuel) as [fuel' [-> Hleft]].
    apply older_poll_ends; assumption.
Qed.

Lemma elapsed_app (t : Trace) (e : Event) : elapsed (t ++ [e])%list = elapsed t + cost e.
Proof.
  induction t as [|x t IH]; simpl; [lia | rewrite IH; lia].
Qed.

(** The example worlds keep time by [elapsed], a clock that advances. *)
Lemma steady_clock_advances (inputs : list (string * string))
    (yaml : string -> Result JsValue) (answer : JsValue) :
  clock_advances (steady_world inputs yaml answer).
Proof.
  split; cbn [Date_now steady_world]; intros t x; rewrite elapsed_app.
  - destruct x; simpl; lia.
  - simpl. lia.
Qed.

Lemma current_loop_stops_exactly_on_status_Active_witness :
  exists N : nat,
    forall fuel : nat, (N <= fuel)%nat ->
      snd (Action.poll running_world fuel "key" (JNumber (Num 7)) (Num 15000)
             (JString EmptyString) []) <> None.
Proof.
  exact (proj2 (proj2 (current_loop_stops_exactly_on_status_Active
                         running_world "key" (JNumber (Num 7)) (Num 15000)
                         (steady_clock_advances _ _ _)))
               (JString EmptyString) []).
Defined.

(** C1 as stated fails on the current action: the platform reports running,
    and the loop neither stops nor succeeds; it sleeps, polls again and, the
    fifteen seconds over, warns that the app did not become active.  The
    older variant stops at the first such answer. *)
Lemma status_running_keeps_the_current_loop_polling :
  Action.wait_for_deployment running_world 5 "key" (JNumber (Num 7)) true (Num 15) []
  = ([EvDateNow;
      EvDateNow;
      EvDebug "GET https://api.bunny.net/mc/apps/7";
      EvFetch "GET" "https://api.bunny.net/mc/apps/7" "key" None;
      EvInfo "  Status: running";
      EvSleep 10000;
      EvDateNow;
      EvDebug "GET https://api.bunny.net/mc/apps/7";
      EvFetch "GET" "https://api.bunny.net/mc/apps/7" "key" None;
      EvInfo "  Status: running";
      EvSleep 10000;
      EvDateNow;
      EvWarning "App did not become active within 15s (last: running)"],
     Some (Ok tt))
  /\ Older.wait_for_deployment running_world 5 "key" (JNumber (Num 7)) true (Num 15) []
     = ([EvDateNow;
         EvDateNow;
         EvDebug "GET https://api.bunny.net/mc/apps/7";
         EvFetch "GET" "https://api.bunny.net/mc/apps/7" "key" None;
         EvInfo "  Status: running"],
        Some (Ok tt)).
Proof.
  split; vm_compute; reflexivity.
Qed.




(* ===================================================================== *)
(** ** Image references *)
(* ===================================================================== *)

Lemma append_empty_r (s : string) : (s ++ EmptyString)%string = s.
Proof. induction s as [|c s IH]; simpl; congruence. Qed.

Lemma append_snoc (cur : string) (c : ascii) (s : string) :
  ((cur ++ String c EmptyString) ++ s)%string = (cur ++ String c s)%string.
Proof. induction cur as [|d cur IH]; simpl; congruence. Qed.

Lemma split_go_no_separator (sep : ascii) (s cur : string) :
  ~ In sep (list_ascii_of_string s) -> split_go sep s cur = [(cur ++ s)%string].
Proof.
  revert cur. induction s as [|c s IH]; intros cur Hno; simpl.
  - now rewrite append_empty_r.
  - destruct (Ascii.eqb_spec c sep) as [->|Hne].
    + exfalso. apply Hno. left. reflexivity.
    + rewrite IH by (intros Hin; apply Hno; right; exact Hin).
      now rewrite append_snoc.
Qed.

Lemma split_go_segment (sep : ascii) (p rest cur : string) :
  ~ In sep (list_ascii_of_string p) ->
  split_go sep (p ++ String sep rest) cur = (cur ++ p)%string :: split_go sep rest EmptyString.
Proof.
  revert cur. induction p as [|c p IH]; intros cur Hno; simpl.
  - rewrite Ascii.eqb_refl. now rewrite append_empty_r.
  - destruct (Ascii.eqb_spec c sep) as [->|Hne].
    + exfalso. apply Hno. left. reflexivity.
    + rewrite IH by (intros Hin; apply Hno; right; exact Hin).
      now rewrite append_snoc.
Qed.

(** Splitting what was joined gives the segments back. *)
Lemma split_join (p : string) (ps : list string) :
  Forall slash_free (p :: ps) -> split "/" (join "/" (p :: ps)) = p :: ps.
Proof.
  revert p. induction ps as [|q ps IH]; intros p Hall; inversion Hall as [|x l Hp Hps]; subst.
  - simpl. unfold split. apply split_go_no_separator. exact Hp.
  - change (join "/" (p :: q :: ps)) with (p ++ String "/" (join "/" (q :: ps)))%string.
    unfold split. rewrite split_go_segment by exact Hp. simpl append.
    f_equal. apply IH. exact Hps.
Qed.

(** The pieces of a split hold no separator. *)
Lemma split_go_pieces (sep : ascii) (s cur : string) :
  ~ In sep (list_ascii_of_string cur) ->
  Forall (fun piece => ~ In sep (list_ascii_of_string piece)) (split_go sep s cur).
Proof.
  revert cur. induction s as [|c s IH]; intros cur Hcur; simpl.
  - constructor; [exact Hcur | constructor].
  - destruct (Ascii.eqb_spec c sep) as [->|Hne].
    + constructor; [exact Hcur|]. apply IH. simpl. tauto.
    + apply IH. rewrite list_ascii_of_string_app, in_app_iff. simpl.
      intros [H|[H|H]]; [tauto | congruence | exact H].
Qed.

Lemma last_in_or_default {A : Type} (l : list A) (d : A) : l = [] \/ In (last l d) l.
Proof.
  induction l as [|x l IH]; [left; reflexivity|]. right.
  destruct l as [|y l]; [left; reflexivity|].
  destruct IH as [IH|IH]; [discriminate|]. right. exact IH.
Qed.

(** X1.  An image reference without slash is an official image: the
    namespace is library and the name is the reference itself. *)
Theorem unqualified_image_is_a_library_image :
  forall fullImage : string,
    slash_free fullImage ->
    parseImageParts fullImage
    = {| imageNamespace := "library"; imageName := fullImage |}.
Proof.
  intros fullImage Hno. unfold parseImageParts, split.
  rewrite split_go_no_separator by exact Hno. reflexivity.
Qed.

Lemma unqualified_image_is_a_library_image_witness :
  parseImageParts "redis" = {| imageNamespace := "library"; imageName := "redis" |}.
Proof.
  apply unqualified_image_is_a_library_image.
  unfold slash_free. simpl. intros [H|[H|[H|[H|[H|H]]]]]; try discriminate H. exact H.
Defined.

(** X2.  A reference of two or more slash-free segments: the last segment is
    the name; a first segment holding a dot or a colon is a registry host and
    is dropped; what remains in front of the name, joined by slashes, is the
    namespace, library standing in when that is empty. *)
Theorem qualified_image_splits_into_namespace_and_name :
  forall (first : string) (middle : list string) (last_segment : string),
    Forall slash_free (first :: middle ++ [last_segment]) ->
    let parts := parseImageParts (join "/" (first :: middle ++ [last_segment])) in
    let front := if names_host first then middle else first :: middle in
    imageName parts = last_segment
    /\ imageNamespace parts
       = (if (join "/" front =? EmptyString)%string then "library" else join "/" front).
Proof.
  intros first middle nm Hall parts front. subst parts front.
  unfold parseImageParts. rewrite split_join by exact Hall.
  assert (Hshape : exists x rest, (middle ++ [nm])%list = x :: rest).
  { destruct middle; simpl; eauto. }
  destruct Hshape as [x [rest Hshape]]. rewrite Hshape.
  cbn [hd tl]. fold (names_host first). rewrite <- Hshape.
  destruct (names_host first).
  - rewrite last_last, removelast_last. split; reflexivity.
  - change (first :: middle ++ [nm])%list with ((first :: middle) ++ [nm])%list.
    rewrite last_last, removelast_last. split; reflexivity.
Qed.

Lemma qualified_image_splits_into_namespace_and_name_witness :
  imageName (parseImageParts "ghcr.io/org/repo/api") = "api"
  /\ imageNamespace (parseImageParts "ghcr.io/org/repo/api") = "org/repo".
Proof.
  refine (qualified_image_splits_into_namespace_and_name "ghcr.io" ["org"; "repo"] "api" _).
  repeat constructor; unfold slash_free; simpl;
    intros H; repeat (destruct H as [H|H]; [discriminate H|]); exact H.
Defined.

(** X3.  Whatever the reference, the name part holds no slash. *)
Theorem image_name_holds_no_slash :
  forall fullImage : string, slash_free (imageName (parseImageParts fullImage)).
Proof.
  intros fullImage. unfold parseImageParts.
  assert (Hpieces : Forall slash_free (split "/" fullImage)).
  { unfold split. apply split_go_pieces. simpl. tauto. }
  destruct (split "/" fullImage) as [|p0 [|p1 rest]] eqn:Es.
  - cbn. unfold slash_free. simpl. tauto.
  - cbn. inversion Hpieces; assumption.
  - cbn [imageName].
    match goal with
    | |- slash_free (last ?l EmptyString) =>
        assert (Hsub : Forall slash_free l)
          by (destruct (includes (hd EmptyString (p0 :: p1 :: rest)) "."
                        || includes (hd EmptyString (p0 :: p1 :: rest)) ":");
              [inversion Hpieces; assumption | exact Hpieces]);
        destruct (last_in_or_default l EmptyString) as [Hnil|Hin]
    end.
    + rewrite Hnil. unfold slash_free. simpl. tauto.
    + rewrite Forall_forall in Hsub. apply Hsub. exact Hin.
Qed.

(* ===================================================================== *)
(** ** More on container parsing *)
(* ===================================================================== *)

Lemma or_else_default_truthy (a b : JsValue) : truthy b = true -> truthy (or_else a b) = true.
Proof.
  intros Hb. unfold or_else. destruct (truthy a) eqn:Ea; assumption.
Qed.

Lemma value_includes_prefixed (a b : string) :
  value_includes (JString (a ++ "/" ++ b)) "/" = Ok true.
Proof. cbn [value_includes]. now rewrite includes_slash. Qed.

(** What holds of every container the parser lets through. *)
Lemma container_of_well_resolved (w : World) (d : Defaults) (i : nat) (c : JsValue)
    (r : ContainerDef) :
  sha d <> EmptyString ->
  Action.container_of w d i c = Ok r -> well_resolved r.
Proof.
  intros Hsha. unfold Action.container_of.
  destruct (get c "name") as [n|e]; cbn [rbind]; [|discriminate].
  destruct (truthy n) eqn:En; cbn [negb]; [|discriminate].
  destruct (get c "image") as [img|e]; cbn [rbind]; [|discriminate].
  destruct (truthy img) eqn:Ei; cbn [negb]; [|discriminate].
  destruct (get c "build") as [b|e]; cbn [rbind]; [|discriminate].
  assert (Htag : forall tg, truthy (or_else tg (JString (if strict_equal b (JBool true)
                                                         then sha d else "latest"))) = true).
  { intros tg. apply or_else_default_truthy. apply truthy_string.
    destruct (strict_equal b (JBool true)); [exact Hsha | discriminate]. }
  assert (Hport : forall pt,
             (if truthy pt then JNumber (ToNumber w pt) else JUndefined) = JUndefined
             \/ exists n0, (if truthy pt then JNumber (ToNumber w pt) else JUndefined)
                           = JNumber n0).
  { intros pt. destruct (truthy pt); eauto. }
  destruct (strict_equal b (JBool true)) eqn:Eb.
  - destruct (value_includes img "/") as [slash|e] eqn:Es; cbn [rbind]; [|discriminate].
    destruct slash; cbn [negb rbind].
    + destruct (get c "tag") as [tg|e]; cbn [rbind]; [|discriminate].
      destruct (get c "port") as [pt|e]; cbn [rbind]; [|discriminate].
      destruct (get c "context") as [cx|e]; cbn [rbind]; [|discriminate].
      destruct (get c "dockerfile") as [df|e]; cbn [rbind]; [|discriminate].
      destruct (get c "env") as [ev|e]; cbn [rbind]; [|discriminate].
      intros H; inversion H; subst r; unfold well_resolved;
        cbn [name image tag port build context dockerfile env].
      repeat split; auto using or_else_default_truthy.
    + destruct (get c "tag") as [tg|e]; cbn [rbind]; [|discriminate].
      destruct (get c "port") as [pt|e]; cbn [rbind]; [|discriminate].
      destruct (get c "context") as [cx|e]; cbn [rbind]; [|discriminate].
      destruct (get c "dockerfile") as [df|e]; cbn [rbind]; [|discriminate].
      destruct (get c "env") as [ev|e]; cbn [rbind]; [|discriminate].
      intros H; inversion H; subst r; unfold well_resolved;
        cbn [name image tag port build context dockerfile env].
      repeat split; auto using or_else_default_truthy.
      * apply truthy_string. apply append_not_empty. discriminate.
      * intros _. apply (value_includes_prefixed (registry d) (ToString img)).
  - cbn [rbind].
    destruct (get c "tag") as [tg|e]; cbn [rbind]; [|discriminate].
    destruct (get c "port") as [pt|e]; cbn [rbind]; [|discriminate].
    destruct (get c "context") as [cx|e]; cbn [rbind]; [|discriminate].
    destruct (get c "dockerfile") as [df|e]; cbn [rbind]; [|discriminate].
    destruct (get c "env") as [ev|e]; cbn [rbind]; [|discriminate].
    intros H; inversion H; subst r; unfold well_resolved;
      cbn [name image tag port build context dockerfile env].
    repeat split; auto using or_else_default_truthy; discriminate.
Qed.

Lemma map_result_forall {A B : Type} (f : nat -> A -> Result B) (P : B -> Prop) :
  (forall i x y, f i x = Ok y -> P y) ->
  forall (xs : list A) (k : nat) (ys : list B),
    map_result f k xs = Ok ys -> Forall P ys.
Proof.
  intros HP. induction xs as [|x xs IH]; intros k ys H; simpl in H.
  - inversion H. constructor.
  - destruct (f k x) as [y|e] eqn:Ef; simpl in H; [|discriminate].
    destruct (map_result f (S k) xs) as [ys'|e] eqn:Er; simpl in H; [|discriminate].
    inversion H; subst. constructor; eauto.
Qed.

(** X4.  What the inline parser returns can be relied on: as many containers
    as the list has entries, each with a name, an image, a tag, a build
    context, a dockerfile and an environment that count as true, a port that
    is a number or undefined, and, when built, an image holding a slash.  The
    tag needs the default build id to be non-empty, as the run makes it. *)
Theorem parsed_containers_are_well_resolved :
  forall (w : World) (raw : string) (d : Defaults) (items : list JsValue)
         (cs : list ContainerDef),
    sha d <> EmptyString ->
    yaml_load w raw = Ok (JArray items) ->
    Action.parseContainers w raw d = Ok cs ->
    List.length cs = List.length items /\ Forall well_resolved cs.
Proof.
  intros w raw d items cs Hsha Hy Hp. unfold Action.parseContainers in Hp.
  rewrite Hy in Hp; cbn [rbind] in Hp. split.
  - apply (map_result_nth _ _ _ _ Hp).
  - eapply map_result_forall; [|exact Hp].
    intros i x y Hxy. eapply container_of_well_resolved; eassumption.
Qed.

Lemma parsed_containers_are_well_resolved_witness :
  exists cs,
    Action.parseContainers twin_world twin_yaml (mkDefaults "reg" "abc123") = Ok cs
    /\ List.length cs = 2%nat /\ Forall well_resolved cs.
Proof.
  eexists. split; [vm_compute; reflexivity|].
  refine (parsed_containers_are_well_resolved twin_world twin_yaml
            (mkDefaults "reg" "abc123") twin_entries _ _ eq_refl eq_refl).
  discriminate.
Defined.

Lemma map_result_first_failure {A B : Type} (f : nat -> A -> Result B) :
  forall (pre : list A) (x : A) (post : list A) (k : nat) (e : JsError),
    (forall j y, nth_error pre j = Some y -> exists z, f (k + j)%nat y = Ok z) ->
    f (k + List.length pre)%nat x = Throw e ->
    map_result f k (pre ++ x :: post) = Throw e.
Proof.
  induction pre as [|p pre IH]; intros x post k e Hpre Hx.
  - simpl in *. rewrite Nat.add_0_r in Hx. rewrite Hx. reflexivity.
  - cbn [app map_result].
    destruct (Hpre 0%nat p eq_refl) as [z Hz]. rewrite Nat.add_0_r in Hz.
    rewrite Hz; cbn [rbind].
    rewrite (IH x post (S k) e).
    + reflexivity.
    + intros j y Hy. destruct (Hpre (S j) y Hy) as [z' Hz'].
      rewrite Nat.add_succ_r in Hz'. eauto.
    + simpl in Hx. rewrite Nat.add_succ_r in Hx. exact Hx.
Qed.

(** X5.  The first entry without a name decides the outcome: when the
    entries before it resolve, the parser throws the error that names its
    index, counted from zero, whatever follows it in the list. *)
Theorem first_nameless_entry_is_reported_by_index :
  forall (w : World) (raw : string) (d : Defaults)
         (pre : list JsValue) (c : JsValue) (post : list JsValue) (n : JsValue),
    yaml_load w raw = Ok (JArray (pre ++ c :: post)) ->
    Forall entry_resolvable pre ->
    get c "name" = Ok n -> truthy n = false ->
    Action.parseContainers w raw d
    = Throw (Error ("Container at index " ++ string_of_nat (List.length pre)
                    ++ " missing 'name'")).
Proof.
  intros w raw d pre c post n Hy Hpre Hn Hf. unfold Action.parseContainers.
  rewrite Hy; cbn [rbind]. apply map_result_first_failure.
  - intros j y Hj. rewrite Forall_forall in Hpre.
    destruct (Hpre y (nth_error_In _ _ Hj)) as [n' [s [Hn' [Ht [Hi Hs]]]]].
    destruct (container_of_named_image w d (0 + j) y n' s Hn' Ht Hi Hs)
      as [b [r [_ [Hr _]]]]. eauto.
  - unfold Action.container_of. rewrite Hn; cbn [rbind]. rewrite Hf. reflexivity.
Qed.

Lemma first_nameless_entry_is_reported_by_index_witness :
  Action.parseContainers nameless_world nameless_yaml (mkDefaults "reg" "abc123")
  = Throw (Error "Container at index 1 missing 'name'").
Proof.
  refine (first_nameless_entry_is_reported_by_index nameless_world nameless_yaml
            (mkDefaults "reg" "abc123")
            [JObject [("name", JString "web"); ("image", JString "nginx")]]
            (JObject [("image", JString "redis")]) [] JUndefined eq_refl _ eq_refl eq_refl).
  repeat constructor. exists (JString "web"), "nginx".
  repeat split; try reflexivity. discriminate.
Defined.

Lemma container_of_yaml_agrees (w : World) (d : Defaults) (i : nat) (c : JsValue) :
  Descriptor.container_of_yaml w d i c
  = match Action.container_of w d i c with
    | Ok r => Ok (without_declared_endpoints r)
    | Throw e => Throw e
    end.
Proof.
  unfold Descriptor.container_of_yaml, Action.container_of.
  destruct (get c "name") as [n|e]; cbn [rbind]; [|reflexivity].
  destruct (truthy n); cbn [negb]; [|reflexivity].
  destruct (get c "image") as [img|e]; cbn [rbind]; [|reflexivity].
  destruct (truthy img); cbn [negb]; [|reflexivity].
  destruct (get c "build") as [b|e]; cbn [rbind]; [|reflexivity].
  destruct (strict_equal b (JBool true)).
  - destruct (value_includes img "/") as [slash|e]; cbn [rbind]; [|reflexivity].
    destruct slash; cbn [negb rbind];
      destruct (get c "tag") as [tg|e]; cbn [rbind]; try reflexivity;
      destruct (get c "port") as [pt|e]; cbn [rbind]; try reflexivity;
      destruct (get c "context") as [cx|e]; cbn [rbind]; try reflexivity;
      destruct (get c "dockerfile") as [df|e]; cbn [rbind]; try reflexivity;
      destruct (get c "env") as [ev|e]; cbn [rbind]; reflexivity.
  - cbn [rbind];
      destruct (get c "tag") as [tg|e]; cbn [rbind]; try reflexivity;
      destruct (get c "port") as [pt|e]; cbn [rbind]; try reflexivity;
      destruct (get c "context") as [cx|e]; cbn [rbind]; try reflexivity;
      destruct (get c "dockerfile") as [df|e]; cbn [rbind]; try reflexivity;
      destruct (get c "env") as [ev|e]; cbn [rbind]; reflexivity.
Qed.

(** X6.  The inline parser of the descriptor source resolves every input
    as the parser of the current action does: the same error, or the same
    containers with an empty endpoint list added to each. *)
Theorem parseFromYaml_agrees_with_parseContainers :
  forall (w : World) (raw : string) (d : Defaults),
    Descriptor.parseFromYaml w raw d
    = match Action.parseContainers w raw d with
      | Ok cs => Ok (map without_declared_endpoints cs)
      | Throw e => Throw e
      end.
Proof.
  intros w raw d. unfold Descriptor.parseFromYaml, Action.parseContainers.
  destruct (yaml_load w raw) as [parsed|e]; cbn [rbind]; [|reflexivity].
  destruct parsed; try reflexivity.
  generalize 0%nat. induction items as [|c items IH]; intros k; [reflexivity|].
  cbn [map_result]. rewrite container_of_yaml_agrees.
  destruct (Action.container_of w d k c) as [r|e]; cbn [rbind]; [|reflexivity].
  rewrite IH.
  destruct (map_result (Action.container_of w d) (S k) items); reflexivity.
Qed.

(* ===================================================================== *)
(** ** The bunny.toml descriptor *)
(* ===================================================================== *)

Lemma lower_char_idempotent (c : ascii) : lower_char (lower_char c) = lower_char c.
Proof.
  destruct c as [[] [] [] [] [] [] [] []]; reflexivity.
Qed.

Lemma lower_ascii_idempotent (s : string) : lower_ascii (lower_ascii s) = lower_ascii s.
Proof.
  induction s as [|c s IH]; simpl; [reflexivity|].
  now rewrite lower_char_idempotent, IH.
Qed.

(** What [toLowerCase] returns holds no letter A-Z. *)
Lemma toLowerCase_is_lower (w : World) (s : string) :
  lower_ascii (toLowerCase w s) = toLowerCase w s.
Proof. apply lower_ascii_idempotent. Qed.

Lemma port_of_has_container (p : JsValue) (q : Descriptor.PortDef) :
  Descriptor.port_of p = Ok q -> truthy (Descriptor.container q) = true.
Proof.
  unfold Descriptor.port_of.
  destruct (get p "container") as [a|e]; cbn [rbind]; [|discriminate].
  destruct (get p "exposed") as [b|e]; cbn [rbind]; [|discriminate].
  destruct (get p "protocols") as [x|e]; cbn [rbind]; [|discriminate].
  intros H; inversion H; subst q. cbn [Descriptor.container].
  apply or_else_default_truthy. reflexivity.
Qed.

Lemma array_map_forall {B : Type} (f : nat -> JsValue -> Result B) (P : B -> Prop)
    (v : JsValue) (ys : list B) :
  (forall i x y, f i x = Ok y -> P y) ->
  Descriptor.array_map f v = Ok ys -> Forall P ys.
Proof.
  intros HP. destruct v; cbn [Descriptor.array_map]; try discriminate.
  apply map_result_forall. exact HP.
Qed.

Lemma endpoint_of_well_declared (w : World) (cName ep : JsValue)
    (e : Descriptor.EndpointDef) :
  Descriptor.endpoint_of w cName ep = Ok e -> well_declared_endpoint e.
Proof.
  unfold Descriptor.endpoint_of.
  destruct (get ep "ports") as [ps|x]; cbn [rbind]; [|discriminate].
  destruct (get ep "name") as [nm|x]; cbn [rbind]; [|discriminate].
  destruct (get ep "type") as [ty|x]; cbn [rbind]; [|discriminate].
  destruct (or_else ty (JString "cdn")) as [| | | |s| |]; cbn [rbind]; try discriminate.
  destruct (Descriptor.array_map (fun _ p => Descriptor.port_of p)
              (or_else ps (JArray []))) as [qs|x] eqn:Eq; cbn [rbind]; [|discriminate].
  intros H; inversion H; subst e. unfold well_declared_endpoint.
  cbn [Descriptor.endpoint_name Descriptor.endpoint_type Descriptor.ports].
  split; [|split].
  - apply or_else_default_truthy. apply truthy_string. apply append_not_empty. discriminate.
  - apply toLowerCase_is_lower.
  - eapply array_map_forall; [|exact Eq]. intros i x y. apply port_of_has_container.
Qed.

Lemma container_of_toml_well_described (w : World) (d : Defaults) (app : JsValue)
    (i : nat) (c : JsValue) (r : Descriptor.ContainerDef) :
  sha d <> EmptyString ->
  Descriptor.container_of_toml w d app i c = Ok r -> well_described r.
Proof.
  intros Hsha. unfold Descriptor.container_of_toml.
  destruct (get c "name") as [n|e]; cbn [rbind]; [|discriminate].
  destruct (truthy (or_else n (JString EmptyString))) eqn:En; cbn [negb]; [|discriminate].
  destruct (get c "build") as [b|e]; cbn [rbind]; [|discriminate].
  destruct (get c "image") as [img|e]; cbn [rbind]; [|discriminate].
  set (inferred := if negb (truthy (or_else img (JString EmptyString)))
                      && strict_equal b (JBool true)
                   then JString (registry d ++ "/" ++ ToString app)
                   else or_else img (JString EmptyString)).
  destruct (truthy inferred) eqn:Ei; cbn [negb]; [|discriminate].
  set (resolved_image :=
         if strict_equal b (JBool true)
         then let? slash := value_includes inferred "/" in
              if negb slash
              then Ok (JString (registry d ++ "/" ++ ToString inferred))
              else Ok inferred
         else Ok inferred).
  destruct resolved_image as [image|e] eqn:Eimg; cbn [rbind]; [|discriminate].
  assert (Himage : truthy image = true
                   /\ (strict_equal b (JBool true) = true ->
                       value_includes image "/" = Ok true)).
  { subst resolved_image. destruct (strict_equal b (JBool true)).
    - destruct (value_includes inferred "/") as [slash|e] eqn:Es;
        cbn [rbind] in Eimg; [|discriminate].
      destruct slash; cbn [negb] in Eimg; inversion Eimg; subst image.
      + split; [exact Ei | intros _; exact Es].
      + split; [apply truthy_string; apply append_not_empty; discriminate|].
        intros _. apply (value_includes_prefixed (registry d) (ToString inferred)).
    - inversion Eimg; subst image. split; [exact Ei | discriminate]. }
  destruct Himage as [Himg Hslash].
  destruct (get c "env") as [ev|e]; cbn [rbind]; [|discriminate].
  destruct (get c "endpoints") as [eps|e]; cbn [rbind]; [|discriminate].
  destruct (Descriptor.array_map
              (fun _ ep => Descriptor.endpoint_of w (or_else n (JString EmptyString)) ep)
              (or_else eps (JArray []))) as [endpoints|e] eqn:Eeps;
    cbn [rbind]; [|discriminate].
  destruct (get c "port") as [pt|e]; cbn [rbind]; [|discriminate].
  destruct (get c "tag") as [tg|e]; cbn [rbind]; [|discriminate].
  destruct (get c "context") as [cx|e]; cbn [rbind]; [|discriminate].
  destruct (get c "dockerfile") as [df|e]; cbn [rbind]; [|discriminate].
  intros H; inversion H; subst r; clear H. unfold well_described.
  cbn [Descriptor.name Descriptor.image Descriptor.tag Descriptor.build Descriptor.env
       Descriptor.endpoints Descriptor.port].
  assert (Heps : Forall well_declared_endpoint endpoints).
  { eapply array_map_forall; [|exact Eeps]. intros j x y. apply endpoint_of_well_declared. }
  split; [exact En|]. split; [exact Himg|]. split.
  { apply or_else_default_truthy. apply truthy_string.
    destruct (strict_equal b (JBool true)); [exact Hsha | discriminate]. }
  split; [exact Hslash|]. split.
  { destruct (truthy ev && (typeof ev =? "object")%string).
    - eexists. split; [reflexivity|].
      apply Forall_map. apply Forall_forall. intros kv _. cbn [snd]. eauto.
    - exists []. split; [reflexivity | constructor]. }
  split; [exact Heps|].
  intros ep eps' p ps Hep Hp. subst endpoints. rewrite Hp.
  inversion Heps as [|x l [_ [_ Hports]] _]; subst. rewrite Hp in Hports.
  inversion Hports as [|y l' Hy _]; subst.
  destruct (truthy pt); [discriminate|].
  intros Hundef. rewrite Hundef in Hy. discriminate.
Qed.

(** X7.  What the descriptor parser returns can be relied on: every
    container has a name, an image and a tag that count as true; a built one
    has an image holding a slash; its environment is an object whose values
    are all strings; every declared endpoint has a name, a type in lower case
    and a container port on each mapping; and a container whose first
    endpoint has a port mapping has a port of its own. *)
Theorem described_containers_are_well_described :
  forall (w : World) (tomlPath : string) (d : Defaults) (config : Descriptor.AppConfig),
    sha d <> EmptyString ->
    Descriptor.parseFromToml w tomlPath d = Ok config ->
    Forall well_described (Descriptor.config_containers config).
Proof.
  intros w tomlPath d config Hsha. unfold Descriptor.parseFromToml.
  destruct (readFileSync w tomlPath) as [raw|e]; cbn [rbind]; [|discriminate].
  destruct (TOML_parse w raw) as [parsed|e]; cbn [rbind]; [|discriminate].
  destruct (get parsed "name") as [pn|e]; cbn [rbind]; [|discriminate].
  destruct (get parsed "containers") as [pc|e]; cbn [rbind]; [|discriminate].
  destruct (Descriptor.array_map
              (Descriptor.container_of_toml w d (or_else pn (JString EmptyString)))
              (or_else pc (JArray []))) as [cs|e] eqn:Ecs; cbn [rbind]; [|discriminate].
  intros H; inversion H; subst config. cbn [Descriptor.config_containers].
  eapply array_map_forall; [|exact Ecs].
  intros i x y. apply container_of_toml_well_described. exact Hsha.
Qed.

Lemma described_containers_are_well_described_witness :
  exists config,
    Descriptor.parseFromToml shop_world "bunny.toml" (mkDefaults "ghcr.io/org" "abc123")
    = Ok config
    /\ map Descriptor.image (Descriptor.config_containers config)
       = [JString "ghcr.io/org/shop"]
    /\ map Descriptor.port (Descriptor.config_containers config) = [JNumber (Num 8080)]
    /\ Forall well_described (Descriptor.config_containers config).
Proof.
  eexists. split; [vm_compute; reflexivity|]. split; [reflexivity|]. split; [reflexivity|].
  refine (described_containers_are_well_described shop_world "bunny.toml"
            (mkDefaults "ghcr.io/org" "abc123") _ _ eq_refl).
  discriminate.
Defined.

(* ===================================================================== *)
(** ** What the steps add to the trace *)
(* ===================================================================== *)

Lemma count_app (p : Event -> bool) (a b : Trace) :
  count p (a ++ b)%list = (count p a + count p b)%nat.
Proof. unfold count. now rewrite filter_app, length_app. Qed.

Lemma adds_weaken {A : Type} (P Q : list Event -> Prop) (m : M A) :
  (forall evs, P evs -> Q evs) -> adds P m -> adds Q m.
Proof.
  intros HPQ Hm t t' r H. destruct (Hm t t' r H) as [evs [E HP]]. eauto.
Qed.

Lemma adds_bind {A B : Type} (P Q R : list Event -> Prop) (m : M A) (k : A -> M B) :
  adds P m -> (forall a, adds Q (k a)) ->
  (forall e1, P e1 -> R e1) ->
  (forall e1 e2, P e1 -> Q e2 -> R (e1 ++ e2)%list) ->
  adds R (bind m k).
Proof.
  intros Hm Hk Hstop Hboth t t' r H. unfold bind in H.
  destruct (m t) as [t1 [[a|e]|]] eqn:Em.
  - destruct (Hm _ _ _ Em) as [e1 [-> HP]].
    destruct (Hk a _ _ _ H) as [e2 [-> HQ]].
    exists (e1 ++ e2)%list. rewrite app_assoc. auto.
  - inversion H; subst. destruct (Hm _ _ _ Em) as [e1 [-> HP]]. eauto.
  - inversion H; subst. destruct (Hm _ _ _ Em) as [e1 [-> HP]]. eauto.
Qed.

Lemma bounded_le {A : Type} (p : Event -> bool) (a b : nat) (m : M A) :
  (a <= b)%nat -> bounded p a m -> bounded p b m.
Proof.
  intros Hab. apply adds_weaken. intros evs H. lia.
Qed.

Lemma bounded_bind {A B : Type} (p : Event -> bool) (a b : nat) (m : M A) (k : A -> M B) :
  bounded p a m -> (forall x, bounded p b (k x)) -> bounded p (a + b) (bind m k).
Proof.
  intros Hm Hk. eapply adds_bind; [exact Hm | exact Hk | |].
  - intros e1 H. cbv beta in *. lia.
  - intros e1 e2 H1 H2. cbv beta in *. rewrite count_app. lia.
Qed.

Lemma silent_bind {A B : Type} (p : Event -> bool) (m : M A) (k : A -> M B) :
  bounded p 0 m -> (forall x, bounded p 0 (k x)) -> bounded p 0 (bind m k).
Proof. intros Hm Hk. apply (bounded_bind p 0 0); assumption. Qed.

Lemma bounded_still {A : Type} (p : Event -> bool) (n : nat) (m : M A) :
  (forall t, fst (m t) = t) -> bounded p n m.
Proof.
  intros Hm t t' r H. exists []. pose proof (Hm t) as E. rewrite H in E. simpl in E.
  subst t'. rewrite app_nil_r. split; [reflexivity | cbn; lia].
Qed.

Lemma bounded_ret {A : Type} (p : Event -> bool) (n : nat) (a : A) : bounded p n (ret a).
Proof. apply bounded_still. reflexivity. Qed.

Lemma bounded_throw {A : Type} (p : Event -> bool) (n : nat) (e : JsError) :
  bounded p n (@throw A e).
Proof. apply bounded_still. reflexivity. Qed.

Lemma bounded_lift {A : Type} (p : Event -> bool) (n : nat) (r : Result A) :
  bounded p n (lift r).
Proof. apply bounded_still. reflexivity. Qed.

Lemma bounded_one_event {A : Type} (p : Event -> bool) (n : nat) (m : M A) (e : Event) :
  (forall t, fst (m t) = (t ++ [e])%list) -> (count p [e] <= n)%nat -> bounded p n m.
Proof.
  intros Hm Hn t t' r H. exists [e]. pose proof (Hm t) as E. rewrite H in E. simpl in E.
  auto.
Qed.

Lemma bounded_emit (p : Event -> bool) (n : nat) (e : Event) :
  (count p [e] <= n)%nat -> bounded p n (emit e).
Proof. apply bounded_one_event. reflexivity. Qed.

Lemma bounded_now (p : Event -> bool) (n : nat) (w : World) :
  (count p [EvDateNow] <= n)%nat -> bounded p n (now w).
Proof. apply bounded_one_event. reflexivity. Qed.

Lemma bounded_exec (p : Event -> bool) (n : nat) (w : World) (cmd : string)
    (args : list JsValue) (stdin : option string) :
  (count p [EvExec cmd args stdin] <= n)%nat -> bounded p n (exec w cmd args stdin).
Proof. apply bounded_one_event. reflexivity. Qed.

Lemma silent_for_each {A : Type} (p : Event -> bool) (xs : list A) (body : A -> M unit) :
  (forall x, bounded p 0 (body x)) -> bounded p 0 (for_each xs body).
Proof.
  intros Hbody. induction xs as [|x xs IH]; cbn [for_each].
  - apply bounded_ret.
  - apply silent_bind; [apply Hbody | intros _; exact IH].
Qed.

(** What one call adds: its debug line, the debug line of its body if it has
    one, and a single fetch. *)
Lemma api_adds (w : World) (method path apiKey : string) (body : option JsValue) :
  adds (fun evs =>
          exists dbg sent,
            evs = (EvDebug (method ++ " " ++ API_BASE ++ path) :: dbg
                   ++ [EvFetch method (API_BASE ++ path) apiKey sent])%list
            /\ (dbg = [] \/ exists text, dbg = [EvDebug text]))
       (api w method path apiKey body).
Proof.
  intros t t' r H. unfold api, bind, emit, ret, throw, lift in H.
  destruct body as [b|]; [destruct (truthy b)|]; cbn in H;
    match type of H with
    | context [fetch w ?tr ?m ?u ?k ?s] => destruct (fetch w tr m u k s) as [res|e]
    end;
    try (destruct (res_ok res); cbn in H;
         [destruct (res_text res =? EmptyString)%string; cbn in H|]);
    inversion H; subst; rewrite <- !app_assoc; cbn [app];
    eexists; (split; [reflexivity|]);
    first [ exists [], None; split; [reflexivity | left; reflexivity]
          | eexists [_], (Some _); split; [reflexivity | right; eauto] ].
Qed.

Lemma bounded_api (p : Event -> bool) (n : nat) (w : World)
    (method path apiKey : string) (body : option JsValue) :
  (forall text, p (EvDebug text) = false) ->
  (forall sent, count p [EvFetch method (API_BASE ++ path) apiKey sent] <= n)%nat ->
  bounded p n (api w method path apiKey body).
Proof.
  intros Hdbg Hfetch. eapply adds_weaken; [|apply api_adds].
  intros evs [dbg [sent [-> Hcase]]]. specialize (Hfetch sent). unfold count in *.
  cbn [filter]. rewrite Hdbg. rewrite filter_app.
  destruct Hcase as [->|[text ->]]; cbn [filter app] in *; [|rewrite Hdbg]; exact Hfetch.
Qed.

(** X8.  One call of [api] is one request: whatever the body and whatever
    the answer (a thrown fetch, a refusal, an empty or an unparsable text),
    exactly one fetch is issued, after the debug line of the call, and
    nothing is retried. *)
Theorem api_issues_exactly_one_request :
  forall (w : World) (method path apiKey : string) (body : option JsValue)
         (t t' : Trace) (r : option (Result JsValue)),
    api w method path apiKey body t = (t', r) ->
    exists evs,
      t' = (t ++ evs)%list
      /\ count is_fetch evs = 1%nat
      /\ hd_error evs = Some (EvDebug (method ++ " " ++ API_BASE ++ path))
      /\ (exists sent, last evs EvEndGroup = EvFetch method (API_BASE ++ path) apiKey sent)
      /\ r <> None.
Proof.
  intros w method path apiKey body t t' r H.
  destruct (api_adds w method path apiKey body t t' r H) as [evs [E [dbg [sent [Hevs Hcase]]]]].
  exists evs. split; [exact E|]. subst evs.
  split; [|split; [reflexivity|split]].
  - destruct Hcase as [->|[text ->]]; reflexivity.
  - exists sent. destruct Hcase as [->|[text ->]]; reflexivity.
  - unfold api, bind, emit, ret, throw, lift in H.
    destruct body as [b|]; [destruct (truthy b)|]; cbn in H;
      match type of H with
      | context [fetch w ?tr ?m ?u ?k ?s] => destruct (fetch w tr m u k s) as [res|e]
      end;
      try (destruct (res_ok res); cbn in H;
           [destruct (res_text res =? EmptyString)%string; cbn in H|]);
      inversion H; discriminate.
Qed.

Lemma api_issues_exactly_one_request_witness :
  exists evs,
    fst (api quiet_world "GET" "/registries" "key" None []) = ([] ++ evs)%list
    /\ count is_fetch evs = 1%nat.
Proof.
  destruct (api_issues_exactly_one_request quiet_world "GET" "/registries" "key" None []
              _ _ (surjective_pairing _))
    as [evs [E [Hc _]]].
  exists evs. split; [exact E | exact Hc].
Defined.

(* ===================================================================== *)
(** ** The run as a whole *)
(* ===================================================================== *)

Lemma silent_poll (p : Event -> bool) (w : World) (apiKey : string) (appId : JsValue)
    (deadline : JsNum) :
  (forall text, p (EvDebug text) = false) ->
  (forall text, p (EvInfo text) = false) ->
  (forall m u k b, p (EvFetch m u k b) = false) ->
  p EvDateNow = false -> (forall ms, p (EvSleep ms) = false) ->
  forall (fuel : nat) (status : JsValue),
    bounded p 0 (Action.poll w fuel apiKey appId deadline status).
Proof.
  intros Hd Hi Hf Hn Hs. induction fuel as [|fuel IH]; intros status; cbn [Action.poll].
  - apply bounded_still. reflexivity.
  - apply silent_bind; [apply bounded_now; unfold count; cbn; now rewrite Hn|].
    intros clock. destruct (num_lt (Num clock) deadline); [|apply bounded_ret].
    apply silent_bind.
    { apply bounded_api; [exact Hd|]. intros sent. unfold count; cbn. now rewrite Hf. }
    intros appStatus. apply silent_bind; [apply bounded_lift|]. intros st.
    apply silent_bind; [apply bounded_emit; unfold count; cbn; now rewrite Hi|]. intros _.
    destruct (strict_equal st (JString "Active")); [apply bounded_ret|].
    apply silent_bind; [apply bounded_emit; unfold count; cbn; now rewrite Hs|].
    intros _. apply IH.
Qed.

Lemma silent_older_poll (p : Event -> bool) (w : World) (apiKey : string) (appId : JsValue)
    (deadline : JsNum) :
  (forall text, p (EvDebug text) = false) ->
  (forall text, p (EvInfo text) = false) ->
  (forall m u k b, p (EvFetch m u k b) = false) ->
  p EvDateNow = false -> (forall ms, p (EvSleep ms) = false) ->
  forall (fuel : nat) (status : JsValue),
    bounded p 0 (Older.poll w fuel apiKey appId deadline status).
Proof.
  intros Hd Hi Hf Hn Hs. induction fuel as [|fuel IH]; intros status; cbn [Older.poll].
  - apply bounded_still. reflexivity.
  - apply silent_bind; [apply bounded_now; unfold count; cbn; now rewrite Hn|].
    intros clock. destruct (num_lt (Num clock) deadline); [|apply bounded_ret].
    apply silent_bind.
    { apply bounded_api; [exact Hd|]. intros sent. unfold count; cbn. now rewrite Hf. }
    intros appStatus. apply silent_bind; [apply bounded_lift|]. intros st.
    apply silent_bind; [apply bounded_emit; unfold count; cbn; now rewrite Hi|]. intros _.
    destruct (Older.is_active_or_running st); [apply bounded_ret|].
    apply silent_bind; [apply bounded_emit; unfold count; cbn; now rewrite Hs|].
    intros _. apply IH.
Qed.

(** Takes a computation apart and shows that none of its events is of the
    class at hand. *)
Ltac silence :=
  repeat first
    [ apply bounded_ret
    | apply bounded_throw
    | apply bounded_lift
    | apply bounded_emit; reflexivity
    | apply bounded_now; reflexivity
    | apply bounded_exec; reflexivity
    | apply bounded_api; [intros; reflexivity | intros; reflexivity]
    | apply silent_poll; intros; reflexivity
    | apply silent_older_poll; intros; reflexivity
    | apply silent_for_each; intros
    | apply silent_bind; [|intros]
    | match goal with
      | |- bounded _ _ (if ?c then _ else _) => destruct c
      | |- bounded _ _ (match ?c with _ => _ end) => destruct c
      end ].

Ltac open_steps :=
  unfold Action.build_and_push, Action.ensure_registries, Action.list_registries,
    Action.docker_hub_registry, Action.private_registry, Action.wait_for_deployment,
    Action.retrieve_url, Action.summary,
    Older.build_and_push, Older.ensure_registry, Older.create_endpoint,
    Older.wait_for_deployment, Older.retrieve_url, Older.summary,
    input, info, warning, startGroup, endGroup, setOutput, sleep;
  cbv zeta.

Lemma run_body_sets_no_failure (w : World) (fuel : nat) :
  bounded is_set_failed 0 (Action.run_body w fuel).
Proof.
  unfold Action.run_body. open_steps. silence.
Qed.

Lemma silent_add_containers (p : Event -> bool) (w : World) (apiKey : string)
    (appId registryId : JsValue) :
  (forall text, p (EvDebug text) = false) ->
  (forall text, p (EvInfo text) = false) ->
  (forall m u k b, p (EvFetch m u k b) = false) ->
  forall (containers : list ContainerDef) (idMap : Older.IdMap),
    bounded p 0 (Older.add_containers w apiKey appId registryId containers idMap).
Proof.
  intros Hd Hi Hf. induction containers as [|c rest IH]; intros idMap;
    cbn [Older.add_containers].
  - apply bounded_ret.
  - apply silent_bind; [apply bounded_emit; unfold count; cbn; now rewrite Hi|]. intros _.
    apply silent_bind.
    { apply bounded_api; [exact Hd|]. intros sent. unfold count; cbn. now rewrite Hf. }
    intros created. apply silent_bind; [apply bounded_lift|]. intros id.
    apply silent_bind; [apply bounded_emit; unfold count; cbn; now rewrite Hi|]. intros _.
    apply IH.
Qed.

Lemma older_run_body_sets_no_failure (w : World) (fuel : nat) :
  bounded is_set_failed 0 (Older.run_body w fuel).
Proof.
  unfold Older.run_body. open_steps.
  repeat first [ apply silent_add_containers; intros; reflexivity
               | progress silence ].
Qed.

Lemma caught_run (body : M unit) (t : Trace) (r : option (Result unit)) :
  bounded is_set_failed 0 body ->
  try_catch body on_error [] = (t, r) ->
  exists events,
    count is_set_failed events = 0%nat
    /\ ((body [] = (events, r) /\ t = events /\ (r = Some (Ok tt) \/ r = None))
        \/ (exists e e',
               body [] = (events, Some (Throw e))
               /\ t = (events ++ [EvSetFailed e'])%list
               /\ r = Some (Ok tt))).
Proof.
  intros Hquiet H. unfold try_catch in H.
  destruct (body []) as [events r0] eqn:Eb.
  destruct (Hquiet _ _ _ Eb) as [evs [E Hc]]. simpl in E. subst evs.
  exists events. split; [lia|].
  destruct r0 as [[[]|e]|].
  - inversion H; subst. left. auto.
  - right. destruct (on_error_event e events) as [e' He']. rewrite He' in H.
    inversion H; subst. eauto.
  - inversion H; subst. left. auto.
Qed.

(** X10.  A run never lets an exception out and sets failure at most once:
    either the body ends normally (or runs out of fuel) and no failure is
    set, or the body throws and the run ends normally with a single
    set-failed event, the last of the trace.  So it is in the current action
    and in the older variant. *)
Theorem run_catches_everything_and_fails_at_most_once :
  forall (w : World) (fuel : nat),
    (forall (t : Trace) (r : option (Result unit)),
        Action.run w fuel [] = (t, r) ->
        exists events,
          count is_set_failed events = 0%nat
          /\ ((Action.run_body w fuel [] = (events, r) /\ t = events
               /\ (r = Some (Ok tt) \/ r = None))
              \/ (exists e e',
                     Action.run_body w fuel [] = (events, Some (Throw e))
                     /\ t = (events ++ [EvSetFailed e'])%list
                     /\ r = Some (Ok tt))))
    /\ (forall (t : Trace) (r : option (Result unit)),
           Older.run w fuel [] = (t, r) ->
           exists events,
             count is_set_failed events = 0%nat
             /\ ((Older.run_body w fuel [] = (events, r) /\ t = events
                  /\ (r = Some (Ok tt) \/ r = None))
                 \/ (exists e e',
                        Older.run_body w fuel [] = (events, Some (Throw e))
                        /\ t = (events ++ [EvSetFailed e'])%list
                        /\ r = Some (Ok tt)))).
Proof.
  intros w fuel. split; intros t r H.
  - apply caught_run; [apply run_body_sets_no_failure | exact H].
  - apply caught_run; [apply older_run_body_sets_no_failure | exact H].
Qed.

Lemma run_catches_everything_and_fails_at_most_once_witness :
  snd (Action.run no_image_world 1 []) = Some (Ok tt)
  /\ exists events e',
       count is_set_failed events = 0%nat
       /\ fst (Action.run no_image_world 1 []) = (events ++ [EvSetFailed e'])%list.
Proof.
  destruct (proj1 (run_catches_everything_and_fails_at_most_once no_image_world 1)
              _ _ (surjective_pairing _))
    as [events [Hc [[Hb _] | [e [e' [_ [Ht Hr]]]]]]].
  - vm_compute in Hb. discriminate Hb.
  - split; [exact Hr|]. exists events, e'. split; [exact Hc | exact Ht].
Defined.

Lemma builds_then_calls_front {A B : Type} (m : M A) (k : A -> M B) :
  bounded is_fetch 0 m -> (forall x, adds builds_then_calls (k x)) ->
  adds builds_then_calls (bind m k).
Proof.
  intros Hm Hk. eapply adds_bind; [exact Hm | exact Hk | |].
  - intros e1 H. exists e1, []. rewrite app_nil_r. cbv beta in H.
    repeat split; try lia; reflexivity.
  - intros e1 e2 H [a [b [-> [Ha Hb]]]]. exists (e1 ++ a)%list, b.
    rewrite app_assoc. rewrite count_app. cbv beta in H.
    repeat split; try lia; exact Hb.
Qed.

Lemma builds_then_calls_rest {A : Type} (m : M A) :
  bounded is_exec 0 m -> adds builds_then_calls m.
Proof.
  apply adds_weaken. intros evs H. exists [], evs. repeat split; try lia; reflexivity.
Qed.

Lemma run_body_builds_then_calls (w : World) (fuel : nat) :
  adds builds_then_calls (Action.run_body w fuel).
Proof.
  unfold Action.run_body. cbv zeta.
  repeat (apply builds_then_calls_front; [solve [open_steps; silence] | intros]).
  apply builds_then_calls_rest. open_steps. silence.
Qed.

Lemma older_run_body_builds_then_calls (w : World) (fuel : nat) :
  adds builds_then_calls (Older.run_body w fuel).
Proof.
  unfold Older.run_body. cbv zeta.
  repeat (apply builds_then_calls_front; [solve [open_steps; silence] | intros]).
  apply builds_then_calls_rest. open_steps.
  repeat first [ apply silent_add_containers; intros; reflexivity
               | progress silence ].
Qed.

Lemma nothing_before_in_silent_part (p : Event -> bool) :
  forall (e1 e2 pre post : list Event) (e : Event),
    (e1 ++ e2)%list = (pre ++ e :: post)%list ->
    count p e1 = 0%nat -> p e = true ->
    exists mid, e2 = (mid ++ e :: post)%list.
Proof.
  induction e1 as [|x e1 IH]; intros e2 pre post e H Hc Hp.
  - simpl in H. subst e2. eauto.
  - destruct pre as [|y pre]; simpl in H; inversion H; subst.
    + unfold count in Hc. cbn [filter] in Hc. rewrite Hp in Hc. discriminate.
    + eapply IH; [eassumption | | exact Hp].
      unfold count in *. cbn [filter] in Hc. destruct (p y); [discriminate | exact Hc].
Qed.

Lemma no_exec_after_a_fetch (body : M unit) (t : Trace) (r : option (Result unit)) :
  adds builds_then_calls body ->
  try_catch body on_error [] = (t, r) ->
  forall (pre : list Event) (e : Event) (post : list Event),
    t = (pre ++ e :: post)%list -> is_fetch e = true -> count is_exec post = 0%nat.
Proof.
  intros Hbody H pre e post Ht He.
  assert (Hshape : exists e1 e2, t = (e1 ++ e2)%list
                                 /\ count is_fetch e1 = 0%nat /\ count is_exec e2 = 0%nat).
  { unfold try_catch in H. destruct (body []) as [events r0] eqn:Eb.
    destruct (Hbody _ _ _ Eb) as [evs [E [e1 [e2 [-> [H1 H2]]]]]]. simpl in E. subst events.
    destruct r0 as [[[]|x]|]; try (inversion H; subst; eauto).
    destruct (on_error_event x (e1 ++ e2)%list) as [e' He']. rewrite He' in H.
    inversion H; subst. exists e1, (e2 ++ [EvSetFailed e'])%list.
    rewrite app_assoc. rewrite count_app. rewrite H2.
    repeat split; try exact H1; reflexivity. }
  destruct Hshape as [e1 [e2 [E [H1 H2]]]]. rewrite E in Ht.
  destruct (nothing_before_in_silent_part is_fetch _ _ _ _ _ Ht H1 He) as [mid Hmid].
  rewrite Hmid in H2. rewrite count_app in H2.
  unfold count in *. cbn [filter] in H2.
  destruct (is_exec e); cbn [List.length] in H2; lia.
Qed.

(** X11.  Every image is built and pushed before the first platform call:
    in the trace of a run, no subprocess is started after an HTTP request.
    So it is in the current action and in the older variant. *)
Theorem no_subprocess_after_the_first_request :
  forall (w : World) (fuel : nat) (t : Trace) (r : option (Result unit))
         (pre : list Event) (e : Event) (post : list Event),
    Action.run w fuel [] = (t, r) \/ Older.run w fuel [] = (t, r) ->
    t = (pre ++ e :: post)%list -> is_fetch e = true ->
    count is_exec post = 0%nat.
Proof.
  intros w fuel t r pre e post [H|H] Ht He.
  - exact (no_exec_after_a_fetch _ _ _ (run_body_builds_then_calls w fuel) H pre e post Ht He).
  - exact (no_exec_after_a_fetch _ _ _ (older_run_body_builds_then_calls w fuel) H
             pre e post Ht He).
Qed.

Lemma no_subprocess_after_the_first_request_witness :
  exists (pre : list Event) (post : list Event),
    fst (Action.run build_world 5 [])
    = (pre ++ EvFetch "GET" "https://api.bunny.net/mc/registries" "key" None :: post)%list
    /\ count is_exec pre = 3%nat
    /\ count is_exec post = 0%nat.
Proof.
  exists (firstn 10 (fst (Action.run build_world 5 []))),
         (skipn 11 (fst (Action.run build_world 5 []))).
  assert (Hsplit : fst (Action.run build_world 5 [])
                   = (firstn 10 (fst (Action.run build_world 5 []))
                      ++ EvFetch "GET" "https://api.bunny.net/mc/registries" "key" None
                      :: skipn 11 (fst (Action.run build_world 5 [])))%list)
    by (vm_compute; reflexivity).
  split; [exact Hsplit|]. split; [vm_compute; reflexivity|].
  exact (no_subprocess_after_the_first_request build_world 5 _ _ _ _ _
           (or_introl (surjective_pairing _)) Hsplit eq_refl).
Defined.

(* ===================================================================== *)
(** ** More on registry provisioning *)
(* ===================================================================== *)

Lemma bounded_sub {A : Type} (p q : Event -> bool) (n : nat) (m : M A) :
  (forall e, p e = true -> q e = true) -> bounded q n m -> bounded p n m.
Proof.
  intros Hpq. apply adds_weaken. intros evs H.
  assert (Hle : (count p evs <= count q evs)%nat).
  { clear H. unfold count. induction evs as [|e evs IH]; [simpl; lia|].
    cbn [filter]. destruct (p e) eqn:Ep.
    - rewrite (Hpq e Ep). simpl. lia.
    - destruct (q e); simpl; lia. }
  lia.
Qed.

Lemma adds_both {A : Type} (P Q : list Event -> Prop) (m : M A) :
  adds P m -> adds Q m -> adds (fun evs => P evs /\ Q evs) m.
Proof.
  intros HP HQ t t' r H.
  destruct (HP _ _ _ H) as [e1 [E1 H1]]. destruct (HQ _ _ _ H) as [e2 [E2 H2]].
  rewrite E1 in E2. apply app_inv_head in E2. subst e2. eauto.
Qed.

Lemma bounded_bind_front {A B : Type} (p : Event -> bool) (n : nat) (m : M A)
    (k : A -> M B) :
  bounded p 0 m -> (forall x, bounded p n (k x)) -> bounded p n (bind m k).
Proof. intros Hm Hk. apply (bounded_bind p 0 n); assumption. Qed.

Lemma bounded_bind_back {A B : Type} (p : Event -> bool) (n : nat) (m : M A)
    (k : A -> M B) :
  bounded p n m -> (forall x, bounded p 0 (k x)) -> bounded p n (bind m k).
Proof.
  intros Hm Hk. apply (bounded_le p (n + 0) n); [lia|].
  apply (bounded_bind p n 0); assumption.
Qed.

(** Takes apart a computation that holds one call at most. *)
Ltac one_call :=
  repeat first
    [ apply bounded_ret
    | apply bounded_throw
    | apply bounded_lift
    | apply bounded_emit; unfold count; cbn; lia
    | apply bounded_api; [intros; reflexivity | intros; unfold count; cbn; lia]
    | apply bounded_bind_front; [solve [silence] | intros]
    | apply bounded_bind_back; [| intros; solve [silence]]
    | match goal with
      | |- bounded _ _ (if ?c then _ else _) => destruct c
      | |- bounded _ _ (match ?c with _ => _ end) => destruct c
      end ].

Lemma list_registries_calls_once (w : World) (apiKey : string) :
  bounded is_fetch 1 (Action.list_registries w apiKey)
  /\ bounded is_post 0 (Action.list_registries w apiKey).
Proof.
  split; unfold Action.list_registries; open_steps; [one_call | silence].
Qed.

Lemma docker_hub_registry_calls_once (w : World) (apiKey : string)
    (containers : list ContainerDef) (registryItems : JsValue) :
  bounded is_fetch 1 (Action.docker_hub_registry w apiKey containers registryItems).
Proof.
  unfold Action.docker_hub_registry; open_steps; one_call.
Qed.

Lemma private_registry_calls_once (w : World) (apiKey : string)
    (buildContainers : list ContainerDef)
    (bunnyRegistryName registryUsername registryPassword : string)
    (bunnyRegistryPat bunnyRegistryType : string) (ensureBunnyRegistry : bool)
    (registryItems : JsValue) :
  bounded is_fetch 1
    (Action.private_registry w apiKey buildContainers bunnyRegistryName registryUsername
       registryPassword bunnyRegistryPat bunnyRegistryType ensureBunnyRegistry
       registryItems).
Proof.
  unfold Action.private_registry; open_steps; one_call.
Qed.

Lemma post_is_fetch (e : Event) : is_post e = true -> is_fetch e = true.
Proof. destruct e; simpl; congruence. Qed.

(** X12.  The registry step of the current action issues at most three
    calls, of which at most two create something, and starts no subprocess,
    whatever the platform answers. *)
Theorem registry_step_issues_one_list_and_at_most_two_create_calls :
  forall (w : World) (apiKey : string) (containers buildContainers : list ContainerDef)
         (bunnyRegistryName registryUsername registryPassword : string)
         (bunnyRegistryPat bunnyRegistryType : string) (ensureBunnyRegistry : bool)
         (t t' : Trace) (r : option (Result (JsValue * JsValue))),
    Action.ensure_registries w apiKey containers buildContainers bunnyRegistryName
      registryUsername registryPassword bunnyRegistryPat bunnyRegistryType
      ensureBunnyRegistry t = (t', r) ->
    exists evs,
      t' = (t ++ evs)%list
      /\ (count is_fetch evs <= 3)%nat
      /\ (count is_post evs <= 2)%nat
      /\ count is_exec evs = 0%nat.
Proof.
  intros w apiKey containers bcs bname user pass pat type ensure t t' r H.
  assert (Hfetch : bounded is_fetch 3
                     (Action.ensure_registries w apiKey containers bcs bname user pass
                        pat type ensure)).
  { unfold Action.ensure_registries.
    apply bounded_bind_front; [open_steps; silence|]. intros _.
    apply (bounded_bind is_fetch 1 2); [apply list_registries_calls_once|]. intros items.
    apply (bounded_bind is_fetch 1 1); [apply docker_hub_registry_calls_once|]. intros dh.
    apply bounded_bind_back; [apply private_registry_calls_once|].
    intros pr. open_steps. silence. }
  assert (Hpost : bounded is_post 2
                    (Action.ensure_registries w apiKey containers bcs bname user pass
                       pat type ensure)).
  { unfold Action.ensure_registries.
    apply bounded_bind_front; [open_steps; silence|]. intros _.
    apply bounded_bind_front; [apply list_registries_calls_once|]. intros items.
    apply (bounded_bind is_post 1 1).
    { apply (bounded_sub is_post is_fetch); [exact post_is_fetch|].
      apply docker_hub_registry_calls_once. }
    intros dh. apply bounded_bind_back.
    { apply (bounded_sub is_post is_fetch); [exact post_is_fetch|].
      apply private_registry_calls_once. }
    intros pr. open_steps. silence. }
  assert (Hexec : bounded is_exec 0
                    (Action.ensure_registries w apiKey containers bcs bname user pass
                       pat type ensure)).
  { unfold Action.ensure_registries. open_steps. silence. }
  destruct (adds_both _ _ _ Hfetch (adds_both _ _ _ Hpost Hexec) _ _ _ H)
    as [evs [E [H1 [H2 H3]]]].
  exists evs. repeat split; try assumption. lia.
Qed.

Lemma registry_step_issues_one_list_and_at_most_two_create_calls_witness :
  exists evs,
    fst (Action.ensure_registries ghcr_world "key" [api_container; redis_container]
           [api_container] "ghcr" "octocat" "pw" "pat" "GitHub" true [])
    = ([] ++ evs)%list
    /\ (count is_post evs <= 2)%nat.
Proof.
  destruct (registry_step_issues_one_list_and_at_most_two_create_calls
              ghcr_world "key" [api_container; redis_container] [api_container]
              "ghcr" "octocat" "pw" "pat" "GitHub" true [] _ _ (surjective_pairing _))
    as [evs [E [_ [Hp _]]]].
  exists evs. split; [exact E | exact Hp].
Defined.

(** X13.  With provisioning of the private registry not enabled, the
    private-registry block never calls the platform: whatever the list
    holds, it reuses a listed registry or leaves the id undefined. *)
Theorem private_registry_is_never_created_unless_enabled :
  forall (w : World) (apiKey : string) (buildContainers : list ContainerDef)
         (bunnyRegistryName registryUsername registryPassword : string)
         (bunnyRegistryPat bunnyRegistryType : string) (registryItems : JsValue)
         (t t' : Trace) (r : option (Result JsValue)),
    Action.private_registry w apiKey buildContainers bunnyRegistryName registryUsername
      registryPassword bunnyRegistryPat bunnyRegistryType false registryItems t = (t', r) ->
    exists evs, t' = (t ++ evs)%list /\ count is_fetch evs = 0%nat.
Proof.
  intros w apiKey bcs bname user pass pat type items t t' r H.
  assert (Hsilent : bounded is_fetch 0
                      (Action.private_registry w apiKey bcs bname user pass pat type
                         false items)).
  { unfold Action.private_registry. open_steps. silence. }
  destruct (Hsilent _ _ _ H) as [evs [E Hc]]. exists evs. split; [exact E | lia].
Qed.

Lemma private_registry_is_never_created_unless_enabled_witness :
  exists evs,
    fst (Action.private_registry ghcr_world "key" [api_container] "quay" "octocat" "pw"
           "pat" "GitHub" false (JArray ghcr_listed) [])
    = ([] ++ evs)%list
    /\ count is_fetch evs = 0%nat.
Proof.
  exact (private_registry_is_never_created_unless_enabled
           ghcr_world "key" [api_container] "quay" "octocat" "pw" "pat" "GitHub"
           (JArray ghcr_listed) [] _ _ (surjective_pairing _)).
Defined.

Lemma is_docker_hub_readable (w : World) (r : JsValue) :
  display_name_readable r -> Action.is_docker_hub w r = Ok (docker_hub_like w r).
Proof.
  intros [v [Hv Hcase]]. unfold Action.is_docker_hub, docker_hub_like.
  destruct (get_total_after _ _ _ Hv "hostName") as [h Hh]. rewrite Hh; cbn [rbind].
  destruct (strict_equal h (JString "docker.io")); [reflexivity|].
  rewrite Hv; cbn [rbind]. destruct Hcase as [->|[->|[s ->]]]; reflexivity.
Qed.

Lemma docker_hub_like_is_object (w : World) (r : JsValue) :
  docker_hub_like w r = true -> truthy r = true.
Proof.
  destruct r; cbn; try discriminate; reflexivity.
Qed.

(** X14.  With a pulled container present, a list of readable registry
    entries that holds a Docker Hub one (host docker.io, or a display name
    holding docker in any letter case) makes the Docker Hub block issue no
    call: it logs the find and yields the id of the first such entry, as a
    string. *)
Theorem listed_docker_hub_registry_is_reused_without_any_call :
  forall (w : World) (apiKey : string) (containers : list ContainerDef)
         (items : list JsValue) (t : Trace),
    (exists c, In c containers /\ build c = false) ->
    Forall display_name_readable items ->
    (exists r, In r items /\ docker_hub_like w r = true) ->
    exists (pre : list JsValue) (r : JsValue) (post : list JsValue) (id displayName : JsValue),
      items = (pre ++ r :: post)%list
      /\ Forall (fun x => docker_hub_like w x = false) pre
      /\ docker_hub_like w r = true
      /\ get r "id" = Ok id
      /\ get r "displayName" = Ok displayName
      /\ Action.docker_hub_registry w apiKey containers (JArray items) t
         = ((t ++ [EvInfo ("Using Docker Hub registry: " ++ ToString displayName
                           ++ " (id: " ++ ToString id ++ ")")])%list,
            Some (Ok (JString (ToString id)))).
Proof.
  intros w apiKey containers items t [c [Hc Hpulled]] Hread [r0 [Hin0 Hlike0]].
  destruct (find_exists (docker_hub_like w) items r0 Hin0 Hlike0) as [r Hfind].
  destruct (find_some_split _ _ _ Hfind) as [pre [post [Hsplit [Hpre Hr]]]].
  assert (Hreadable : display_name_readable r).
  { rewrite Forall_forall in Hread. apply Hread. rewrite Hsplit.
    apply in_or_app. right. left. reflexivity. }
  destruct Hreadable as [dn [Hdn _]].
  destruct (get_total_after _ _ _ Hdn "id") as [id Hid].
  exists pre, r, post, id, dn.
  split; [exact Hsplit|]. split; [exact Hpre|]. split; [exact Hr|].
  split; [exact Hid|]. split; [exact Hdn|].
  unfold Action.docker_hub_registry.
  assert (Hpublic : existsb (fun c0 => negb (build c0)) containers = true).
  { apply existsb_exists. exists c. split; [exact Hc | now rewrite Hpulled]. }
  rewrite Hpublic. unfold array_find.
  rewrite (find_result_pure _ (docker_hub_like w))
    by (eapply Forall_impl; [|exact Hread]; intros x Hx;
        apply is_docker_hub_readable; exact Hx).
  rewrite Hfind. cbn [rbind]. rewrite bind_lift.
  rewrite (docker_hub_like_is_object w r Hr).
  rewrite bind_lift, Hid. rewrite bind_lift, Hdn. reflexivity.
Qed.

Lemma hub_listed_readable : Forall display_name_readable hub_listed.
Proof.
  repeat constructor.
  - exists (JString "GHCR"). split; [reflexivity|]. right. right. eauto.
  - exists (JString "Public images"). split; [reflexivity|]. right. right. eauto.
Qed.

Lemma listed_docker_hub_registry_is_reused_without_any_call_witness :
  Action.docker_hub_registry ghcr_world "key" [api_container; redis_container]
    (JArray hub_listed) []
  = ([EvInfo "Using Docker Hub registry: Public images (id: 4)"],
     Some (Ok (JString "4"))).
Proof.
  destruct (listed_docker_hub_registry_is_reused_without_any_call
              ghcr_world "key" [api_container; redis_container] hub_listed [])
    as [pre [r [post [id [dn [_ [_ [_ [_ [_ Hrun]]]]]]]]]].
  - exists redis_container. split; [right; left; reflexivity | reflexivity].
  - exact hub_listed_readable.
  - exists (JObject [("id", JNumber (Num 4)); ("displayName", JString "Public images");
                     ("hostName", JString "docker.io")]).
    split; [right; left; reflexivity | reflexivity].
  - reflexivity.
Defined.
(* ===================================================================== *)
(** ** The build step and the deployed URL *)
(* ===================================================================== *)

Lemma executions_app (a b : Trace) :
  executions (a ++ b)%list = (executions a ++ executions b)%list.
Proof.
  induction a as [|e a IH]; [reflexivity|].
  destruct e; cbn [app executions]; rewrite IH; reflexivity.
Qed.

Lemma runs_prefix_bind (p1 p2 : list (string * list JsValue * option string))
    (m k : M unit) :
  runs_prefix p1 m -> runs_prefix p2 k -> runs_prefix (p1 ++ p2)%list (m ;; k).
Proof.
  intros Hm Hk t. unfold bind.
  destruct (Hm t) as [e1 [r1 [E1 [P1 [D1 [N1 F1]]]]]].
  destruct (m t) as [t1 [[[]|err]|]] eqn:Em; cbn [fst snd] in *.
  - subst t1. rewrite (D1 eq_refl), app_nil_r in P1. subst p1.
    destruct (Hk (t ++ e1)%list) as [e2 [r2 [E2 [P2 [D2 [N2 F2]]]]]].
    exists (e1 ++ e2)%list, r2. rewrite E2, executions_app, count_app, F1, F2.
    rewrite <- !app_assoc, <- P2. auto.
  - subst t1. exists e1, (r1 ++ p2)%list. rewrite app_assoc, <- P1.
    repeat split; try assumption; discriminate.
  - congruence.
Qed.

Lemma runs_prefix_emit (e : Event) :
  is_exec e = false -> is_fetch e = false -> runs_prefix [] (emit e).
Proof.
  intros He Hf t. exists [e], []. cbn [emit fst snd]. unfold count. cbn [filter].
  rewrite Hf. destruct e; try discriminate; repeat split; auto; discriminate.
Qed.

Lemma runs_prefix_ret : runs_prefix [] (ret tt).
Proof.
  intros t. exists [], []. cbn. rewrite app_nil_r. repeat split; auto; discriminate.
Qed.

Lemma runs_prefix_exec (w : World) (cmd : string) (args : list JsValue)
    (stdin : option string) :
  runs_prefix [(cmd, args, stdin)] (exec w cmd args stdin).
Proof.
  intros t. unfold exec. cbn [fst snd].
  exists [EvExec cmd args stdin], []. repeat split; auto; try discriminate.
Qed.

Lemma runs_prefix_for_each (w : World) (cs : list ContainerDef) :
  runs_prefix (flat_map docker_calls cs)
    (for_each cs (fun c =>
       info ("Building " ++ ToString (name c) ++ " -> " ++ Action.fullRef c) ;;
       exec w "docker"
         [JString "build"; JString "-t"; JString (Action.fullRef c); JString "-f";
          dockerfile c; JString "--platform"; JString "linux/amd64"; context c]
         None ;;
       info ("Pushing " ++ Action.fullRef c) ;;
       exec w "docker" [JString "push"; JString (Action.fullRef c)] None)).
Proof.
  induction cs as [|c cs IH]; cbn [for_each flat_map].
  - apply runs_prefix_ret.
  - apply runs_prefix_bind; [|exact IH].
    change (docker_calls c)
      with ([] ++ [("docker",
                    [JString "build"; JString "-t"; JString (Action.fullRef c);
                     JString "-f"; dockerfile c; JString "--platform";
                     JString "linux/amd64"; context c], @None string)]
               ++ [] ++ [("docker", [JString "push"; JString (Action.fullRef c)],
                          @None string)])%list.
    apply runs_prefix_bind; [apply runs_prefix_emit; reflexivity|].
    apply runs_prefix_bind; [apply runs_prefix_exec|].
    apply runs_prefix_bind; [apply runs_prefix_emit; reflexivity|].
    apply runs_prefix_exec.
Qed.

Lemma build_and_push_runs_the_plan (w : World)
    (registry registryUsername registryPassword : string) (cs : list ContainerDef) :
  runs_prefix (build_plan registry registryUsername registryPassword cs)
    (Action.build_and_push w registry registryUsername registryPassword cs).
Proof.
  unfold Action.build_and_push, build_plan. destruct cs as [|c cs].
  - apply runs_prefix_ret.
  - cbn [List.length Nat.ltb Nat.leb].
    set (login := if negb (registryPassword =? EmptyString)%string
                  then [login_call registry registryUsername registryPassword] else []).
    replace (login ++ flat_map docker_calls (c :: cs))%list
      with ([] ++ login ++ flat_map docker_calls (c :: cs) ++ [])%list
      by (now rewrite app_nil_r).
    apply (runs_prefix_bind []); [apply runs_prefix_emit; reflexivity|].
    apply runs_prefix_bind.
    + subst login. destruct (negb (registryPassword =? EmptyString)%string);
        [apply runs_prefix_exec | apply runs_prefix_ret].
    + apply runs_prefix_bind; [apply runs_prefix_for_each|].
      apply runs_prefix_emit; reflexivity.
Qed.

(** X15.  The build step, in both variants, ends whatever the subprocesses
    do, issues no HTTP call, and runs docker exactly as planned up to where
    it stopped: the login when a password is given, then build and push for
    each container in the order of the list; when the step ends without
    error every planned call was made, and for an empty list none is. *)
Theorem build_step_runs_the_planned_docker_calls_in_order :
  forall (w : World) (registry registryUsername registryPassword : string)
         (buildContainers : list ContainerDef) (t : Trace),
    Older.build_and_push w registry registryUsername registryPassword buildContainers t
    = Action.build_and_push w registry registryUsername registryPassword buildContainers t
    /\ exists (evs : list Event) (rest : list (string * list JsValue * option string)),
         fst (Action.build_and_push w registry registryUsername registryPassword
                buildContainers t) = (t ++ evs)%list
         /\ build_plan registry registryUsername registryPassword buildContainers
            = (executions evs ++ rest)%list
         /\ (snd (Action.build_and_push w registry registryUsername registryPassword
                    buildContainers t) = Some (Ok tt) -> rest = [])
         /\ snd (Action.build_and_push w registry registryUsername registryPassword
                   buildContainers t) <> None
         /\ count is_fetch evs = 0%nat.
Proof.
  intros w registry registryUsername registryPassword cs t. split; [reflexivity|].
  exact (build_and_push_runs_the_plan w registry registryUsername registryPassword cs t).
Qed.

Lemma startsWith_https (s : string) : startsWith ("https://" ++ s) "http" = true.
Proof. reflexivity. Qed.

(** X16.  For a string hostname the deployed URL is computed without error,
    alike in both variants: it is empty exactly for the empty hostname;
    otherwise it begins with http and is the hostname itself or the hostname
    behind https://; and computing the URL of a URL changes nothing. *)
Theorem deployed_url_is_empty_or_begins_with_http :
  forall hostname : string,
    exists appUrl : string,
      Action.appUrl_of (JString hostname) = Ok (JString appUrl)
      /\ Older.appUrl_of (JString hostname) = Ok (JString appUrl)
      /\ (appUrl = EmptyString <-> hostname = EmptyString)
      /\ (hostname <> EmptyString -> startsWith appUrl "http" = true)
      /\ (appUrl = hostname \/ appUrl = "https://" ++ hostname)
      /\ Action.appUrl_of (JString appUrl) = Ok (JString appUrl).
Proof.
  intros [|c s].
  - exists EmptyString. cbn. intuition.
  - unfold Action.appUrl_of, Older.appUrl_of. cbn [truthy].
    change (negb (String c s =? EmptyString)%string) with true. cbv iota.
    destruct (startsWith (String c s) "http") eqn:Eh.
    + exists (String c s). cbn [truthy].
      change (negb (String c s =? EmptyString)%string) with true. cbv iota.
      rewrite Eh. repeat split; auto; discriminate.
    + exists ("https://" ++ String c s).
      change (truthy (JString ("https://" ++ String c s))) with true. cbv iota.
      rewrite startsWith_https. repeat split; auto; discriminate.
Qed.

Lemma build_step_runs_the_planned_docker_calls_in_order_witness :
  executions (fst (Action.build_and_push build_world "ghcr.io/org" "octocat" "pw"
                     [api_container] []))
  = build_plan "ghcr.io/org" "octocat" "pw" [api_container].
Proof.
  destruct (build_step_runs_the_planned_docker_calls_in_order
              build_world "ghcr.io/org" "octocat" "pw" [api_container] [])
    as [_ [evs [rest [E [P [D _]]]]]].
  rewrite E, P, (D eq_refl), app_nil_r. reflexivity.
Defined.

Lemma deployed_url_is_empty_or_begins_with_http_witness :
  Action.appUrl_of (JString "shop.example.net") = Ok (JString "https://shop.example.net").
Proof.
  destruct (deployed_url_is_empty_or_begins_with_http "shop.example.net")
    as [appUrl [Ha [_ [_ [Hs [[->| ->] _]]]]]].
  - assert (Hne : "shop.example.net" <> EmptyString) by discriminate.
    specialize (Hs Hne). vm_compute in Hs. discriminate Hs.
  - exact Ha.
Defined.
(* ===================================================================== *)
(** ** Failed requests *)
(* ===================================================================== *)

Lemma substring_whole (s : string) : substring 0 (String.length s) s = s.
Proof. induction s as [|c s IH]; cbn; [reflexivity | now rewrite IH]. Qed.

Lemma path_of_base (path : string) : path_of (API_BASE ++ path) = path.
Proof. unfold path_of, API_BASE. cbn. rewrite Nat.sub_0_r. apply substring_whole. Qed.

Lemma refusal_is_fetch (w : World) (before : Trace) (e : Event) (err : JsError) :
  refusal w before e = Some err -> is_fetch e = true.
Proof. destruct e; cbn; (discriminate || reflexivity). Qed.

Lemma count_zero_in (p : Event -> bool) (pre post : list Event) (e : Event) :
  count p (pre ++ e :: post)%list = 0%nat -> p e = false.
Proof.
  rewrite count_app. unfold count. cbn [filter]. destruct (p e); cbn [List.length]; [lia|auto].
Qed.

Lemma stops_quiet {A : Type} (w : World) (m : M A) :
  bounded is_fetch 0 m -> stops_at_refusal w m.
Proof.
  intros Hm t. destruct (m t) as [t' r] eqn:Em.
  destruct (Hm _ _ _ Em) as [evs [-> Hc]]. exists evs. split; [reflexivity|].
  intros pre e post err -> Href. apply refusal_is_fetch in Href.
  assert (H0 : count is_fetch (pre ++ e :: post)%list = 0%nat) by lia.
  apply count_zero_in in H0. congruence.
Qed.

Lemma stops_bind {A B : Type} (w : World) (m : M A) (k : A -> M B) :
  stops_at_refusal w m -> (forall a, stops_at_refusal w (k a)) ->
  stops_at_refusal w (bind m k).
Proof.
  intros Hm Hk t. unfold bind.
  destruct (Hm t) as [e1 [E1 H1]].
  destruct (m t) as [t1 [[a|err0]|]] eqn:Em; cbn [fst snd] in *; subst t1.
  - destruct (Hk a (t ++ e1)%list) as [e2 [E2 H2]].
    exists (e1 ++ e2)%list. split; [now rewrite E2, app_assoc|].
    intros pre e post err Heq Href.
    apply app_eq_app in Heq. destruct Heq as [l [[Ha Hb]|[Ha Hb]]].
    + destruct l as [|x l].
      * rewrite app_nil_r in Ha. subst e1. cbn [app] in Hb.
        apply (H2 [] e post err); [now rewrite Hb | now rewrite app_nil_r].
      * cbn [app] in Hb. inversion Hb; subst x post.
        destruct (H1 pre e l err Ha Href) as [_ Habs]. discriminate.
    + subst pre. apply (H2 l e post err); [exact Hb | now rewrite <- app_assoc].
  - exists e1. split; [reflexivity|]. intros pre e post err Heq Href.
    destruct (H1 pre e post err Heq Href) as [-> Hthrow]. split; [reflexivity|].
    congruence.
  - exists e1. split; [reflexivity|]. intros pre e post err Heq Href.
    destruct (H1 pre e post err Heq Href) as [_ Hthrow]. discriminate.
Qed.

Lemma last_fetch_split (quiet pre post : list Event) (f e : Event) :
  count is_fetch quiet = 0%nat ->
  (quiet ++ [f])%list = (pre ++ e :: post)%list ->
  is_fetch e = true ->
  pre = quiet /\ e = f /\ post = [].
Proof.
  revert pre. induction quiet as [|q quiet IH]; intros pre Hq Heq He.
  - destruct pre as [|p pre]; cbn in Heq.
    + inversion Heq; auto.
    + inversion Heq. destruct pre; discriminate.
  - unfold count in Hq. cbn [filter] in Hq. destruct (is_fetch q) eqn:Eq;
      [cbn in Hq; lia|].
    destruct pre as [|p pre]; cbn in Heq; inversion Heq; subst.
    + congruence.
    + destruct (IH pre Hq H1 He) as [-> [-> ->]]. auto.
Qed.

Lemma stops_api (w : World) (method path apiKey : string) (body : option JsValue) :
  stops_at_refusal w (api w method path apiKey body).
Proof.
  intros t.
  set (sent := match body with
               | Some b => if truthy b then Some (JSON_stringify w b 0) else None
               | None => None
               end).
  set (quiet := (EvDebug (method ++ " " ++ API_BASE ++ path)
                 :: match body with
                    | Some b => if truthy b then [EvDebug (JSON_stringify w b 2)] else []
                    | None => []
                    end)%list).
  assert (Hrun : api w method path apiKey body t
                 = ((t ++ quiet ++ [EvFetch method (API_BASE ++ path) apiKey sent])%list,
                    Some (let? res := fetch w (t ++ quiet)%list method (API_BASE ++ path)
                                        apiKey sent in
                          if negb (res_ok res)
                          then Throw (Error ("API " ++ method ++ " " ++ path ++ " failed ("
                                             ++ string_of_Z (res_status res) ++ "): "
                                             ++ res_text res))
                          else if negb (res_text res =? EmptyString)%string
                               then JSON_parse w (res_text res)
                               else Ok JNull))).
  { unfold api, bind, emit, ret, throw, lift. subst sent quiet.
    destruct body as [b|]; [destruct (truthy b)|]; cbn [app];
      rewrite <- ?app_assoc; cbn [app];
      match goal with
      | |- context [fetch w ?tr ?m ?u ?k ?s] => destruct (fetch w tr m u k s) as [res|e]
      end; cbn [rbind]; try reflexivity;
      destruct (res_ok res); cbn [negb]; try reflexivity;
      destruct (res_text res =? EmptyString)%string; reflexivity. }
  exists (quiet ++ [EvFetch method (API_BASE ++ path) apiKey sent])%list.
  rewrite Hrun. cbn [fst snd]. split; [reflexivity|].
  intros pre e post err Heq Href.
  assert (Hq : count is_fetch quiet = 0%nat).
  { subst quiet. destruct body as [b|]; [destruct (truthy b)|]; reflexivity. }
  destruct (last_fetch_split _ _ _ _ _ Hq Heq (refusal_is_fetch _ _ _ _ Href))
    as [-> [-> ->]].
  split; [reflexivity|]. cbn [refusal] in Href.
  destruct (fetch w (t ++ quiet)%list method (API_BASE ++ path) apiKey sent) as [res|e0];
    cbn [rbind]; [|congruence].
  rewrite path_of_base in Href. destruct (res_ok res); cbn [negb]; congruence.
Qed.

Lemma stops_poll (w : World) (apiKey : string) (appId : JsValue) (deadline : JsNum) :
  forall (fuel : nat) (status : JsValue),
    stops_at_refusal w (Action.poll w fuel apiKey appId deadline status).
Proof.
  induction fuel as [|fuel IH]; intros status; cbn [Action.poll].
  - apply stops_quiet, bounded_still. reflexivity.
  - apply stops_bind; [apply stops_quiet, bounded_now; reflexivity|].
    intros clock. destruct (num_lt (Num clock) deadline);
      [|apply stops_quiet, bounded_ret].
    apply stops_bind; [apply stops_api|]. intros appStatus.
    apply stops_bind; [apply stops_quiet, bounded_lift|]. intros st.
    apply stops_bind; [apply stops_quiet, bounded_emit; reflexivity|]. intros _.
    destruct (strict_equal st (JString "Active")); [apply stops_quiet, bounded_ret|].
    apply stops_bind; [apply stops_quiet, bounded_emit; reflexivity|].
    intros _. apply IH.
Qed.

Lemma stops_older_poll (w : World) (apiKey : string) (appId : JsValue) (deadline : JsNum) :
  forall (fuel : nat) (status : JsValue),
    stops_at_refusal w (Older.poll w fuel apiKey appId deadline status).
Proof.
  induction fuel as [|fuel IH]; intros status; cbn [Older.poll].
  - apply stops_quiet, bounded_still. reflexivity.
  - apply stops_bind; [apply stops_quiet, bounded_now; reflexivity|].
    intros clock. destruct (num_lt (Num clock) deadline);
      [|apply stops_quiet, bounded_ret].
    apply stops_bind; [apply stops_api|]. intros appStatus.
    apply stops_bind; [apply stops_quiet, bounded_lift|]. intros st.
    apply stops_bind; [apply stops_quiet, bounded_emit; reflexivity|]. intros _.
    destruct (Older.is_active_or_running st); [apply stops_quiet, bounded_ret|].
    apply stops_bind; [apply stops_quiet, bounded_emit; reflexivity|].
    intros _. apply IH.
Qed.

Lemma stops_add_containers (w : World) (apiKey : string) (appId registryId : JsValue) :
  forall (containers : list ContainerDef) (idMap : Older.IdMap),
    stops_at_refusal w (Older.add_containers w apiKey appId registryId containers idMap).
Proof.
  induction containers as [|c rest IH]; intros idMap; cbn [Older.add_containers].
  - apply stops_quiet, bounded_ret.
  - apply stops_bind; [apply stops_quiet, bounded_emit; reflexivity|]. intros _.
    apply stops_bind; [apply stops_api|]. intros created.
    apply stops_bind; [apply stops_quiet, bounded_lift|]. intros id.
    apply stops_bind; [apply stops_quiet, bounded_emit; reflexivity|]. intros _.
    apply IH.
Qed.

(** Takes a computation apart down to its requests. *)
Ltac halt :=
  repeat first
    [ apply stops_api
    | apply stops_poll
    | apply stops_older_poll
    | apply stops_add_containers
    | apply stops_bind; [|intros]
    | match goal with
      | |- stops_at_refusal _ (if ?c then _ else _) => destruct c
      | |- stops_at_refusal _ (match ?c with _ => _ end) => destruct c
      end
    | solve [apply stops_quiet; silence] ].

Lemma run_body_stops_at_refusal (w : World) (fuel : nat) :
  stops_at_refusal w (Action.run_body w fuel).
Proof.
  unfold Action.run_body. open_steps. halt.
Qed.

Lemma older_run_body_stops_at_refusal (w : World) (fuel : nat) :
  stops_at_refusal w (Older.run_body w fuel).
Proof.
  unfold Older.run_body. open_steps. halt.
Qed.

Lemma on_error_shown (e : JsError) (t : Trace) :
  on_error e t = ((t ++ [EvSetFailed (shown e)])%list, Some (Ok tt)).
Proof. destruct e as [| | |v]; try reflexivity. destruct v; reflexivity. Qed.

Lemma snoc_split (evs pre post : list Event) (x e : Event) :
  (evs ++ [x])%list = (pre ++ e :: post)%list -> e <> x ->
  exists post', evs = (pre ++ e :: post')%list /\ post = (post' ++ [x])%list.
Proof.
  revert evs. induction pre as [|p pre IH]; intros evs Heq Hne.
  - destruct evs as [|a evs]; cbn in Heq; inversion Heq; subst.
    + congruence.
    + exists evs. auto.
  - destruct evs as [|a evs]; cbn in Heq; inversion Heq; subst.
    + destruct pre; discriminate.
    + destruct (IH evs H1 Hne) as [post' [-> ->]]. exists post'. auto.
Qed.

Lemma caught_at_refusal (w : World) (body : M unit) (t pre post : Trace) (e : Event)
    (err : JsError) :
  stops_at_refusal w body ->
  fst (try_catch body on_error t) = (t ++ pre ++ e :: post)%list ->
  refusal w (t ++ pre)%list e = Some err ->
  try_catch body on_error t
  = ((t ++ pre ++ [e; EvSetFailed (shown err)])%list, Some (Ok tt)).
Proof.
  intros Hbody Hfst Href. unfold try_catch in *.
  destruct (Hbody t) as [evs [E Hstop]].
  destruct (body t) as [t1 [[[]|e0]|]] eqn:Eb; cbn [fst] in E; subst t1;
    cbn [fst snd] in *.
  - apply app_inv_head in Hfst. destruct (Hstop _ _ _ _ Hfst Href); discriminate.
  - rewrite on_error_shown in *. cbn [fst] in Hfst.
    rewrite <- app_assoc in Hfst. apply app_inv_head in Hfst.
    destruct (snoc_split _ _ _ _ _ Hfst) as [post' [Hevs Hpost]].
    { apply refusal_is_fetch in Href. destruct e; discriminate. }
    destruct (Hstop _ _ _ _ Hevs Href) as [-> Hthrow].
    inversion Hthrow; subst. rewrite <- !app_assoc. reflexivity.
  - apply app_inv_head in Hfst. destruct (Hstop _ _ _ _ Hfst Href); discriminate.
Qed.

(** X9.  A run, of the current action or of the older variant, stops at the
    first request that fails: when a request of the run is answered with a
    status that is not ok, or fetch throws, nothing follows that request but
    the set-failed event, which carries the error of the request (for a
    refusal: method, path, status and response text), and the run itself
    ends normally. *)
Theorem run_stops_at_the_first_failed_request :
  forall (w : World) (fuel : nat) (t pre post : Trace) (e : Event) (err : JsError),
    refusal w (t ++ pre)%list e = Some err ->
    (fst (Action.run w fuel t) = (t ++ pre ++ e :: post)%list ->
     Action.run w fuel t
     = ((t ++ pre ++ [e; EvSetFailed (shown err)])%list, Some (Ok tt)))
    /\ (fst (Older.run w fuel t) = (t ++ pre ++ e :: post)%list ->
        Older.run w fuel t
        = ((t ++ pre ++ [e; EvSetFailed (shown err)])%list, Some (Ok tt))).
Proof.
  intros w fuel t pre post e err Href. split; intros Hfst.
  - exact (caught_at_refusal w _ t pre post e err
             (run_body_stops_at_refusal w fuel) Hfst Href).
  - exact (caught_at_refusal w _ t pre post e err
             (older_run_body_stops_at_refusal w fuel) Hfst Href).
Qed.

Lemma run_stops_at_the_first_failed_request_witness :
  refusal denied_world (firstn 10 (fst (Action.run denied_world 0 [])))
    (EvFetch "GET" "https://api.bunny.net/mc/registries" "key" None)
  = Some (Error "API GET /registries failed (401): denied")
  /\ Action.run denied_world 0 []
     = ((firstn 10 (fst (Action.run denied_world 0 []))
         ++ [EvFetch "GET" "https://api.bunny.net/mc/registries" "key" None;
             EvSetFailed (Error "API GET /registries failed (401): denied")])%list,
        Some (Ok tt)).
Proof.
  split; [reflexivity|].
  apply (proj1 (run_stops_at_the_first_failed_request denied_world 0 []
                  (firstn 10 (fst (Action.run denied_world 0 [])))
                  (skipn 11 (fst (Action.run denied_world 0 [])))
                  (EvFetch "GET" "https://api.bunny.net/mc/registries" "key" None)
                  (Error "API GET /registries failed (401): denied")
                  eq_refl)).
  vm_compute. reflexivity.
Defined.
(* ===================================================================== *)
(** ** How long and how often the wait step polls *)
(* ===================================================================== *)

Lemma clock_after_turn (w : World) (t : Trace) (a b c d : Event) (ms : Z) :
  clock_advances w ->
  Date_now w t + ms
  <= Date_now w ((((t ++ [a]) ++ [b; c]) ++ [d]) ++ [EvSleep ms])%list.
Proof.
  intros Hclock. pose proof (proj2 Hclock (((t ++ [a]) ++ [b; c]) ++ [d])%list ms).
  pose proof (clock_over_events w Hclock [a; b; c; d] t) as H1.
  rewrite <- !app_assoc in *. cbn [app] in *. lia.
Qed.

(** The requests of the loop of the current action: each but the first
    comes ten seconds after the one before, and all come before the
    deadline. *)
Lemma action_poll_requests (w : World) (apiKey : string) (appId : JsValue)
    (deadline : JsNum) (Hclock : clock_advances w) :
  forall (fuel : nat) (status : JsValue) (t : Trace),
    exists evs : list Event,
      fst (Action.poll w fuel apiKey appId deadline status t) = (t ++ evs)%list
      /\ (count is_fetch evs = 0%nat
          \/ exists d, deadline = Num d
                       /\ 10000 * (Z.of_nat (count is_fetch evs) - 1) < d - Date_now w t).
Proof.
  induction fuel as [|fuel IH]; intros status t.
  - exists []. cbn. rewrite app_nil_r. auto.
  - rewrite action_poll_turn.
    destruct (num_lt (Num (Date_now w t)) deadline) eqn:Elt.
    + destruct deadline as [|d]; [discriminate|]. cbn in Elt. apply Z.ltb_lt in Elt.
      destruct (api_get_events w "GET" ("/apps/" ++ ToString appId) apiKey
                  (t ++ [EvDateNow])%list) as [r0 Hapi].
      rewrite Hapi.
      destruct r0 as [appStatus|e];
        [destruct (Action.reported_status appStatus) as [st|e];
         [cbv zeta; destruct (strict_equal st (JString "Active"))|]|].
      * eexists. cbn [fst]. rewrite <- !app_assoc. split; [reflexivity|].
        right. exists d. split; [reflexivity|]. cbn. lia.
      * match goal with
        | |- context [Action.poll w fuel apiKey appId (Num d) st ?tr] =>
            destruct (IH st tr) as [evs [E Hb]];
            assert (Hlater : Date_now w t + 10000 <= Date_now w tr)
              by (apply clock_after_turn; exact Hclock)
        end.
        rewrite E. eexists. rewrite <- !app_assoc. split; [reflexivity|].
        right. exists d. split; [reflexivity|]. cbn [app].
        unfold count in *. cbn [filter is_fetch List.length].
        destruct Hb as [Hb|[d' [Hd Hb]]]; [rewrite Hb; lia|].
        inversion Hd; subst d'. lia.
      * eexists. cbn [fst]. rewrite <- !app_assoc. split; [reflexivity|].
        right. exists d. split; [reflexivity|]. cbn. lia.
      * eexists. cbn [fst]. rewrite <- !app_assoc. split; [reflexivity|].
        right. exists d. split; [reflexivity|]. cbn. lia.
    + exists [EvDateNow]. cbn. auto.
Qed.

Lemma older_poll_requests (w : World) (apiKey : string) (appId : JsValue)
    (deadline : JsNum) (Hclock : clock_advances w) :
  forall (fuel : nat) (status : JsValue) (t : Trace),
    exists evs : list Event,
      fst (Older.poll w fuel apiKey appId deadline status t) = (t ++ evs)%list
      /\ (count is_fetch evs = 0%nat
          \/ exists d, deadline = Num d
                       /\ 10000 * (Z.of_nat (count is_fetch evs) - 1) < d - Date_now w t).
Proof.
  induction fuel as [|fuel IH]; intros status t.
  - exists []. cbn. rewrite app_nil_r. auto.
  - rewrite older_poll_turn.
    destruct (num_lt (Num (Date_now w t)) deadline) eqn:Elt.
    + destruct deadline as [|d]; [discriminate|]. cbn in Elt. apply Z.ltb_lt in Elt.
      destruct (api_get_events w "GET" ("/apps/" ++ ToString appId) apiKey
                  (t ++ [EvDateNow])%list) as [r0 Hapi].
      rewrite Hapi.
      destruct r0 as [appStatus|e];
        [destruct (Older.reported_status appStatus) as [st|e];
         [cbv zeta; destruct (Older.is_active_or_running st)|]|].
      * eexists. cbn [fst]. rewrite <- !app_assoc. split; [reflexivity|].
        right. exists d. split; [reflexivity|]. cbn. lia.
      * match goal with
        | |- context [Older.poll w fuel apiKey appId (Num d) st ?tr] =>
            destruct (IH st tr) as [evs [E Hb]];
            assert (Hlater : Date_now w t + 10000 <= Date_now w tr)
              by (apply clock_after_turn; exact Hclock)
        end.
        rewrite E. eexists. rewrite <- !app_assoc. split; [reflexivity|].
        right. exists d. split; [reflexivity|]. cbn [app].
        unfold count in *. cbn [filter is_fetch List.length].
        destruct Hb as [Hb|[d' [Hd Hb]]]; [rewrite Hb; lia|].
        inversion Hd; subst d'. lia.
      * eexists. cbn [fst]. rewrite <- !app_assoc. split; [reflexivity|].
        right. exists d. split; [reflexivity|]. cbn. lia.
      * eexists. cbn [fst]. rewrite <- !app_assoc. split; [reflexivity|].
        right. exists d. split; [reflexivity|]. cbn. lia.
    + exists [EvDateNow]. cbn. auto.
Qed.

(** X17.  With a clock that advances, the wait step of either variant sends
    no more status requests than the timeout allows at one every ten
    seconds: k requests need a timeout above 10 (k - 1) seconds.  Without
    waiting, with a timeout that is not a number, or with one that is not
    positive, it sends none. *)
Theorem wait_step_requests_are_bounded_by_the_timeout :
  forall (w : World) (fuel : nat) (apiKey : string) (appId : JsValue)
         (waitForDeploy : bool) (timeout : JsNum) (t : Trace),
    clock_advances w ->
    (exists evs : list Event,
        fst (Action.wait_for_deployment w fuel apiKey appId waitForDeploy timeout t)
        = (t ++ evs)%list
        /\ (count is_fetch evs = 0%nat
            \/ exists seconds,
                 waitForDeploy = true /\ timeout = Num seconds
                 /\ 10 * (Z.of_nat (count is_fetch evs) - 1) < seconds))
    /\ (exists evs : list Event,
           fst (Older.wait_for_deployment w fuel apiKey appId waitForDeploy timeout t)
           = (t ++ evs)%list
           /\ (count is_fetch evs = 0%nat
               \/ exists seconds,
                    waitForDeploy = true /\ timeout = Num seconds
                    /\ 10 * (Z.of_nat (count is_fetch evs) - 1) < seconds)).
Proof.
  intros w fuel apiKey appId waitForDeploy timeout t Hclock.
  pose proof (proj1 Hclock t EvDateNow) as Hnow.
  unfold Action.wait_for_deployment, Older.wait_for_deployment.
  destruct waitForDeploy.
  2: { split; exists []; cbn; rewrite app_nil_r; auto. }
  unfold bind, now. cbv beta iota zeta. split.
  - destruct (action_poll_requests w apiKey appId
                (num_add (Num (Date_now w t)) (num_mul timeout (Num 1000))) Hclock
                fuel (JString EmptyString) (t ++ [EvDateNow])%list) as [evs [E Hb]].
    assert (Hbound : count is_fetch evs = 0%nat
                     \/ exists seconds,
                          true = true /\ timeout = Num seconds
                          /\ 10 * (Z.of_nat (count is_fetch evs) - 1) < seconds).
    { destruct Hb as [Hb|[d [Hd Hb]]]; [auto|]. right.
      destruct timeout as [|seconds]; [discriminate|]. cbn in Hd. inversion Hd; subst d.
      exists seconds. repeat split. lia. }
    destruct (Action.poll w fuel apiKey appId _ (JString EmptyString)
                (t ++ [EvDateNow])%list) as [t1 [[status|e]|]];
      cbn [fst] in E; subst t1.
    + destruct (negb (strict_equal status (JString "Active")));
        unfold warning, emit, ret; cbn [fst].
      * eexists. rewrite <- !app_assoc. split; [reflexivity|].
        cbn [app]. unfold count in *. cbn [filter is_fetch]. rewrite filter_app.
        cbn [filter is_fetch]. rewrite app_nil_r. exact Hbound.
      * eexists. rewrite <- !app_assoc. split; [reflexivity|]. exact Hbound.
    + eexists. rewrite <- !app_assoc. split; [reflexivity|]. exact Hbound.
    + eexists. rewrite <- !app_assoc. split; [reflexivity|]. exact Hbound.
  - destruct (older_poll_requests w apiKey appId
                (num_add (Num (Date_now w t)) (num_mul timeout (Num 1000))) Hclock
                fuel (JString EmptyString) (t ++ [EvDateNow])%list) as [evs [E Hb]].
    assert (Hbound : count is_fetch evs = 0%nat
                     \/ exists seconds,
                          true = true /\ timeout = Num seconds
                          /\ 10 * (Z.of_nat (count is_fetch evs) - 1) < seconds).
    { destruct Hb as [Hb|[d [Hd Hb]]]; [auto|]. right.
      destruct timeout as [|seconds]; [discriminate|]. cbn in Hd. inversion Hd; subst d.
      exists seconds. repeat split. lia. }
    destruct (Older.poll w fuel apiKey appId _ (JString EmptyString)
                (t ++ [EvDateNow])%list) as [t1 [[status|e]|]];
      cbn [fst] in E; subst t1.
    + destruct (negb (Older.is_active_or_running status));
        unfold warning, emit, ret; cbn [fst].
      * eexists. rewrite <- !app_assoc. split; [reflexivity|].
        cbn [app]. unfold count in *. cbn [filter is_fetch]. rewrite filter_app.
        cbn [filter is_fetch]. rewrite app_nil_r. exact Hbound.
      * eexists. rewrite <- !app_assoc. split; [reflexivity|]. exact Hbound.
    + eexists. rewrite <- !app_assoc. split; [reflexivity|]. exact Hbound.
    + eexists. rewrite <- !app_assoc. split; [reflexivity|]. exact Hbound.
Qed.

Lemma wait_step_requests_are_bounded_by_the_timeout_witness :
  exists evs : list Event,
    fst (Action.wait_for_deployment running_world 5 "key" (JNumber (Num 7)) true
           (Num 15) [])
    = ([] ++ evs)%list
    /\ (count is_fetch evs = 0%nat
        \/ exists seconds,
             true = true /\ Num 15 = Num seconds
             /\ 10 * (Z.of_nat (count is_fetch evs) - 1) < seconds).
Proof.
  exact (proj1 (wait_step_requests_are_bounded_by_the_timeout
                  running_world 5 "key" (JNumber (Num 7)) true (Num 15) []
                  (steady_clock_advances [] (fun _ => Ok (JArray []))
                     (JObject [("id", JNumber (Num 7));
                               ("status", JString "running")])))).
Defined.

Lemma get_opt_total (v : JsValue) (k : string) : exists x, get_opt v k = Ok x.
Proof.
  unfold get_opt. destruct v; cbn; eauto.
  - destruct (k =? "length")%string; eauto.
  - destruct (k =? "length")%string; eauto.
  - destruct (lookup k fields); eauto.
Qed.

Lemma action_reported_status_total (v : JsValue) :
  exists st, Action.reported_status v = Ok st.
Proof.
  unfold Action.reported_status. destruct (get_opt_total v "status") as [x ->].
  cbn [rbind]. eauto.
Qed.

Lemma older_reported_status_total (v : JsValue) :
  exists st, Older.reported_status v = Ok st.
Proof.
  unfold Older.reported_status. destruct (get_opt_total v "status") as [x ->].
  cbn [rbind]. destruct (truthy x); [eauto|].
  destruct (get_opt_total v "state") as [y ->]. cbn [rbind]. eauto.
Qed.

Lemma action_poll_never_throws (w : World) (apiKey : string) (appId : JsValue)
    (deadline : JsNum) :
  (forall t, exists t' v,
      api w "GET" ("/apps/" ++ ToString appId) apiKey None t = (t', Some (Ok v))) ->
  forall (fuel : nat) (status : JsValue) (t : Trace) (e : JsError),
    snd (Action.poll w fuel apiKey appId deadline status t) <> Some (Throw e).
Proof.
  intros Hapi. induction fuel as [|fuel IH]; intros status t e; [discriminate|].
  rewrite action_poll_turn.
  destruct (num_lt (Num (Date_now w t)) deadline); [|discriminate].
  destruct (Hapi (t ++ [EvDateNow])%list) as [t' [v ->]].
  destruct (action_reported_status_total v) as [st ->]. cbv zeta.
  destruct (strict_equal st (JString "Active")); [discriminate | apply IH].
Qed.

Lemma older_poll_never_throws (w : World) (apiKey : string) (appId : JsValue)
    (deadline : JsNum) :
  (forall t, exists t' v,
      api w "GET" ("/apps/" ++ ToString appId) apiKey None t = (t', Some (Ok v))) ->
  forall (fuel : nat) (status : JsValue) (t : Trace) (e : JsError),
    snd (Older.poll w fuel apiKey appId deadline status t) <> Some (Throw e).
Proof.
  intros Hapi. induction fuel as [|fuel IH]; intros status t e; [discriminate|].
  rewrite older_poll_turn.
  destruct (num_lt (Num (Date_now w t)) deadline); [|discriminate].
  destruct (Hapi (t ++ [EvDateNow])%list) as [t' [v ->]].
  destruct (older_reported_status_total v) as [st ->]. cbv zeta.
  destruct (Older.is_active_or_running st); [discriminate | apply IH].
Qed.

(** X18.  Running out of time is no failure.  With a clock that advances
    and a platform that answers every status request, the wait step of
    either variant ends without error whatever the statuses are and whatever
    the timeout is: an app that never becomes active costs a warning, never
    an exception. *)
Theorem running_out_of_time_is_no_failure :
  forall (w : World) (apiKey : string) (appId : JsValue) (waitForDeploy : bool)
         (timeout : JsNum),
    clock_advances w ->
    (forall t, exists t' v,
        api w "GET" ("/apps/" ++ ToString appId) apiKey None t = (t', Some (Ok v))) ->
    forall t : Trace,
      exists N : nat,
        forall fuel : nat, (N <= fuel)%nat ->
          snd (Action.wait_for_deployment w fuel apiKey appId waitForDeploy timeout t)
          = Some (Ok tt)
          /\ snd (Older.wait_for_deployment w fuel apiKey appId waitForDeploy timeout t)
             = Some (Ok tt).
Proof.
  intros w apiKey appId waitForDeploy timeout Hclock Hapi t.
  unfold Action.wait_for_deployment, Older.wait_for_deployment.
  destruct waitForDeploy; [|exists 0%nat; intros; split; reflexivity].
  unfold bind, now. cbv beta iota zeta.
  set (deadline := num_add (Num (Date_now w t)) (num_mul timeout (Num 1000))).
  destruct (poll_fuel_bound deadline (Date_now w (t ++ [EvDateNow])%list)) as [N HN].
  exists N. intros fuel Hfuel. destruct (HN fuel Hfuel) as [fuel' [-> Hleft]]. split.
  - pose proof (action_poll_ends w apiKey appId deadline Hclock fuel'
                  (JString EmptyString) (t ++ [EvDateNow])%list Hleft) as Hends.
    pose proof (action_poll_never_throws w apiKey appId deadline Hapi (S fuel')
                  (JString EmptyString) (t ++ [EvDateNow])%list) as Hsafe.
    destruct (Action.poll w (S fuel') apiKey appId deadline (JString EmptyString)
                (t ++ [EvDateNow])%list) as [t1 [[status|e]|]]; cbn [snd] in *.
    + destruct (negb (strict_equal status (JString "Active"))); reflexivity.
    + exfalso. exact (Hsafe e eq_refl).
    + congruence.
  - pose proof (older_poll_ends w apiKey appId deadline Hclock fuel'
                  (JString EmptyString) (t ++ [EvDateNow])%list Hleft) as Hends.
    pose proof (older_poll_never_throws w apiKey appId deadline Hapi (S fuel')
                  (JString EmptyString) (t ++ [EvDateNow])%list) as Hsafe.
    destruct (Older.poll w (S fuel') apiKey appId deadline (JString EmptyString)
                (t ++ [EvDateNow])%list) as [t1 [[status|e]|]]; cbn [snd] in *.
    + destruct (negb (Older.is_active_or_running status)); reflexivity.
    + exfalso. exact (Hsafe e eq_refl).
    + congruence.
Qed.

Lemma running_out_of_time_is_no_failure_witness :
  exists N : nat,
    forall fuel : nat, (N <= fuel)%nat ->
      snd (Action.wait_for_deployment running_world fuel "key" (JNumber (Num 7)) true
             (Num 15) [])
      = Some (Ok tt)
      /\ snd (Older.wait_for_deployment running_world fuel "key" (JNumber (Num 7)) true
                (Num 15) [])
         = Some (Ok tt).
Proof.
  apply (running_out_of_time_is_no_failure running_world "key" (JNumber (Num 7)) true
           (Num 15)).
  - apply steady_clock_advances.
  - intros t. eexists. eexists. reflexivity.
Defined.

Lemma older_loop_stops_exactly_on_active_or_running_witness :
  exists N : nat,
    forall fuel : nat, (N <= fuel)%nat ->
      snd (Older.poll running_world fuel "key" (JNumber (Num 7)) (Num 15000)
             (JString EmptyString) [])
      <> None.
Proof.
  exact (proj2 (proj2 (proj2 (older_loop_stops_exactly_on_active_or_running
                                running_world "key" (JNumber (Num 7)) (Num 15000)
                                (steady_clock_advances [] (fun _ => Ok (JArray []))
                                   (JObject [("id", JNumber (Num 7));
                                             ("status", JString "running")])))))
           (JString EmptyString) []).
Defined.
(* ===================================================================== *)
(** ** The container templates of the payload *)
(* ===================================================================== *)

Lemma namespace_not_empty (fullImage : string) :
  imageNamespace (parseImageParts fullImage) <> EmptyString.
Proof.
  unfold parseImageParts.
  destruct (split "/" fullImage) as [|p0 [|p1 rest]]; cbn [imageNamespace];
    try discriminate;
    match goal with
    | |- (if (?j =? EmptyString)%string then _ else _) <> _ =>
        destruct (String.eqb_spec j EmptyString); [discriminate | assumption]
    end.
Qed.

Lemma parts_of_slash_free (s : string) :
  slash_free s ->
  imageNamespace (parseImageParts s) = "library" /\ imageName (parseImageParts s) = s.
Proof.
  intros Hno. unfold parseImageParts, split.
  rewrite (split_go_no_separator "/" s EmptyString Hno). cbn. auto.
Qed.

Lemma exposeContainerName_total (ec : string) (containers : list ContainerDef)
    (c : ContainerDef) :
  In c containers -> exists chosen, Action.exposeContainerName ec containers = Ok chosen.
Proof.
  intros Hin. unfold Action.exposeContainerName.
  destruct (negb (ec =? EmptyString)%string); [eauto|].
  destruct (truthy _); [eauto|].
  destruct containers as [|c0 rest]; [destruct Hin | eauto].
Qed.

Lemma template_of_fits (ce : bool) (ec en et : string) (dh pr : JsValue)
    (containers : list ContainerDef) (c : ContainerDef) (s : string) :
  In c containers -> image c = JString s ->
  exists t,
    Action.template_of ce ec en et dh pr containers c = Ok t /\ template_fits dh pr c t.
Proof.
  intros Hin Hs. unfold Action.template_of. rewrite Hs; cbn [rbind].
  assert (Hends : exists eps,
             Action.template_endpoints ce ec en et containers c = Ok eps).
  { unfold Action.template_endpoints. destruct (truthy (port c) && ce); [|eauto].
    destruct (exposeContainerName_total ec containers c Hin) as [chosen ->].
    cbn [rbind]. destruct (strict_equal (name c) chosen); eauto. }
  destruct Hends as [eps ->]; cbn [rbind]. eexists. split; [reflexivity|].
  unfold template_fits, or_else. cbn [get app lookup String.eqb Ascii.eqb Bool.eqb].
  repeat split.
  exists (imageNamespace (parseImageParts s)), (imageName (parseImageParts s)).
  split; [reflexivity|]. split; [apply namespace_not_empty|]. split; [reflexivity|].
  intros s' Hs' Hno. rewrite Hs in Hs'. inversion Hs'; subst s'.
  apply parts_of_slash_free. exact Hno.
Qed.

(** X19.  The payload step never fails on containers whose image is a
    string, whatever the endpoint inputs and registry ids are: it yields one
    template per container, in the order of the list, each with the
    container's name, full reference, tag and pull policy Always, a
    namespace that is not empty (library for an image without slash), and as
    registry the private one for a built container when there is one, the
    Docker Hub one or the empty string otherwise. *)
Theorem payload_has_one_fitting_template_per_container :
  forall (createEndpoint : bool) (endpointContainer endpointName endpointType : string)
         (dockerHubRegistryId privateRegistryId : JsValue)
         (containers : list ContainerDef),
    Forall (fun c => exists s, image c = JString s) containers ->
    exists templates : list JsValue,
      Action.containerTemplates createEndpoint endpointContainer endpointName
        endpointType dockerHubRegistryId privateRegistryId containers = Ok templates
      /\ Forall2 (template_fits dockerHubRegistryId privateRegistryId)
           containers templates.
Proof.
  intros ce ec en et dh pr containers Himg. unfold Action.containerTemplates.
  destruct (map_result_pointwise
              (Action.template_of ce ec en et dh pr containers) containers 0)
    as [templates [Hmap Hall]].
  { intros c Hin. rewrite Forall_forall in Himg. destruct (Himg c Hin) as [s Hs].
    destruct (template_of_fits ce ec en et dh pr containers c s Hin Hs) as [t [Ht _]].
    eauto. }
  exists templates. split; [exact Hmap|].
  eapply Forall2_impl_in; [exact Hall|].
  intros c t Hin Ht. cbv beta in Ht. rewrite Forall_forall in Himg.
  destruct (Himg c Hin) as [s Hs].
  destruct (template_of_fits ce ec en et dh pr containers c s Hin Hs) as [t' [Ht' Hfit]].
  rewrite Ht in Ht'. inversion Ht'; subst t'. exact Hfit.
Qed.

Lemma payload_has_one_fitting_template_per_container_witness :
  exists templates : list JsValue,
    Action.containerTemplates true EmptyString "shop-endpoint" "CDN"
      (JString "99") (JString "12") [api_container; redis_container] = Ok templates
    /\ Forall2 (template_fits (JString "99") (JString "12"))
         [api_container; redis_container] templates.
Proof.
  apply payload_has_one_fitting_template_per_container.
  repeat constructor; eexists; reflexivity.
Defined.

(* ===================================================================== *)
(** ** The registry step of the older variant *)
(* ===================================================================== *)

Lemma has_name_readable (w : World) (searchName : string) (r : JsValue) :
  name_readable r -> Older.has_name w searchName r = Ok (name_is w searchName r).
Proof.
  intros [v [Hv Hcase]]. unfold Older.has_name, name_is.
  rewrite Hv; cbn [rbind]. destruct Hcase as [->|[->|[s ->]]]; reflexivity.
Qed.

Lemma name_is_object (w : World) (searchName : string) (r : JsValue) :
  name_is w searchName r = true -> truthy r = true.
Proof.
  unfold name_is. destruct r; cbn; try discriminate; reflexivity.
Qed.

(** X20.  In the older variant, when the list call answers a bare array of
    entries with readable names that holds one whose name equals the
    requested name (bunny_registry_name, or else the registry username) up
    to letter case (the two are the same once lower-cased by the built-in,
    whatever the alphabet), the registry step issues no further call: it
    logs the find, closes the group and yields the id of the first such
    entry as the platform gave it. *)
Theorem older_listed_registry_is_reused_by_name :
  forall (w : World) (apiKey : string)
         (bunnyRegistryName registryUsername registryPassword : string)
         (bunnyRegistryPat bunnyRegistryType : string) (ensureBunnyRegistry : bool)
         (items : list JsValue) (t t2 : Trace),
    bunnyRegistryName <> EmptyString \/ ensureBunnyRegistry = true ->
    api w "GET" "/registries" apiKey None
      (t ++ [EvStartGroup "Ensure Bunny image registry"])%list
    = (t2, Some (Ok (JArray items))) ->
    Forall name_readable items ->
    (exists r, In r items
               /\ name_is w (toLowerCase w (str_or bunnyRegistryName registryUsername)) r
                  = true) ->
    exists (pre : list JsValue) (r : JsValue) (post : list JsValue) (id r_name : JsValue),
      items = (pre ++ r :: post)%list
      /\ Forall (fun x =>
                   name_is w (toLowerCase w (str_or bunnyRegistryName registryUsername)) x
                   = false) pre
      /\ name_is w (toLowerCase w (str_or bunnyRegistryName registryUsername)) r = true
      /\ get r "id" = Ok id
      /\ get r "name" = Ok r_name
      /\ Older.ensure_registry w apiKey bunnyRegistryName registryUsername
           registryPassword bunnyRegistryPat bunnyRegistryType ensureBunnyRegistry t
         = ((t2 ++ [EvInfo ("Found existing registry: " ++ ToString r_name
                            ++ " (id: " ++ ToString id ++ ")");
                    EvEndGroup])%list,
            Some (Ok id)).
Proof.
  intros w apiKey bunnyRegistryName registryUsername registryPassword bunnyRegistryPat
    bunnyRegistryType ensureBunnyRegistry items t t2 Hasked Hapi Hread [r0 [Hin0 Hlike0]].
  set (searchName := toLowerCase w (str_or bunnyRegistryName registryUsername)) in *.
  destruct (find_exists (name_is w searchName) items r0 Hin0 Hlike0) as [r Hfind].
  destruct (find_some_split _ _ _ Hfind) as [pre [post [Hsplit [Hpre Hr]]]].
  assert (Hreadable : name_readable r).
  { rewrite Forall_forall in Hread. apply Hread. rewrite Hsplit.
    apply in_or_app. right. left. reflexivity. }
  destruct Hreadable as [nm [Hnm _]].
  destruct (get_total_after _ _ _ Hnm "id") as [id Hid].
  exists pre, r, post, id, nm.
  split; [exact Hsplit|]. split; [exact Hpre|]. split; [exact Hr|].
  split; [exact Hid|]. split; [exact Hnm|].
  unfold Older.ensure_registry.
  assert (Hcond : negb (bunnyRegistryName =? EmptyString)%string || ensureBunnyRegistry
                  = true).
  { destruct Hasked as [Hname| ->]; [|apply orb_true_r].
    apply String.eqb_neq in Hname. now rewrite Hname. }
  rewrite Hcond. cbv zeta. fold searchName.
  unfold bind at 1, startGroup, emit at 1. unfold bind at 1. rewrite Hapi.
  cbn [isArray]. unfold array_find.
  rewrite (find_result_pure _ (name_is w searchName))
    by (eapply Forall_impl; [|exact Hread]; intros x Hx;
        apply has_name_readable; exact Hx).
  rewrite Hfind. cbn [rbind]. rewrite bind_lift.
  rewrite (name_is_object w searchName r Hr).
  unfold bind at 1. rewrite bind_lift, Hnm. rewrite bind_lift, Hid.
  unfold bind, info, endGroup, emit, ret. rewrite <- app_assoc. reflexivity.
Qed.

Lemma older_listed_registry_is_reused_by_name_witness :
  Older.ensure_registry older_ghcr_world "key" "ghcr" "octocat" "pw" "pat" "GitHub" true []
  = ([EvStartGroup "Ensure Bunny image registry";
      EvDebug "GET https://api.bunny.net/mc/registries";
      EvFetch "GET" "https://api.bunny.net/mc/registries" "key" None;
      EvInfo "Found existing registry: GHCR (id: 12)";
      EvEndGroup],
     Some (Ok (JNumber (Num 12))))
  /\ Older.ensure_registry accent_world "key" "école" "octocat" "pw" "pat" "GitHub"
       false []
     = ([EvStartGroup "Ensure Bunny image registry";
         EvDebug "GET https://api.bunny.net/mc/registries";
         EvFetch "GET" "https://api.bunny.net/mc/registries" "key" None;
         EvInfo "Found existing registry: ÉCOLE (id: 1)";
         EvEndGroup],
        Some (Ok (JNumber (Num 1)))).
Proof.
  split.
  - destruct (older_listed_registry_is_reused_by_name
                older_ghcr_world "key" "ghcr" "octocat" "pw" "pat" "GitHub" true
                [JObject [("id", JNumber (Num 12)); ("name", JString "GHCR")]] []
                [EvStartGroup "Ensure Bunny image registry";
                 EvDebug "GET https://api.bunny.net/mc/registries";
                 EvFetch "GET" "https://api.bunny.net/mc/registries" "key" None])
      as [pre [r [post [id [nm [_ [_ [_ [_ [_ Hrun]]]]]]]]]].
    + right. reflexivity.
    + reflexivity.
    + repeat constructor. exists (JString "GHCR"). split; [reflexivity|].
      right. right. eauto.
    + exists (JObject [("id", JNumber (Num 12)); ("name", JString "GHCR")]).
      split; [left; reflexivity | reflexivity].
    + reflexivity.
  - destruct (older_listed_registry_is_reused_by_name
                accent_world "key" "école" "octocat" "pw" "pat" "GitHub" false
                [JObject [("id", JNumber (Num 1)); ("name", JString "ÉCOLE")];
                 JObject [("id", JNumber (Num 2)); ("name", JString "école")]] []
                [EvStartGroup "Ensure Bunny image registry";
                 EvDebug "GET https://api.bunny.net/mc/registries";
                 EvFetch "GET" "https://api.bunny.net/mc/registries" "key" None])
      as [pre [r [post [id [nm [_ [_ [_ [_ [_ Hrun]]]]]]]]]].
    + left. discriminate.
    + reflexivity.
    + repeat constructor.
      * exists (JString "ÉCOLE"). split; [reflexivity|]. right. right. eauto.
      * exists (JString "école"). split; [reflexivity|]. right. right. eauto.
    + exists (JObject [("id", JNumber (Num 2)); ("name", JString "école")]).
      split; [right; left; reflexivity | reflexivity].
    + reflexivity.
Defined.

(* ===================================================================== *)
(** ** What a run that does not fail has done *)
(* ===================================================================== *)

Lemma exactly_silent {A : Type} (p : Event -> bool) (m : M A) :
  bounded p 0 m -> exactly p 0 m.
Proof.
  intros Hm t. destruct (m t) as [t' r] eqn:Em.
  destruct (Hm _ _ _ Em) as [evs [-> Hc]]. exists evs. cbn [fst snd].
  split; [reflexivity|]. split; [exact Hc | intros; lia].
Qed.

Lemma exactly_bind {A B : Type} (p : Event -> bool) (a b : nat) (m : M A)
    (k : A -> M B) :
  exactly p a m -> (forall x, exactly p b (k x)) -> exactly p (a + b) (bind m k).
Proof.
  intros Hm Hk t. unfold bind. destruct (Hm t) as [e1 [E1 [L1 X1]]].
  destruct (m t) as [t1 [[x|err]|]]; cbn [fst snd] in *; subst t1.
  - destruct (Hk x (t ++ e1)%list) as [e2 [E2 [L2 X2]]].
    exists (e1 ++ e2)%list. rewrite E2, app_assoc, count_app.
    split; [reflexivity|]. pose proof (X1 x eq_refl). split; [lia|].
    intros y Hy. rewrite (X2 y Hy). lia.
  - exists e1. split; [reflexivity|]. split; [lia | discriminate].
  - exists e1. split; [reflexivity|]. split; [lia | discriminate].
Qed.

Lemma exactly_front {A B : Type} (p : Event -> bool) (n : nat) (m : M A)
    (k : A -> M B) :
  bounded p 0 m -> (forall x, exactly p n (k x)) -> exactly p n (bind m k).
Proof.
  intros Hm Hk. apply (exactly_bind p 0 n); [apply exactly_silent; exact Hm | exact Hk].
Qed.

Lemma exactly_back {A B : Type} (p : Event -> bool) (n : nat) (m : M A)
    (k : A -> M B) :
  exactly p n m -> (forall x, bounded p 0 (k x)) -> exactly p n (bind m k).
Proof.
  intros Hm Hk. rewrite <- (Nat.add_0_r n).
  apply (exactly_bind p n 0); [exact Hm | intros x; apply exactly_silent, Hk].
Qed.

Lemma exactly_emit (p : Event -> bool) (e : Event) : p e = true -> exactly p 1 (emit e).
Proof.
  intros He t. exists [e]. unfold count. cbn [emit fst snd filter]. rewrite He.
  cbn [List.length]. auto.
Qed.

Lemma exactly_api (p : Event -> bool) (w : World) (method path apiKey : string)
    (body : option JsValue) :
  (forall text, p (EvDebug text) = false) ->
  (forall sent, p (EvFetch method (API_BASE ++ path) apiKey sent) = true) ->
  exactly p 1 (api w method path apiKey body).
Proof.
  intros Hd Hf t. destruct (api w method path apiKey body t) as [t' r] eqn:Ea.
  destruct (api_adds w method path apiKey body _ _ _ Ea)
    as [evs [-> [dbg [sent [-> Hdbg]]]]].
  eexists. cbn [fst snd]. split; [reflexivity|].
  assert (Hc : count p (EvDebug (method ++ " " ++ API_BASE ++ path)
                        :: dbg ++ [EvFetch method (API_BASE ++ path) apiKey sent])%list
               = 1%nat).
  { unfold count. cbn [filter]. rewrite Hd, filter_app. cbn [filter]. rewrite Hf.
    destruct Hdbg as [->|[text ->]]; cbn [filter]; [|rewrite Hd]; reflexivity. }
  rewrite Hc. auto.
Qed.

Lemma create_free_poll (w : World) (apiKey : string) (appId : JsValue) (deadline : JsNum) :
  forall (fuel : nat) (status : JsValue),
    bounded is_create_app 0 (Action.poll w fuel apiKey appId deadline status).
Proof.
  induction fuel as [|fuel IH]; intros status; cbn [Action.poll].
  - apply bounded_still. reflexivity.
  - apply silent_bind; [apply bounded_now; reflexivity|].
    intros clock. destruct (num_lt (Num clock) deadline); [|apply bounded_ret].
    apply silent_bind; [apply bounded_api; intros; reflexivity|].
    intros appStatus. apply silent_bind; [apply bounded_lift|]. intros st.
    apply silent_bind; [apply bounded_emit; reflexivity|]. intros _.
    destruct (strict_equal st (JString "Active")); [apply bounded_ret|].
    apply silent_bind; [apply bounded_emit; reflexivity|].
    intros _. apply IH.
Qed.

Lemma create_free_older_poll (w : World) (apiKey : string) (appId : JsValue)
    (deadline : JsNum) :
  forall (fuel : nat) (status : JsValue),
    bounded is_create_app 0 (Older.poll w fuel apiKey appId deadline status).
Proof.
  induction fuel as [|fuel IH]; intros status; cbn [Older.poll].
  - apply bounded_still. reflexivity.
  - apply silent_bind; [apply bounded_now; reflexivity|].
    intros clock. destruct (num_lt (Num clock) deadline); [|apply bounded_ret].
    apply silent_bind; [apply bounded_api; intros; reflexivity|].
    intros appStatus. apply silent_bind; [apply bounded_lift|]. intros st.
    apply silent_bind; [apply bounded_emit; reflexivity|]. intros _.
    destruct (Older.is_active_or_running st); [apply bounded_ret|].
    apply silent_bind; [apply bounded_emit; reflexivity|].
    intros _. apply IH.
Qed.

Lemma create_free_add_containers (w : World) (apiKey : string)
    (appId registryId : JsValue) :
  forall (containers : list ContainerDef) (idMap : Older.IdMap),
    bounded is_create_app 0
      (Older.add_containers w apiKey appId registryId containers idMap).
Proof.
  induction containers as [|c rest IH]; intros idMap; cbn [Older.add_containers].
  - apply bounded_ret.
  - apply silent_bind; [apply bounded_emit; reflexivity|]. intros _.
    apply silent_bind; [apply bounded_api; intros; reflexivity|].
    intros created. apply silent_bind; [apply bounded_lift|]. intros id.
    apply silent_bind; [apply bounded_emit; reflexivity|]. intros _.
    apply IH.
Qed.

(** Shows that a computation holds no event of the class at hand, the loops
    of the two variants included. *)
Ltac hush :=
  repeat first
    [ apply create_free_poll
    | apply create_free_older_poll
    | apply create_free_add_containers
    | apply silent_add_containers; intros; reflexivity
    | progress silence ].

(** Walks down a computation to the one event of the class at hand. *)
Ltac just_once :=
  repeat first
    [ apply exactly_api; intros; reflexivity
    | apply exactly_emit; reflexivity
    | apply exactly_back;
        [ first [ apply exactly_api; intros; reflexivity
                | apply exactly_emit; reflexivity ]
        | intros; solve [hush] ]
    | apply exactly_front; [solve [hush] | intros]
    | match goal with
      | |- exactly _ _ (if ?c then _ else _) => destruct c
      | |- exactly _ _ (match ?c with _ => _ end) => destruct c
      end ].

Lemma run_body_creates_one_app (w : World) (fuel : nat) :
  exactly is_create_app 1 (Action.run_body w fuel).
Proof. unfold Action.run_body. open_steps. just_once. Qed.

Lemma run_body_outputs_the_id_once (w : World) (fuel : nat) :
  exactly is_app_id_output 1 (Action.run_body w fuel).
Proof. unfold Action.run_body. open_steps. just_once. Qed.

Lemma older_run_body_creates_one_app (w : World) (fuel : nat) :
  exactly is_create_app 1 (Older.run_body w fuel).
Proof. unfold Older.run_body. open_steps. just_once. Qed.

Lemma older_run_body_outputs_the_id_once (w : World) (fuel : nat) :
  exactly is_app_id_output 1 (Older.run_body w fuel).
Proof. unfold Older.run_body. open_steps. just_once. Qed.

Lemma caught_exactly (p : Event -> bool) (body : M unit) (t : Trace) :
  (forall e, p (EvSetFailed e) = false) ->
  exactly p 1 body ->
  exists evs : list Event,
    fst (try_catch body on_error t) = (t ++ evs)%list
    /\ (count p evs <= 1)%nat
    /\ (snd (try_catch body on_error t) <> None ->
        count is_set_failed evs = 0%nat -> count p evs = 1%nat).
Proof.
  intros Hp Hbody. destruct (Hbody t) as [evs [E [L X]]]. unfold try_catch.
  destruct (body t) as [t1 [[[]|e]|]]; cbn [fst snd] in *; subst t1.
  - exists evs. split; [reflexivity|]. split; [exact L|]. intros _ _. exact (X tt eq_refl).
  - rewrite on_error_shown. cbn [fst snd]. exists (evs ++ [EvSetFailed (shown e)])%list.
    rewrite app_assoc, !count_app. unfold count at 2 4. cbn [filter is_set_failed].
    rewrite Hp. cbn [List.length]. split; [reflexivity|]. split; [lia|]. intros _ H. lia.
  - exists evs. split; [reflexivity|]. split; [exact L|]. intros H. congruence.
Qed.

(** X22.  A run creates at most one application and outputs app_id at most
    once; a run that ends without having set failure has sent the create
    request exactly once and output app_id exactly once.  So it is in the
    current action and in the older variant. *)
Theorem a_run_without_failure_created_one_app_and_output_its_id_once :
  forall (w : World) (fuel : nat) (t : Trace),
    (exists evs : list Event,
        fst (Action.run w fuel t) = (t ++ evs)%list
        /\ (count is_create_app evs <= 1)%nat
        /\ (count is_app_id_output evs <= 1)%nat
        /\ (snd (Action.run w fuel t) <> None ->
            count is_set_failed evs = 0%nat ->
            count is_create_app evs = 1%nat /\ count is_app_id_output evs = 1%nat))
    /\ (exists evs : list Event,
           fst (Older.run w fuel t) = (t ++ evs)%list
           /\ (count is_create_app evs <= 1)%nat
           /\ (count is_app_id_output evs <= 1)%nat
           /\ (snd (Older.run w fuel t) <> None ->
               count is_set_failed evs = 0%nat ->
               count is_create_app evs = 1%nat /\ count is_app_id_output evs = 1%nat)).
Proof.
  intros w fuel t. split.
  - destruct (caught_exactly is_create_app (Action.run_body w fuel) t
                (fun _ => eq_refl) (run_body_creates_one_app w fuel))
      as [evs [E [L X]]].
    destruct (caught_exactly is_app_id_output (Action.run_body w fuel) t
                (fun _ => eq_refl) (run_body_outputs_the_id_once w fuel))
      as [evs' [E' [L' X']]].
    unfold Action.run. rewrite E in E'. apply app_inv_head in E'. subst evs'.
    exists evs. split; [exact E|]. split; [exact L|]. split; [exact L'|].
    intros Hn Hs. split; auto.
  - destruct (caught_exactly is_create_app (Older.run_body w fuel) t
                (fun _ => eq_refl) (older_run_body_creates_one_app w fuel))
      as [evs [E [L X]]].
    destruct (caught_exactly is_app_id_output (Older.run_body w fuel) t
                (fun _ => eq_refl) (older_run_body_outputs_the_id_once w fuel))
      as [evs' [E' [L' X']]].
    unfold Older.run. rewrite E in E'. apply app_inv_head in E'. subst evs'.
    exists evs. split; [exact E|]. split; [exact L|]. split; [exact L'|].
    intros Hn Hs. split; auto.
Qed.

Lemma a_run_without_failure_created_one_app_and_output_its_id_once_witness :
  count is_create_app (fst (Action.run build_world 5 [])) = 1%nat
  /\ count is_app_id_output (fst (Action.run build_world 5 [])) = 1%nat.
Proof.
  destruct (proj1 (a_run_without_failure_created_one_app_and_output_its_id_once
                     build_world 5 []))
    as [evs [E [_ [_ H]]]].
  cbn [app] in E. subst evs. apply H; [vm_compute; discriminate | vm_compute; reflexivity].
Defined.

(* ===================================================================== *)
(** ** Adding the containers in the older variant *)
(* ===================================================================== *)

Lemma add_containers_exactly (p : Event -> bool) (w : World) (apiKey : string)
    (appId registryId : JsValue) :
  (forall text, p (EvDebug text) = false) ->
  (forall text, p (EvInfo text) = false) ->
  (forall sent,
      p (EvFetch "POST" (API_BASE ++ "/apps/" ++ ToString appId ++ "/containers")
           apiKey sent) = true) ->
  forall (containers : list ContainerDef) (idMap : Older.IdMap),
    exactly p (List.length containers)
      (Older.add_containers w apiKey appId registryId containers idMap).
Proof.
  intros Hd Hi Hf. induction containers as [|c rest IH]; intros idMap;
    cbn [Older.add_containers List.length].
  - apply exactly_silent, bounded_ret.
  - apply exactly_front.
    { apply bounded_emit. unfold count. cbn [filter]. now rewrite Hi. }
    intros _. apply (exactly_bind p 1 (List.length rest)).
    { apply exactly_api; assumption. }
    intros created. apply exactly_front; [apply bounded_lift|]. intros id.
    apply exactly_front.
    { apply bounded_emit. unfold count. cbn [filter]. now rewrite Hi. }
    intros _. apply IH.
Qed.

Lemma add_containers_sends_nothing_else (w : World) (apiKey : string)
    (appId registryId : JsValue) :
  forall (containers : list ContainerDef) (idMap : Older.IdMap),
    bounded (other_request "POST"
               (API_BASE ++ "/apps/" ++ ToString appId ++ "/containers")) 0
      (Older.add_containers w apiKey appId registryId containers idMap).
Proof.
  induction containers as [|c rest IH]; intros idMap; cbn [Older.add_containers].
  - apply bounded_ret.
  - apply silent_bind; [apply bounded_emit; reflexivity|]. intros _.
    apply silent_bind.
    { apply bounded_api; [intros; reflexivity|]. intros sent.
      unfold count, other_request, is_request. cbn [filter is_fetch andb].
      rewrite !String.eqb_refl. reflexivity. }
    intros created. apply silent_bind; [apply bounded_lift|]. intros id.
    apply silent_bind; [apply bounded_emit; reflexivity|]. intros _.
    apply IH.
Qed.

(** X23.  The older variant adds the containers with one request each, a
    POST to the containers of the new app: no other request goes out and no
    subprocess is started; there are at most as many requests as containers,
    and exactly as many when the step ends without error. *)
Theorem older_containers_are_added_with_one_request_each :
  forall (w : World) (apiKey : string) (appId registryId : JsValue)
         (containers : list ContainerDef) (idMap : Older.IdMap) (t : Trace),
    exists evs : list Event,
      fst (Older.add_containers w apiKey appId registryId containers idMap t)
      = (t ++ evs)%list
      /\ count (other_request "POST"
                  (API_BASE ++ "/apps/" ++ ToString appId ++ "/containers")) evs
         = 0%nat
      /\ count is_exec evs = 0%nat
      /\ (count is_fetch evs <= List.length containers)%nat
      /\ (forall added,
             snd (Older.add_containers w apiKey appId registryId containers idMap t)
             = Some (Ok added) ->
             count is_fetch evs = List.length containers).
Proof.
  intros w apiKey appId registryId containers idMap t.
  destruct (add_containers_exactly is_fetch w apiKey appId registryId
              (fun _ => eq_refl) (fun _ => eq_refl) (fun _ => eq_refl)
              containers idMap t) as [evs [E [L X]]].
  exists evs. split; [exact E|].
  destruct (Older.add_containers w apiKey appId registryId containers idMap t)
    as [t' r] eqn:Em.
  cbn [fst snd] in *. subst t'.
  destruct (add_containers_sends_nothing_else w apiKey appId registryId containers
              idMap _ _ _ Em) as [e1 [E1 H1]].
  apply app_inv_head in E1. subst e1.
  assert (Hquiet : bounded is_exec 0
                     (Older.add_containers w apiKey appId registryId containers idMap)).
  { apply silent_add_containers; intros; reflexivity. }
  destruct (Hquiet _ _ _ Em) as [e2 [E2 H2]].
  apply app_inv_head in E2. subst e2.
  repeat split; try lia; assumption.
Qed.

Lemma older_containers_are_added_with_one_request_each_witness :
  count is_fetch
    (fst (Older.add_containers build_world "key" (JNumber (Num 7)) JUndefined
            [api_container; redis_container] Older.empty_map []))
  = 2%nat.
Proof.
  destruct (older_containers_are_added_with_one_request_each
              build_world "key" (JNumber (Num 7)) JUndefined
              [api_container; redis_container] Older.empty_map [])
    as [evs [E [_ [_ [_ H]]]]].
  cbn [app] in E. rewrite E. exact (H _ eq_refl).
Defined.

(** The id map is a plain object: a name it inherits is taken for an added
    container.  With constructor as endpoint container the step does not
    throw; it posts the endpoint under the text of the inherited function. *)
Remark inherited_name_is_taken_for_a_container :
  Older.create_endpoint build_world "key" (JNumber (Num 7)) true "constructor"
    "shop-endpoint" "CDN" [api_container]
    (Older.assign "api" (JNumber (Num 31)) Older.empty_map) []
  = ([EvStartGroup "Create endpoint";
      EvDebug ("POST https://api.bunny.net/mc/apps/7/containers/"
               ++ "function Object() { [native code] }/endpoints");
      EvDebug "{}";
      EvFetch "POST"
        ("https://api.bunny.net/mc/apps/7/containers/"
         ++ "function Object() { [native code] }/endpoints")
        "key" (Some "{}");
      EvInfo "Endpoint 'shop-endpoint' created (CDN, exposing: constructor:80)";
      EvEndGroup],
     Some (Ok tt)).
Proof. vm_compute. reflexivity. Qed.
